(** * temp-sensor: the streaming client of [monitor.py]

    A shallow embedding of [TemperatureMonitor] and [ApiClient] and the
    properties of the server-sent-event consumer: frame decoding, event
    mapping, the bounded session [stream] and the reconnecting supervisor
    [stream_forever].

    Python values are modelled as the interpreter has them: [str] is a
    sequence of Unicode code points, [bytes] a sequence of octets, [float] an
    IEEE 754 binary64 value ([spec_float] of the standard library).  What the
    program obtains from outside (the HTTP connection, the stop flag, the
    clock, the callback, the [json] module) is an explicit environment. *)

From Stdlib Require Import List ZArith NArith Bool Lia String Ascii.
From Stdlib Require Import Strings.Byte.
From Stdlib Require Import Floats.SpecFloat.
Import ListNotations.

Set Implicit Arguments.

(** ** Python text and bytes *)

Module PyStr.

(** A [str] is a list of code points, a [bytes] object a list of octets. *)
Definition str := list N.
Definition bytes := list byte.

Definition of_string (s : string) : str :=
  map N_of_ascii (list_ascii_of_string s).

Definition bytes_of_string (s : string) : bytes := list_byte_of_string s.

Definition LF : N := 10%N.
Definition CR : N := 13%N.

Definition in_range (lo hi c : N) : bool := (lo <=? c)%N && (c <=? hi)%N.

(** The line boundaries of [str.splitlines]. *)
Definition is_linebreak (c : N) : bool :=
  in_range 10 13 c || in_range 28 30 c || (c =? 133)%N
  || (c =? 8232)%N || (c =? 8233)%N.

(** The characters [str.strip] removes when called without argument. *)
Definition isspace (c : N) : bool :=
  in_range 9 13 c || in_range 28 31 c || (c =? 32)%N || (c =? 133)%N
  || (c =? 160)%N || (c =? 5760)%N || in_range 8192 8202 c
  || (c =? 8232)%N || (c =? 8233)%N || (c =? 8239)%N || (c =? 8287)%N
  || (c =? 12288)%N.

Fixpoint eqb (a b : str) : bool :=
  match a, b with
  | [], [] => true
  | x :: a', y :: b' => (x =? y)%N && eqb a' b'
  | _, _ => false
  end.

(** [s.startswith(p)] *)
Fixpoint startswith (s p : str) {struct p} : bool :=
  match p with
  | [] => true
  | x :: p' =>
      match s with
      | [] => false
      | y :: s' => (x =? y)%N && startswith s' p'
      end
  end.

(** [s.endswith(p)] *)
Definition endswith (s p : str) : bool := startswith (rev s) (rev p).

Fixpoint lstrip (s : str) : str :=
  match s with
  | [] => []
  | c :: r => if isspace c then lstrip r else s
  end.

Definition rstrip (s : str) : str := rev (lstrip (rev s)).

(** [s.strip()] *)
Definition strip (s : str) : str := rstrip (lstrip s).

(** [s.splitlines()]: the lines of [s] without their terminators; a carriage
    return directly followed by a line feed is one terminator, and a
    terminator at the very end opens no further line. *)
Fixpoint splitlines (s : str) : list str :=
  match s with
  | [] => []
  | c :: rest =>
      if is_linebreak c then
        [] :: match rest with
              | d :: rest' =>
                  if (c =? CR)%N && (d =? LF)%N then splitlines rest'
                  else splitlines rest
              | [] => []
              end
      else
        match splitlines rest with
        | [] => [[c]]
        | l :: ls => (c :: l) :: ls
        end
  end.

(** *** [bytes.decode("utf-8")]

    Strict decoding: [None] stands for [UnicodeDecodeError].  Overlong
    forms, surrogates and values above U+10FFFF are rejected, as are
    truncated sequences. *)

Definition cont (b : byte) : bool := in_range 128 191 (Byte.to_N b).

Definition low6 (b : byte) : N := (Byte.to_N b - 128)%N.

Fixpoint utf8_decode (bs : bytes) : option str :=
  match bs with
  | [] => Some []
  | b0 :: r0 =>
      let n0 := Byte.to_N b0 in
      if (n0 <? 128)%N then option_map (cons n0) (utf8_decode r0)
      else
        match r0 with
        | [] => None
        | b1 :: r1 =>
            let n1 := Byte.to_N b1 in
            if in_range 194 223 n0 then
              if cont b1
              then option_map (cons ((n0 - 192) * 64 + low6 b1)%N)
                              (utf8_decode r1)
              else None
            else
              match r1 with
              | [] => None
              | b2 :: r2 =>
                  if in_range 224 239 n0 then
                    if (if (n0 =? 224)%N then in_range 160 191 n1
                        else if (n0 =? 237)%N then in_range 128 159 n1
                        else cont b1) && cont b2
                    then option_map
                           (cons ((n0 - 224) * 4096 + low6 b1 * 64
                                  + low6 b2)%N)
                           (utf8_decode r2)
                    else None
                  else
                    match r2 with
                    | [] => None
                    | b3 :: r3 =>
                        if in_range 240 244 n0 then
                          if (if (n0 =? 240)%N then in_range 144 191 n1
                              else if (n0 =? 244)%N then in_range 128 143 n1
                              else cont b1) && cont b2 && cont b3
                          then option_map
                                 (cons ((n0 - 240) * 262144 + low6 b1 * 4096
                                        + low6 b2 * 64 + low6 b3)%N)
                                 (utf8_decode r3)
                          else None
                        else None
                    end
              end
        end
  end.

End PyStr.

(** ** Floats, exceptions and decoded JSON *)

Module Py.

Import PyStr.

(** Python's [float] is binary64. *)
Definition float := spec_float.

Definition prec : Z := 53.
Definition emax : Z := 1024.

Definition float_lt (a b : float) : bool := SFltb a b.   (* a < b  *)
Definition float_gt (a b : float) : bool := SFltb b a.   (* a > b  *)
Definition float_ge (a b : float) : bool := SFleb b a.   (* a >= b *)
Definition float_eq (a b : float) : bool := SFeqb a b.   (* a == b *)
Definition float_sub (a b : float) : float := SFsub prec emax a b.

(** Truth value of a float: every value but the two zeros. *)
Definition float_truthy (a : float) : bool :=
  match a with
  | S754_zero _ => false
  | _ => true
  end.

Definition one : float := S754_finite false 4503599627370496 (-52).
Definition zero : float := S754_zero false.

(** The exception classes the client can meet.  The first group are the
    classes of [requests.exceptions], all of them subclasses of
    [RequestException]; [HTTPError] is what [raise_for_status] raises.  The
    second group stands for the other subclasses of [Exception], the last
    for the classes that derive from [BaseException] only. *)
Inductive exn : Type :=
| RequestException
| HTTPError
| ConnectionError
| Timeout
| ChunkedEncodingError
| ContentDecodingError
| ValueError
| KeyError
| TypeError
| OtherException
| KeyboardInterrupt
| SystemExit.

(** [isinstance(e, requests.exceptions.RequestException)] *)
Definition is_RequestException (e : exn) : bool :=
  match e with
  | RequestException | HTTPError | ConnectionError | Timeout
  | ChunkedEncodingError | ContentDecodingError => true
  | _ => false
  end.

(** [isinstance(e, Exception)] *)
Definition is_Exception (e : exn) : bool :=
  match e with
  | KeyboardInterrupt | SystemExit => false
  | _ => true
  end.

(** The values [json.loads] returns. *)
#[warnings="-register-all"]
Inductive json : Type :=
| JNull
| JBool (b : bool)
| JInt (n : Z)
| JFloat (f : float)
| JStr (s : str)
| JList (l : list json)
| JDict (d : list (str * json)).

Fixpoint lookup (key : str) (d : list (str * json)) : option json :=
  match d with
  | [] => None
  | (k, v) :: d' => if PyStr.eqb k key then Some v else lookup key d'
  end.

(** [obj[key]] for a string key: [None] stands for the [KeyError] of a
    dictionary without the key and for the [TypeError] of every other
    value. *)
Definition getitem (obj : json) (key : str) : option json :=
  match obj with
  | JDict d => lookup key d
  | _ => None
  end.

(** The library functions the client calls and this repository does not
    define: [json.loads] and the conversions behind [float(...)].  [None]
    stands for a raised exception, in each case a subclass of [Exception]
    ([JSONDecodeError], [ValueError], [OverflowError]). *)
Record library : Type := {
  json_loads : str -> option json;
  float_of_str : str -> option float;
  float_of_int : Z -> option float
}.

(** [float(v)]; [None] is the [TypeError] or [ValueError] it raises. *)
Definition to_float (lib : library) (v : json) : option float :=
  match v with
  | JFloat f => Some f
  | JInt n => float_of_int lib n
  | JBool b => Some (if b then one else zero)
  | JStr s => float_of_str lib s
  | JNull | JList _ | JDict _ => None
  end.

End Py.

(** ** Readings and the monitor *)

Import PyStr Py.

Record TemperatureReading : Type := {
  temperature : float;
  timestamp : json   (* whatever [obj["timestamp"]] holds; never inspected *)
}.

Module Monitor.

Record TemperatureMonitor : Type := {
  safe_min : float;
  safe_max : float;
  readings : list TemperatureReading
}.

Definition add_reading (m : TemperatureMonitor) (r : TemperatureReading)
  : TemperatureMonitor :=
  {| safe_min := safe_min m; safe_max := safe_max m;
     readings := readings m ++ [r] |}.

Definition out_of_range (m : TemperatureMonitor) (r : TemperatureReading)
  : bool :=
  float_lt (temperature r) (safe_min m)
  || float_gt (temperature r) (safe_max m).

Definition check_safety (m : TemperatureMonitor) : list TemperatureReading :=
  filter (out_of_range m) (readings m).

(** The four ways [handle_event] marks a reading in the line it prints. *)
Inductive alert : Type := InRange | Below | Above | Boundary.

Definition classify (m : TemperatureMonitor) (t : float) : alert :=
  if float_lt t (safe_min m) then Below
  else if float_gt t (safe_max m) then Above
  else if float_eq t (safe_min m) || float_eq t (safe_max m) then Boundary
  else InRange.

(** The callback of the demo: its state is the monitor and the lines
    printed so far (the mark and the reading of each). *)
Definition console : Type := list (alert * TemperatureReading).

Definition handle_event (reading : TemperatureReading)
           (s : TemperatureMonitor * console)
  : (TemperatureMonitor * console) * option exn :=
  let (monitor, out) := s in
  let t := temperature reading in
  ((add_reading monitor reading, out ++ [(classify monitor t, reading)]),
   None).

End Monitor.

(** ** The environment of the client *)

Module Env.

(** What one [next()] on [resp.iter_content(chunk_size=1)] gives: a chunk,
    the end of the body, or an exception. *)
Inductive item : Type :=
| Chunk (c : bytes)
| EOF
| ReadError (e : exn).

(** What one [requests.get(url, stream=True, ...)] gives: an exception, or
    a response with its status code and its body, the answers to the
    successive reads.  A body may go on for ever. *)
Inductive connection : Type :=
| GetError (e : exn)
| Response (status_code : Z) (body : nat -> item).

(** The world around one call of the client: the connections the successive
    [requests.get] calls obtain, the answers of the successive
    [stop_event.is_set()] calls and the successive values of
    [time.time()]. *)
Record world : Type := {
  get : nat -> connection;
  is_set : nat -> bool;
  time : nat -> float
}.

(** The body that delivers the chunks of [cs] and then answers [last] to
    every further read. *)
Fixpoint body_of (cs : list bytes) (last : item) (i : nat) : item :=
  match cs, i with
  | [], _ => last
  | c :: _, O => Chunk c
  | _ :: cs', S i' => body_of cs' last i'
  end.

(** The rest of a body after its first read. *)
Definition advance (body : nat -> item) : nat -> item :=
  fun i => body (S i).

(** [resp.raise_for_status()] raises [HTTPError] for the 4xx and 5xx codes. *)
Definition raise_for_status (status_code : Z) : bool :=
  (400 <=? status_code)%Z && (status_code <? 600)%Z.

(** Where [stop_event.is_set()] is called in [stream_forever]: the [while]
    condition, the head of the chunk loop, the [except] clause. *)
Inductive site : Type := LoopHead | ChunkHead | Handler.

(** The interactions of the client with its environment, in order. *)
Inductive event : Type :=
| Get                          (* requests.get(url, stream=True, ...) *)
| Recv (c : bytes)             (* the chunk loop received [c] *)
| IsSet (s : site) (b : bool)  (* stop_event.is_set() answered [b] *)
| Loads (payload : str)        (* json.loads(payload) *)
| OnEvent (r : TemperatureReading) (raised : option exn)  (* on_event(r) *)
| Caught (e : exn)             (* the except clause of stream_forever *)
| Sleep (seconds : Z)          (* time.sleep(seconds) *)
| Time (t : float).            (* time.time() returned [t] *)

(** How a piece of the client ends: normally, with an exception, or not
    within the number of steps it was given. *)
Inductive outcome : Type :=
| Normal
| Raise (e : exn)
| OutOfFuel.

End Env.

Import Env.

(** ** ApiClient *)

Module ApiClient.

Section Client.

Variable lib : library.

(** The delivery callback with the state it works on: the new state and the
    exception it raised, if any. *)
Variable T : Type.
Variable on_event : TemperatureReading -> T -> T * option exn.

Variable w : world.

(** The local variables of a streaming method, the state of the callback and
    how many answers of each kind the world has given.  [event_count]
    belongs to [stream] alone. *)
Record state : Type := {
  cb : T;
  buffer : str;
  event_count : Z;
  gets : nat;
  checks : nat;
  ticks : nat
}.

Definition data_prefix : str := of_string "data:".
Definition terminator : str := [LF; LF].
Definition key_temperature : str := of_string "temperature".
Definition key_timestamp : str := of_string "timestamp".

(** [TemperatureReading(float(obj["temperature"]), obj["timestamp"])] for
    [obj = json.loads(payload)]; [None] when one of the steps raises. *)
Definition parse_reading (payload : str) : option TemperatureReading :=
  match json_loads lib payload with
  | None => None
  | Some obj =>
      match getitem obj key_temperature with
      | None => None
      | Some v =>
          match to_float lib v with
          | None => None
          | Some t =>
              match getitem obj key_timestamp with
              | None => None
              | Some ts => Some {| temperature := t; timestamp := ts |}
              end
          end
      end
  end.

(** The [try] block around one payload: the events, the state of the
    callback, the increment of [event_count] and the exception that
    [except Exception: pass] lets through, if any. *)
Definition deliver (payload : str) (s : T)
  : list event * T * Z * option exn :=
  match parse_reading payload with
  | None => ([Loads payload], s, 0%Z, None)
  | Some r =>
      let (s', raised) := on_event r s in
      match raised with
      | None => ([Loads payload; OnEvent r None], s', 1%Z, None)
      | Some e =>
          ([Loads payload; OnEvent r (Some e)], s', 0%Z,
           if is_Exception e then None else Some e)
      end
  end.

(** [[ln for ln in buffer.splitlines() if ln.strip() != ""]] *)
Definition lines_of (buf : str) : list str :=
  filter (fun ln => negb (PyStr.eqb (strip ln) [])) (splitlines buf).

(** [ln[len("data:"):].strip()] *)
Definition payload_of (ln : str) : str := strip (skipn 5 ln).

(** [for ln in lines: ...] *)
Fixpoint for_lines (lines : list str) (s : T)
  : list event * T * Z * option exn :=
  match lines with
  | [] => ([], s, 0%Z, None)
  | ln :: rest =>
      if startswith ln data_prefix then
        let '(ev, s1, k, x) := deliver (payload_of ln) s in
        match x with
        | Some e => (ev, s1, k, Some e)
        | None =>
            let '(ev', s2, k', x') := for_lines rest s1 in
            (ev ++ ev', s2, (k + k')%Z, x')
        end
      else for_lines rest s
  end.

(** How the handling of one chunk ends: with [continue], at the end of the
    loop body, or with an exception. *)
Inductive step : Type :=
| Continue
| Through
| Escape (e : exn).

(** The part of the loop body the two methods share: from [if not chunk]
    to [buffer = ""]. *)
Definition feed (chunk : bytes) (buf : str) (s : T)
  : list event * str * T * Z * step :=
  match chunk with
  | [] => ([], buf, s, 0%Z, Continue)
  | _ =>
      match utf8_decode chunk with
      | None => ([], buf, s, 0%Z, Continue)
      | Some ch =>
          let buf := buf ++ ch in
          if endswith buf terminator then
            let '(ev, s', k, x) := for_lines (lines_of buf) s in
            match x with
            | Some e => (ev, buf, s', k, Escape e)
            | None => (ev, [], s', k, Through)
            end
          else ([], buf, s, 0%Z, Through)
      end
  end.

Definition fed (st : state) (buf : str) (s : T) (k : Z) : state :=
  {| cb := s; buffer := buf; event_count := (event_count st + k)%Z;
     gets := gets st; checks := checks st; ticks := ticks st |}.

Definition with_buffer (st : state) (buf : str) : state :=
  {| cb := cb st; buffer := buf; event_count := event_count st;
     gets := gets st; checks := checks st; ticks := ticks st |}.

Definition with_count (st : state) (n : Z) : state :=
  {| cb := cb st; buffer := buffer st; event_count := n;
     gets := gets st; checks := checks st; ticks := ticks st |}.

Definition got (st : state) : state :=
  {| cb := cb st; buffer := buffer st; event_count := event_count st;
     gets := S (gets st); checks := checks st; ticks := ticks st |}.

Definition checked (st : state) : state :=
  {| cb := cb st; buffer := buffer st; event_count := event_count st;
     gets := gets st; checks := S (checks st); ticks := ticks st |}.

Definition ticked (st : state) : state :=
  {| cb := cb st; buffer := buffer st; event_count := event_count st;
     gets := gets st; checks := checks st; ticks := S (ticks st) |}.

(** The state in which a method is entered. *)
Definition entry (s : T) : state :=
  {| cb := s; buffer := []; event_count := 0%Z;
     gets := 0; checks := 0; ticks := 0 |}.

(** Events in front of what follows them. *)
Definition after (ev : list event) (r : list event * state * outcome)
  : list event * state * outcome :=
  let '(ev', st, out) := r in (ev ++ ev', st, out).

(** *** [stream] *)

(** [stop_after and event_count >= stop_after] *)
Definition count_reached (stop_after : option Z) (n : Z) : bool :=
  match stop_after with
  | None => false
  | Some k => negb (k =? 0)%Z && (k <=? n)%Z
  end.

(** The truth value of [timeout]. *)
Definition has_timeout (timeout : option float) : option float :=
  match timeout with
  | None => None
  | Some t => if float_truthy t then Some t else None
  end.

(** [for chunk in resp.iter_content(chunk_size=1): ...] of [stream] *)
Fixpoint stream_chunks (fuel : nat) (stop_after : option Z)
         (timeout : option float) (start : float) (body : nat -> item)
         (st : state) : list event * state * outcome :=
  match fuel with
  | O => ([], st, OutOfFuel)
  | S fuel' =>
      match body O with
      | EOF => ([], st, Normal)
      | ReadError e => ([], st, Raise e)
      | Chunk c =>
          let '(ev, buf, s, k, how) := feed c (buffer st) (cb st) in
          let st1 := fed st buf s k in
          let again st' :=
            stream_chunks fuel' stop_after timeout start (advance body) st' in
          after (Recv c :: ev)
            match how with
            | Escape e => ([], st1, Raise e)
            | Continue => again st1
            | Through =>
                if count_reached stop_after (event_count st1)
                then ([], st1, Normal)
                else
                  match has_timeout timeout with
                  | None => again st1
                  | Some t =>
                      let now := time w (ticks st1) in
                      let st2 := ticked st1 in
                      after [Time now]
                        (if float_ge (float_sub now start) t
                         then ([], st2, Normal)
                         else again st2)
                  end
            end
      end
  end.

Definition stream (fuel : nat) (stop_after : option Z)
           (timeout : option float) (st : state)
  : list event * state * outcome :=
  after [Get]
    match get w (gets st) with
    | GetError e => ([], got st, Raise e)
    | Response code body =>
        if raise_for_status code then ([], got st, Raise HTTPError)
        else
          let st1 := with_count (got st) 0 in
          let start := time w (ticks st1) in
          let st2 := with_buffer (ticked st1) [] in
          after [Time start]
            (stream_chunks fuel stop_after timeout start body st2)
    end.

(** *** [stream_forever] *)

(** [for chunk in resp.iter_content(chunk_size=1): ...] of
    [stream_forever] *)
Fixpoint forever_chunks (fuel : nat) (body : nat -> item) (st : state)
  : list event * state * outcome :=
  match fuel with
  | O => ([], st, OutOfFuel)
  | S fuel' =>
      match body O with
      | EOF => ([], st, Normal)
      | ReadError e => ([], st, Raise e)
      | Chunk c =>
          let stop := is_set w (checks st) in
          let st0 := checked st in
          after [Recv c; IsSet ChunkHead stop]
            (if stop then ([], st0, Normal)
             else
               let '(ev, buf, s, k, how) := feed c (buffer st0) (cb st0) in
               let st1 := with_count (fed st0 buf s k) (event_count st0) in
               after ev
                 match how with
                 | Escape e => ([], st1, Raise e)
                 | Continue | Through =>
                     forever_chunks fuel' (advance body) st1
                 end)
      end
  end.

(** The [with requests.get(...) as resp:] block of [stream_forever]. *)
Definition forever_session (fuel : nat) (st : state)
  : list event * state * outcome :=
  after [Get]
    match get w (gets st) with
    | GetError e => ([], got st, Raise e)
    | Response code body =>
        if raise_for_status code then ([], got st, Raise HTTPError)
        else forever_chunks fuel body (with_buffer (got st) [])
    end.

Fixpoint stream_forever (fuel : nat) (st : state)
  : list event * state * outcome :=
  match fuel with
  | O => ([], st, OutOfFuel)
  | S fuel' =>
      let stop := is_set w (checks st) in
      let st0 := checked st in
      after [IsSet LoopHead stop]
        (if stop then ([], st0, Normal)
         else
           let '(ev, st1, out) := forever_session fuel' st0 in
           after ev
             match out with
             | Normal => stream_forever fuel' st1
             | OutOfFuel => ([], st1, OutOfFuel)
             | Raise e =>
                 if is_RequestException e then
                   let stop' := is_set w (checks st1) in
                   let st2 := checked st1 in
                   after [Caught e; IsSet Handler stop']
                     (if stop' then ([], st2, Normal)
                      else after [Sleep 1] (stream_forever fuel' st2))
                 else ([], st1, Raise e)
             end)
  end.

End Client.

End ApiClient.

(** ** What a run shows *)

Module Trace.

Definition events_of {A B : Type} (r : list event * A * B) : list event :=
  fst (fst r).
Definition state_of {A B : Type} (r : list event * A * B) : A :=
  snd (fst r).
Definition outcome_of {A B : Type} (r : list event * A * B) : B :=
  snd r.

(** The payloads handed to [json.loads], in order. *)
Fixpoint loads (ev : list event) : list str :=
  match ev with
  | [] => []
  | Loads p :: ev' => p :: loads ev'
  | _ :: ev' => loads ev'
  end.

(** The readings [on_event] was called with, in order. *)
Fixpoint invoked (ev : list event) : list TemperatureReading :=
  match ev with
  | [] => []
  | OnEvent r _ :: ev' => r :: invoked ev'
  | _ :: ev' => invoked ev'
  end.

(** The readings whose [on_event] call returned. *)
Fixpoint delivered (ev : list event) : list TemperatureReading :=
  match ev with
  | [] => []
  | OnEvent r None :: ev' => r :: delivered ev'
  | _ :: ev' => delivered ev'
  end.

(** The calls of [on_event] with their results, in order. *)
Fixpoint calls (ev : list event) : list (TemperatureReading * option exn) :=
  match ev with
  | [] => []
  | OnEvent r x :: ev' => (r, x) :: calls ev'
  | _ :: ev' => calls ev'
  end.

(** The chunks received, in order. *)
Fixpoint received (ev : list event) : list bytes :=
  match ev with
  | [] => []
  | Recv c :: ev' => c :: received ev'
  | _ :: ev' => received ev'
  end.

(** A callback whose exceptions are all instances of [Exception]. *)
Definition raises_only_Exception {T : Type}
           (on_event : TemperatureReading -> T -> T * option exn) : Prop :=
  forall r s e, snd (on_event r s) = Some e -> is_Exception e = true.

(** A stop flag that stays set once it is set. *)
Definition stays_set (w : world) : Prop :=
  forall i j, i <= j -> is_set w i = true -> is_set w j = true.

End Trace.

(** ** The frame decoder on its own *)

Module Decoder.

Import ApiClient.

(** [ln.startswith("data:")] *)
Definition is_data (ln : str) : bool := startswith ln data_prefix.

(** The payloads of a buffer that ends a frame. *)
Definition frame_payloads (buf : str) : list str :=
  map payload_of (filter is_data (lines_of buf)).

(** The payloads the chunk loop extracts from the chunks [cs], starting
    with the buffer [buf]: the loop body without the event mapper. *)
Fixpoint decode (cs : list bytes) (buf : str) : list str :=
  match cs with
  | [] => []
  | [] :: cs' => decode cs' buf
  | c :: cs' =>
      match utf8_decode c with
      | None => decode cs' buf
      | Some ch =>
          let buf := buf ++ ch in
          if endswith buf terminator
          then frame_payloads buf ++ decode cs' []
          else decode cs' buf
      end
  end.

(** The text a chunk adds to the buffer. *)
Definition chunk_text (c : bytes) : str :=
  match utf8_decode c with
  | Some ch => ch
  | None => []
  end.

Definition text_of (cs : list bytes) : str := List.concat (map chunk_text cs).

(** A chunk that decodes on its own. *)
Definition decodable (c : bytes) : Prop := utf8_decode c <> None.

(** A byte of the ASCII range. *)
Definition is_ascii (b : byte) : bool := (Byte.to_N b <? 128)%N.

Definition ascii_text (bs : bytes) : str := map Byte.to_N bs.

(** A line of an event: a text without line boundary. *)
Definition plain_line (l : str) : Prop :=
  Forall (fun c => is_linebreak c = false) l.

(** The text of an event on the wire: its lines, each closed by a line
    feed, and the blank line that ends it. *)
Definition event_text (lines : list str) : str :=
  List.concat (map (fun l => l ++ [LF]) lines) ++ [LF].

(** The text of a stream of events. *)
Definition stream_text (evs : list (list str)) : str :=
  List.concat (map event_text evs).

(** The payloads an event carries: one for each of its [data:] lines. *)
Definition event_payloads (lines : list str) : list str :=
  map payload_of (filter is_data lines).

End Decoder.
(** ** Statistics and reports of the monitor *)

Module Statistics.

Import Monitor.

(** [a <= b] *)
Definition float_le (a b : float) : bool := SFleb a b.

(** [self.readings.extend(readings)] *)
Definition add_readings (m : TemperatureMonitor)
           (rs : list TemperatureReading) : TemperatureMonitor :=
  {| safe_min := safe_min m; safe_max := safe_max m;
     readings := readings m ++ rs |}.

(** The content of the array [_temps_array] returns. *)
Definition temps_array (m : TemperatureMonitor) : list float :=
  map temperature (readings m).

(** The reductions of [numpy] the program calls, each on a non-empty array
    of float64, where none of them raises. *)
Record numpy : Type := {
  np_min : list float -> float;
  np_max : list float -> float;
  np_mean : list float -> float
}.

(** The dictionary [compute_stats] returns, by its keys. *)
Record stats : Type := {
  count : nat;
  min : option float;
  max : option float;
  mean : option float
}.

Definition compute_stats (np : numpy) (m : TemperatureMonitor) : stats :=
  match temps_array m with
  | [] => {| count := 0; min := None; max := None; mean := None |}
  | arr =>
      {| count := List.length arr;
         min := Some (np_min np arr);
         max := Some (np_max np arr);
         mean := Some (np_mean np arr) |}
  end.

(** The lines the program prints, by what they show. *)
Inductive line : Type :=
| ReportHeader                       (* === Temperature Monitor Report === *)
| ReportCount (n : nat)              (* Count: n *)
| ReportMin (x : option float)       (* Min: x *)
| ReportMax (x : option float)       (* Max: x *)
| ReportMean (x : option float)      (* Mean: x *)
| ReportSafe (lo hi : float)         (* All readings within safe range *)
| ReportUnsafe (n : nat)             (* n reading(s) OUT OF SAFE RANGE: *)
| ReportOutlier (r : TemperatureReading)
| Loaded (n : nat)                   (* Loaded n readings from /history *)
| Entry (i : nat) (r : TemperatureReading)
| More (n : nat)                     (* ... (n more entries) *)
| CouldNotFetch (e : exn)            (* Could not fetch history: e *)
| MinLine (x : option float)         (* Min: x  or  Min: - *)
| MaxLine (x : option float)
| MeanLine (x : option float)
| ColdHeader (lo : float) (n : nat)  (* --- Cold readings <= lo (n) --- *)
| HotHeader (hi : float) (n : nat)   (* --- Hot readings >= hi (n) --- *)
| ColdLine (i : nat) (r : TemperatureReading)
| HotLine (i : nat) (r : TemperatureReading)
| NoneLine.                          (* None *)



(** [enumerate(l, start)] *)
Definition enumerate {A : Type} (l : list A) (start : nat) : list (nat * A) :=
  combine (seq start (List.length l)) l.

(** The list [low] of [show_cold_violations] and the list [high] of
    [show_hot_violations]. *)
Definition low (m : TemperatureMonitor) : list TemperatureReading :=
  filter (fun r => float_le (temperature r) (safe_min m)) (readings m).

Definition high (m : TemperatureMonitor) : list TemperatureReading :=
  filter (fun r => float_ge (temperature r) (safe_max m)) (readings m).

Definition show_cold_violations (m : TemperatureMonitor) : list line :=
  ColdHeader (safe_min m) (List.length (low m))
  :: match low m with
     | [] => [NoneLine]
     | l => map (fun ir => ColdLine (fst ir) (snd ir)) (enumerate l 1)
     end.

Definition show_hot_violations (m : TemperatureMonitor) : list line :=
  HotHeader (safe_max m) (List.length (high m))
  :: match high m with
     | [] => [NoneLine]
     | l => map (fun ir => HotLine (fst ir) (snd ir)) (enumerate l 1)
     end.

End Statistics.

(** ** The history of the server *)

Module History.

Import ApiClient Statistics.

(** [s.rstrip(chars)] *)
Fixpoint lstrip_chars (chars s : str) : str :=
  match s with
  | [] => []
  | c :: r => if existsb (N.eqb c) chars then lstrip_chars chars r else s
  end.

Definition rstrip_chars (chars s : str) : str :=
  rev (lstrip_chars chars (rev s)).

Definition slash : str := of_string "/".

(** The client object: [__init__] keeps the base address without the
    slashes at its end. *)
Record client : Type := { base_url : str }.

Definition init (url : str) : client :=
  {| base_url := rstrip_chars slash url |}.

Definition history_url (c : client) : str :=
  base_url c ++ of_string "/history".

Definition stream_url (c : client) : str :=
  base_url c ++ of_string "/stream".

(** What [requests.get(url, timeout=10)] gives: an exception, or a response
    with its status code and what [resp.json()] makes of its body, a value
    or an exception. *)
Inductive answer : Type :=
| NoAnswer (e : exn)
| Answer (status_code : Z) (json : exn + json).

(** [for it in items]: the elements of a list, the keys of a dictionary,
    the characters of a string; [None] is the [TypeError] of a value that
    cannot be iterated over. *)
Definition iterate (items : json) : option (list json) :=
  match items with
  | JList l => Some l
  | JDict d => Some (map (fun kv => JStr (fst kv)) d)
  | JStr s => Some (map (fun c => JStr [c]) s)
  | JNull | JBool _ | JInt _ | JFloat _ => None
  end.

(** The exception of [obj[key]] for a string key that [obj] does not
    answer. *)
Definition subscript_error (obj : json) : exn :=
  match obj with
  | JDict _ => KeyError
  | _ => TypeError
  end.

(** The exception of [float(v)] for a value that it does not convert:
    [ValueError] for a string, [OverflowError] for an integer, [TypeError]
    for the rest. *)
Definition float_error (v : json) : exn :=
  match v with
  | JStr _ => ValueError
  | JInt _ => OtherException
  | _ => TypeError
  end.

(** [TemperatureReading(float(it["temperature"]), it["timestamp"])] *)
Definition reading_of (lib : library) (it : json)
  : exn + TemperatureReading :=
  match getitem it key_temperature with
  | None => inl (subscript_error it)
  | Some v =>
      match to_float lib v with
      | None => inl (float_error v)
      | Some t =>
          match getitem it key_timestamp with
          | None => inl (subscript_error it)
          | Some ts => inr {| temperature := t; timestamp := ts |}
          end
      end
  end.

(** The list comprehension of [fetch_history]: the first item that raises
    ends it. *)
Fixpoint readings_of (lib : library) (items : list json)
  : exn + list TemperatureReading :=
  match items with
  | [] => inr []
  | it :: rest =>
      match reading_of lib it with
      | inl e => inl e
      | inr r =>
          match readings_of lib rest with
          | inl e => inl e
          | inr rs => inr (r :: rs)
          end
      end
  end.

(** [fetch_history], over the network [net], which gives the answer to a
    request by its address. *)
Definition fetch_history (lib : library) (net : str -> answer) (c : client)
  : exn + list TemperatureReading :=
  match net (history_url c) with
  | NoAnswer e => inl e
  | Answer code body =>
      if raise_for_status code then inl HTTPError
      else
        match body with
        | inl e => inl e
        | inr items =>
            match iterate items with
            | None => inl TypeError
            | Some its => readings_of lib its
            end
        end
  end.


Definition placeholders : list line :=
  [MinLine None; MaxLine None; MeanLine None].

(** [analyze_history_only]: the lines printed and the exception that
    [except Exception] lets through, if any. *)
Definition analyze_history_only (np : numpy) (lib : library)
           (net : str -> answer) (c : client) : list line * option exn :=
  match fetch_history lib net c with
  | inl e => if is_Exception e then (placeholders, None) else ([], Some e)
  | inr history =>
      match map temperature history with
      | [] => (placeholders, None)
      | temps =>
          ([MinLine (Some (np_min np temps)); MaxLine (Some (np_max np temps));
            MeanLine (Some (np_mean np temps))], None)
      end
  end.

End History.

(** ** Further observations on a run *)

Module Run.

Import ApiClient.

(** The state of a callback after the calls with the readings [rs], each
    call working on what the one before left, whether it raised or not. *)
Definition replay {T : Type}
           (on_event : TemperatureReading -> T -> T * option exn)
           (rs : list TemperatureReading) (s : T) : T :=
  fold_left (fun s r => fst (on_event r s)) rs s.

(** A chunk the loop body leaves with [continue]: an empty one, or one
    that does not decode. *)
Definition skipped (c : bytes) : bool :=
  match c with
  | [] => true
  | _ => match utf8_decode c with
         | None => true
         | Some _ => false
         end
  end.

(** A text in which two line feeds follow each other somewhere. *)
Fixpoint holds_terminator (t : str) : bool :=
  match t with
  | [] => false
  | a :: r =>
      match r with
      | [] => false
      | b :: _ => ((a =? LF)%N && (b =? LF)%N) || holds_terminator r
      end
  end.

(** The number of requests in a trace. *)
Fixpoint requests (ev : list event) : nat :=
  match ev with
  | [] => 0
  | Get :: ev' => S (requests ev')
  | _ :: ev' => requests ev'
  end.

(** The readings [handle_event] marked as below or above the interval. *)
Definition alarms (out : Monitor.console) : list TemperatureReading :=
  map snd
      (filter (fun l => match fst l with
                        | Monitor.Below | Monitor.Above => true
                        | _ => false
                        end) out).

End Run.

(** ** Concrete streams and worlds *)

Module Demo.

Import ApiClient Monitor.

Local Open Scope string_scope.

Definition quote : string := String (ascii_of_nat 34) EmptyString.
Definition newline : string := String (ascii_of_nat 10) EmptyString.

(** The text [{"temperature": t, "timestamp": "ts"}]. *)
Definition payload (t ts : string) : string :=
  "{" ++ quote ++ "temperature" ++ quote ++ ": " ++ t ++ ", "
      ++ quote ++ "timestamp" ++ quote ++ ": " ++ quote ++ ts ++ quote ++ "}".

(** The frame [data: {...}\n\n]. *)
Definition frame (t ts : string) : string :=
  "data: " ++ payload t ts ++ newline ++ newline.

Definition payload1 : str := of_string (payload "25.5" "t1").
Definition payload2 : str := of_string (payload "99.9" "t2").

(** The literal stream of the two frames. *)
Definition two_frames : bytes :=
  bytes_of_string (frame "25.5" "t1" ++ frame "99.9" "t2").


(** The binary64 values of the literals [25.5], [99.9], [20.0], [80.0]. *)
Definition f25_5 : float := S754_finite false 7177611906121728 (-48).
Definition f99_9 : float := S754_finite false 7029837543348634 (-46).
Definition f20 : float := S754_finite false 5629499534213120 (-48).
Definition f80 : float := S754_finite false 5629499534213120 (-46).

Definition object (t : float) (ts : string) : json :=
  JDict [(key_temperature, JFloat t); (key_timestamp, JStr (of_string ts))].

Definition reading (t : float) (ts : string) : TemperatureReading :=
  {| temperature := t; timestamp := JStr (of_string ts) |}.

(** A library that knows the two payloads above, as [json.loads] decodes
    them, and rejects every other text. *)
Definition two_payload_lib : library :=
  {| json_loads := fun p =>
       if PyStr.eqb p payload1 then Some (object f25_5 "t1")
       else if PyStr.eqb p payload2 then Some (object f99_9 "t2")
       else None;
     float_of_str := fun _ => None;
     float_of_int := fun _ => None |}.

(** A stream cut into chunks of one byte, as [iter_content(chunk_size=1)]
    delivers it. *)
Definition singles (bs : bytes) : list bytes := map (fun b => [b]) bs.

(** A world whose every connection answers 200 with the chunks [cs], in
    which the stop flag is never set and the clock stands still. *)
Definition serving (cs : list bytes) : world :=
  {| get := fun _ => Response 200 (body_of cs EOF);
     is_set := fun _ => false;
     time := fun _ => zero |}.

(** The monitor of the demo, with the default interval. *)
Definition monitor0 : TemperatureMonitor * console :=
  ({| safe_min := f20; safe_max := f80; readings := [] |}, []).

(** A callback that counts its calls and raises [ValueError] each time. *)
Definition failing_callback (r : TemperatureReading) (n : nat)
  : nat * option exn :=
  (S n, Some ValueError).

(** A [data:] line with the first payload, and one with a text that is no
    JSON. *)
Definition good_line : str := of_string ("data: " ++ payload "25.5" "t1").
Definition bad_line : str := of_string "data: oops".


(** A monitor with the default interval, holding one reading at its
    [safe_max]. *)
Definition at_maximum : TemperatureMonitor :=
  {| safe_min := f20; safe_max := f80; readings := [reading f80 "t"] |}.

(** The stream [data: é\n\n], whole and cut inside the two-byte letter. *)
Definition accent_whole : list bytes :=
  [(bytes_of_string "data: "
    ++ ["195"%byte; "169"%byte; "010"%byte; "010"%byte])%list].

Definition accent_split : list bytes :=
  [(bytes_of_string "data: " ++ ["195"%byte])%list;
   ["169"%byte; "010"%byte; "010"%byte]].

(** The same stream cut between its characters. *)
Definition accent_by_letter : list bytes :=
  [bytes_of_string "data: "; ["195"%byte; "169"%byte]; ["010"%byte];
   ["010"%byte]].

(** A world whose every connection answers with the status [code], and in
    which the stop flag is set from the [n]-th question on. *)
Definition answering (code : Z) (n : nat) : world :=
  {| get := fun _ => Response code (fun _ => EOF);
     is_set := fun i => Nat.leb n i;
     time := fun _ => zero |}.

(** A world whose every connection answers 200 and then delivers the
    letter x for ever, never a terminator; the stop flag is set from the
    [n]-th question on. *)
Definition endless (n : nat) : world :=
  {| get := fun _ => Response 200 (fun _ => Chunk [byte_of_ascii "x"%char]);
     is_set := fun i => Nat.leb n i;
     time := fun _ => zero |}.

(** The first frame cut in two inside its payload, and the second frame. *)
Definition first_half : bytes :=
  bytes_of_string ("data: {" ++ quote ++ "temperature" ++ quote ++ ": 25.5, "
                   ++ quote ++ "times").
Definition second_half : bytes :=
  bytes_of_string ("tamp" ++ quote ++ ": " ++ quote ++ "t1" ++ quote ++ "}"
                   ++ newline ++ newline ++ frame "99.9" "t2").

(** A world whose first connection breaks after the first half, whose
    second connection delivers the rest, and in which the stop flag is set
    when that one has broken too. *)
Definition dropping : world :=
  {| get := fun i =>
       match i with
       | 0 => Response 200 (body_of (singles first_half)
                              (ReadError ConnectionError))
       | _ => Response 200 (body_of (singles second_half)
                              (ReadError ConnectionError))
       end;
     is_set := fun i =>
       Nat.leb (3 + List.length first_half + List.length second_half) i;
     time := fun _ => zero |}.

(** The [data:] line with the second payload. *)
Definition second_line : str := of_string ("data: " ++ payload "99.9" "t2").

(** One event whose only line holds a form feed between [data: a] and
    [data: b], in one chunk. *)
Definition form_feed_frame : list bytes :=
  [(bytes_of_string "data: a" ++ ["012"%byte] ++ bytes_of_string "data: b"
    ++ ["010"%byte; "010"%byte])%list].



(** A callback that counts its calls and raises [KeyboardInterrupt] each
    time. *)
Definition interrupted_callback (r : TemperatureReading) (n : nat)
  : nat * option exn :=
  (S n, Some KeyboardInterrupt).

(** The address of the demo, and a network on which the history of the
    server holds the two readings of the literal stream and no other
    address answers. *)
Definition localhost : str := of_string "http://localhost:3000".

Definition history_net (url : str) : History.answer :=
  if PyStr.eqb url (of_string "http://localhost:3000/history")
  then History.Answer 200
         (inr (JList [object f25_5 "t1"; object f99_9 "t2"]))
  else History.NoAnswer ConnectionError.

(** A network on which the history is the JSON object [body]. *)
Definition object_net (body : list (str * json)) (url : str)
  : History.answer :=
  History.Answer 200 (inr (JDict body)).

(** The two parts of a payload whose timestamp holds a line separator
    between the letters a and b. *)
Definition cut_front : str :=
  of_string (" {" ++ quote ++ "temperature" ++ quote ++ ": 25.5, "
             ++ quote ++ "timestamp" ++ quote ++ ": " ++ quote ++ "a").
Definition cut_back : str := of_string ("b" ++ quote ++ "}").

(** A numpy whose every reduction answers [x]. *)
Definition constant_numpy (x : float) : Statistics.numpy :=
  {| Statistics.np_min := fun _ => x;
     Statistics.np_max := fun _ => x;
     Statistics.np_mean := fun _ => x |}.

(** Three chunks of one byte that do not decode. *)
Definition undecodable : list bytes :=
  [["255"%byte]; ["254"%byte]; ["128"%byte]].

(** The stream [data: x] with carriage return and line feed at the end of
    each line, byte by byte. *)
Definition crlf_stream : list bytes :=
  singles (bytes_of_string "data: x"
           ++ ["013"%byte; "010"%byte; "013"%byte; "010"%byte])%list.

End Demo.

(** ** Shapes of traces *)

Module Shape.

Import Trace Decoder.

(** A text the decoder consumes completely: it is empty, a lone line feed,
    or it ends with the terminator. *)
Definition closed (t : str) : Prop :=
  t = [] \/ t = [LF] \/ endswith t ApiClient.terminator = true.

(** The events of the event mapper and of the callback. *)
Definition is_mapping (e : event) : bool :=
  match e with
  | Loads _ | OnEvent _ _ => true
  | _ => false
  end.

(** The events of the chunk loop of [stream_forever]. *)
Definition chunk_event (e : event) : bool :=
  match e with
  | Recv _ | IsSet ChunkHead _ | Loads _ | OnEvent _ _ => true
  | _ => false
  end.

(** The events of one session: the request and the chunk loop. *)
Definition session_event (e : event) : bool :=
  match e with
  | Get => true
  | _ => chunk_event e
  end.

(** The readings the payloads [ps] map to. *)
Fixpoint mapped (lib : library) (ps : list str) : list TemperatureReading :=
  match ps with
  | [] => []
  | p :: ps' =>
      match ApiClient.parse_reading lib p with
      | Some r => r :: mapped lib ps'
      | None => mapped lib ps'
      end
  end.

(** What one pass through the [try] block always satisfies. *)
Record sound (lib : library) (ev : list event) (k : Z) : Prop := {
  sound_mapping : forallb is_mapping ev = true;
  sound_invoked : invoked ev = mapped lib (loads ev);
  sound_count : k = Z.of_nat (List.length (delivered ev))
}.

(** An exception that leaves the loop over the lines is one the callback
    raised and that is no instance of [Exception]. *)
Definition escaped {T : Type}
           (on_event : TemperatureReading -> T -> T * option exn) (e : exn)
  : Prop :=
  is_Exception e = false /\
  exists r s s', on_event r s = (s', Some e).

(** A world in which the stop flag is never set. *)
Definition never_set (w : world) : Prop := forall i, is_set w i = false.

(** How a run begins: not at all, with the flag found set, or with a
    request. *)
Definition opening (ev : list event) (out : outcome) : Prop :=
  (ev = [] /\ out = OutOfFuel)
  \/ (ev = [IsSet LoopHead true] /\ out = Normal)
  \/ exists rest, ev = IsSet LoopHead false :: Get :: rest.

(** What follows the entry into the [except] clause: the flag is asked
    for; if it is set the run ends; if not, one second is slept and the
    loop is entered again. *)
Definition backoff (post : list event) (out : outcome) : Prop :=
  (post = [IsSet Handler true] /\ out = Normal)
  \/ exists rest,
       post = IsSet Handler false :: Sleep 1 :: rest
       /\ ((rest = [] /\ out = OutOfFuel)
           \/ (rest = [IsSet LoopHead true] /\ out = Normal)
           \/ exists rest', rest = IsSet LoopHead false :: Get :: rest').

(** How a run goes on after it found the flag set: it ends at once, or, when
    the chunk loop found it, with the [while] condition finding it again. *)
Definition winding_up (s : site) (post : list event) (out : outcome)
  : Prop :=
  (s <> ChunkHead /\ post = [] /\ out = Normal)
  \/ (s = ChunkHead
      /\ ((post = [] /\ out = OutOfFuel)
          \/ (post = [IsSet LoopHead true] /\ out = Normal))).

(** Two states that differ in the buffer at most. *)
Definition same_but_buffer {T : Type} (a b : ApiClient.state T) : Prop :=
  ApiClient.with_buffer a [] = ApiClient.with_buffer b [].

End Shape.

(** * Properties *)

Unset Implicit Arguments.

(** A trace that has ended holds no further event: closes a goal whose
    premise says that an ended trace is [p ++ x :: post]. *)
Ltac ended p :=
  let H := fresh in
  unfold Trace.events_of; cbn [fst snd app]; intros H; destruct p;
  cbn [app] in H; discriminate H.

(** ** Text *)

Module StrFacts.

Lemma startswith_cons (x y : N) (s p : str) :
  startswith (y :: s) (x :: p) = (x =? y)%N && startswith s p.
Proof. reflexivity. Qed.

Lemma startswith_spec (p s : str) :
  startswith s p = true <-> exists r, s = p ++ r.
Proof.
  revert s; induction p as [|x p IH]; intros s; simpl.
  - split; [intros _; now exists s | reflexivity].
  - destruct s as [|y s].
    + split; [discriminate | intros [r Hr]; discriminate].
    + rewrite andb_true_iff, N.eqb_eq, IH. split.
      * intros [-> [r ->]]. now exists r.
      * intros [r Hr]. injection Hr as -> ->. split; [reflexivity | now exists r].
Qed.

Lemma endswith_spec (p s : str) :
  endswith s p = true <-> exists a, s = a ++ p.
Proof.
  unfold endswith. rewrite startswith_spec. split.
  - intros [r Hr]. exists (rev r).
    rewrite <- (rev_involutive s), Hr, rev_app_distr, rev_involutive.
    reflexivity.
  - intros [a ->]. exists (rev a). apply rev_app_distr.
Qed.

Lemma splitlines_nil (s : str) : splitlines s = [] -> s = [].
Proof.
  destruct s as [|c r]; [reflexivity|]. simpl.
  destruct (is_linebreak c); [discriminate|].
  destruct (splitlines r); discriminate.
Qed.

Lemma splitlines_LF (r : str) : splitlines (LF :: r) = [] :: splitlines r.
Proof. destruct r; reflexivity. Qed.

Lemma splitlines_break (c d : N) (rest : str) :
  is_linebreak c = true ->
  splitlines (c :: d :: rest) =
  [] :: (if (c =? CR)%N && (d =? LF)%N then splitlines rest
         else splitlines (d :: rest)).
Proof. intros H. simpl. now rewrite H. Qed.

Lemma splitlines_plain (c : N) (rest : str) :
  is_linebreak c = false ->
  splitlines (c :: rest) =
  match splitlines rest with
  | [] => [[c]]
  | l :: ls => (c :: l) :: ls
  end.
Proof. intros H. simpl. now rewrite H. Qed.

(** A line feed closes the line it ends: what follows it is split on its
    own. *)
Lemma splitlines_app_LF (a r : str) :
  splitlines (a ++ LF :: r) = splitlines (a ++ [LF]) ++ splitlines r.
Proof.
  remember (List.length a) as n eqn:Hn.
  assert (Hle : List.length a <= n) by lia. clear Hn.
  revert a Hle. induction n as [|n IH]; intros a Hle.
  - destruct a; [|simpl in Hle; lia]. simpl app. now rewrite splitlines_LF.
  - destruct a as [|c a]; [simpl app; now rewrite splitlines_LF|].
    simpl in Hle. rewrite <- !app_comm_cons.
    destruct (is_linebreak c) eqn:Hc.
    + destruct a as [|d a].
      * simpl app. rewrite !splitlines_break by assumption.
        rewrite splitlines_LF. simpl. rewrite Hc.
        destruct (c =? CR)%N; reflexivity.
      * simpl in Hle. rewrite <- !app_comm_cons.
        rewrite !splitlines_break by assumption.
        destruct ((c =? CR)%N && (d =? LF)%N).
        -- rewrite (IH a) by lia. reflexivity.
        -- rewrite !app_comm_cons, (IH (d :: a)) by (simpl; lia).
           reflexivity.
    + rewrite !splitlines_plain by assumption.
      rewrite (IH a) by lia.
      destruct (splitlines (a ++ [LF])) eqn:E.
      * apply splitlines_nil in E. now destruct a.
      * reflexivity.
Qed.

Lemma splitlines_after_LF (b r : str) :
  endswith b [LF] = true ->
  splitlines (b ++ r) = splitlines b ++ splitlines r.
Proof.
  rewrite endswith_spec. intros [a ->].
  rewrite <- app_assoc. simpl. apply splitlines_app_LF.
Qed.

End StrFacts.

(** ** The frame decoder *)

Module DecoderFacts.

Import StrFacts Decoder ApiClient Shape.

Lemma terminator_ends_line (b : str) :
  endswith b terminator = true -> endswith b [LF] = true.
Proof.
  rewrite !endswith_spec. intros [a ->]. exists (a ++ [LF]).
  now rewrite <- app_assoc.
Qed.

Lemma lines_of_app (b r : str) :
  endswith b [LF] = true -> lines_of (b ++ r) = lines_of b ++ lines_of r.
Proof.
  intros H. unfold lines_of.
  now rewrite splitlines_after_LF, filter_app.
Qed.

Lemma frame_payloads_app (b r : str) :
  endswith b [LF] = true ->
  frame_payloads (b ++ r) = frame_payloads b ++ frame_payloads r.
Proof.
  intros H. unfold frame_payloads.
  now rewrite lines_of_app, filter_app, map_app.
Qed.

Lemma closed_tail (b r : str) :
  endswith b terminator = true -> closed (b ++ r) -> closed r.
Proof.
  intros Hb [H | [H | H]].
  - apply app_eq_nil in H. left. tauto.
  - apply endswith_spec in Hb. destruct Hb as [a ->].
    apply (f_equal (@List.length N)) in H.
    rewrite !length_app in H. simpl in H. lia.
  - unfold closed, endswith in *. rewrite rev_app_distr in H.
    destruct (rev r) as [|x [|y t]] eqn:E.
    + left. now rewrite <- (rev_involutive r), E.
    + right; left. change (rev terminator) with [LF; LF] in H.
      rewrite <- app_comm_cons, startswith_cons in H.
      apply andb_true_iff in H. destruct H as [H _].
      apply N.eqb_eq in H. subst x.
      now rewrite <- (rev_involutive r), E.
    + right; right. change (rev terminator) with [LF; LF] in *.
      rewrite <- !app_comm_cons in H. rewrite !startswith_cons in *.
      apply andb_true_iff in H. destruct H as [-> H].
      apply andb_true_iff in H. destruct H as [-> _]. reflexivity.
Qed.

Lemma text_of_cons (c : bytes) (cs : list bytes) :
  text_of (c :: cs) = chunk_text c ++ text_of cs.
Proof. reflexivity. Qed.

Lemma decode_cons (c : bytes) (cs : list bytes) (buf : str) :
  c <> [] ->
  decode (c :: cs) buf =
  match utf8_decode c with
  | None => decode cs buf
  | Some ch =>
      if endswith (buf ++ ch) terminator
      then frame_payloads (buf ++ ch) ++ decode cs []
      else decode cs (buf ++ ch)
  end.
Proof. destruct c; [congruence | reflexivity]. Qed.

(** Whatever the chunks, the decoder yields the payloads of the whole text
    as soon as that text is closed. *)
Lemma decode_total (cs : list bytes) :
  forall buf,
    endswith buf terminator = false ->
    closed (buf ++ text_of cs) ->
    decode cs buf = frame_payloads (buf ++ text_of cs).
Proof.
  induction cs as [|c cs IH]; intros buf Hbuf Hc.
  - unfold text_of in *. simpl in *. rewrite app_nil_r in *.
    destruct Hc as [-> | [-> | H]]; [reflexivity | reflexivity | congruence].
  - rewrite text_of_cons in *. unfold chunk_text in *.
    destruct c as [|b0 c'].
    + simpl in Hc |- *. now apply IH.
    + rewrite decode_cons by discriminate.
      destruct (utf8_decode (b0 :: c')) as [ch|] eqn:Hd.
      * rewrite app_assoc in *.
        destruct (endswith (buf ++ ch) terminator) eqn:He.
        -- rewrite (IH []); [| reflexivity | now apply closed_tail in Hc].
           simpl. symmetry. apply frame_payloads_app.
           now apply terminator_ends_line.
        -- now apply IH.
      * simpl in Hc |- *. now apply IH.
Qed.

Lemma utf8_decode_cons (b0 : byte) (r0 : bytes) :
  utf8_decode (b0 :: r0) =
      let n0 := Byte.to_N b0 in
      if (n0 <? 128)%N then option_map (cons n0) (utf8_decode r0)
      else
        match r0 with
        | [] => None
        | b1 :: r1 =>
            let n1 := Byte.to_N b1 in
            if in_range 194 223 n0 then
              if cont b1
              then option_map (cons ((n0 - 192) * 64 + low6 b1)%N)
                              (utf8_decode r1)
              else None
            else
              match r1 with
              | [] => None
              | b2 :: r2 =>
                  if in_range 224 239 n0 then
                    if (if (n0 =? 224)%N then in_range 160 191 n1
                        else if (n0 =? 237)%N then in_range 128 159 n1
                        else cont b1) && cont b2
                    then option_map
                           (cons ((n0 - 224) * 4096 + low6 b1 * 64
                                  + low6 b2)%N)
                           (utf8_decode r2)
                    else None
                  else
                    match r2 with
                    | [] => None
                    | b3 :: r3 =>
                        if in_range 240 244 n0 then
                          if (if (n0 =? 240)%N then in_range 144 191 n1
                              else if (n0 =? 244)%N then in_range 128 143 n1
                              else cont b1) && cont b2 && cont b3
                          then option_map
                                 (cons ((n0 - 240) * 262144 + low6 b1 * 4096
                                        + low6 b2 * 64 + low6 b3)%N)
                                 (utf8_decode r3)
                          else None
                        else None
                    end
              end
        end.
Proof. destruct r0 as [|b1 [|b2 [|b3 r3]]]; reflexivity. Qed.

Lemma option_map_Some {A B : Type} (f : A -> B) (o : option A) (y : B) :
  option_map f o = Some y -> exists x, o = Some x /\ y = f x.
Proof. destruct o as [x|]; [|discriminate]. intros H. injection H as <-. now exists x. Qed.

Lemma utf8_decode_app (a b : bytes) (ta tb : str) :
  utf8_decode a = Some ta -> utf8_decode b = Some tb ->
  utf8_decode (a ++ b) = Some (ta ++ tb).
Proof.
  intros Ha Hb.
  remember (List.length a) as n eqn:Hn.
  assert (Hle : List.length a <= n) by lia. clear Hn.
  revert a ta Ha Hle. induction n as [|n IH]; intros a ta Ha Hle.
  - destruct a; [|simpl in Hle; lia]. simpl in Ha. injection Ha as <-. exact Hb.
  - destruct a as [|b0 r0].
    { simpl in Ha. injection Ha as <-. exact Hb. }
    simpl in Hle. rewrite <- app_comm_cons.
    rewrite utf8_decode_cons in Ha |- *. cbv zeta in Ha |- *.
    destruct (Byte.to_N b0 <? 128)%N.
    { apply option_map_Some in Ha. destruct Ha as [t [Ht ->]].
      rewrite (IH r0 t Ht) by lia. reflexivity. }
    destruct r0 as [|b1 r1]; [discriminate Ha|].
    simpl in Hle. rewrite <- app_comm_cons.
    destruct (in_range 194 223 (Byte.to_N b0)).
    { destruct (cont b1); [|discriminate Ha].
      apply option_map_Some in Ha. destruct Ha as [t [Ht ->]].
      rewrite (IH r1 t Ht) by lia. reflexivity. }
    destruct r1 as [|b2 r2]; [discriminate Ha|].
    simpl in Hle. rewrite <- app_comm_cons.
    destruct (in_range 224 239 (Byte.to_N b0)).
    { match type of Ha with (if ?c then _ else _) = _ => destruct c end;
        [|discriminate Ha].
      apply option_map_Some in Ha. destruct Ha as [t [Ht ->]].
      rewrite (IH r2 t Ht) by lia. reflexivity. }
    destruct r2 as [|b3 r3]; [discriminate Ha|].
    simpl in Hle. rewrite <- app_comm_cons.
    destruct (in_range 240 244 (Byte.to_N b0)); [|discriminate Ha].
    match type of Ha with (if ?c then _ else _) = _ => destruct c end;
      [|discriminate Ha].
    apply option_map_Some in Ha. destruct Ha as [t [Ht ->]].
    rewrite (IH r3 t Ht) by lia. reflexivity.
Qed.

Lemma utf8_decode_ascii (bs : bytes) :
  forallb is_ascii bs = true -> utf8_decode bs = Some (ascii_text bs).
Proof.
  induction bs as [|b bs IH]; [reflexivity|]. simpl forallb.
  rewrite andb_true_iff. intros [Hb Hbs]. unfold is_ascii in Hb.
  simpl. now rewrite Hb, IH.
Qed.

(** Every way of cutting a stream of ASCII bytes gives chunks that decode
    on their own. *)
Lemma ascii_chunks_decodable (cs : list bytes) :
  forallb is_ascii (List.concat cs) = true -> Forall decodable cs.
Proof.
  induction cs as [|c cs IH]; [constructor|].
  simpl List.concat. rewrite forallb_app, andb_true_iff. intros [Hc Hcs].
  constructor; [|now apply IH].
  unfold decodable. now rewrite utf8_decode_ascii.
Qed.

(** Chunks that decode on their own add up to the text of the stream. *)
Lemma text_of_decodable (cs : list bytes) :
  Forall decodable cs -> utf8_decode (List.concat cs) = Some (text_of cs).
Proof.
  induction 1 as [|c cs Hc _ IH]; [reflexivity|].
  simpl List.concat. rewrite text_of_cons. unfold chunk_text.
  unfold decodable in Hc.
  destruct (utf8_decode c) as [t|] eqn:E; [|congruence].
  now apply utf8_decode_app.
Qed.


(** *** Streams of complete events *)

Lemma splitlines_line (l r : str) :
  plain_line l -> splitlines (l ++ LF :: r) = l :: splitlines r.
Proof.
  induction 1 as [|c l Hc _ IH].
  - apply splitlines_LF.
  - rewrite <- app_comm_cons, splitlines_plain, IH by assumption.
    reflexivity.
Qed.

Lemma splitlines_event (lines : list str) (r : str) :
  Forall plain_line lines ->
  splitlines (event_text lines ++ r) = lines ++ [] :: splitlines r.
Proof.
  intros H. unfold event_text.
  induction H as [|l ls Hl _ IH]; [apply splitlines_LF|].
  simpl. rewrite <- !app_assoc. simpl.
  rewrite splitlines_line by assumption.
  f_equal. rewrite <- IH. now rewrite <- !app_assoc.
Qed.

Lemma lstrip_nil (s : str) : lstrip s = [] -> forallb isspace s = true.
Proof.
  induction s as [|c s IH]; [reflexivity|]. simpl.
  destruct (isspace c); [assumption | discriminate].
Qed.

(** A line that carries a payload is never taken for a blank one. *)
Lemma data_line_not_blank (ln : str) :
  is_data ln = true -> negb (PyStr.eqb (strip ln) []) = true.
Proof.
  unfold is_data. rewrite startswith_spec. intros [r ->].
  destruct (strip (data_prefix ++ r)) as [|x t] eqn:E; [|reflexivity].
  exfalso. unfold strip, rstrip in E.
  assert (Hl : lstrip (data_prefix ++ r) = data_prefix ++ r) by reflexivity.
  rewrite Hl in E.
  apply (f_equal (@rev N)) in E. rewrite rev_involutive in E.
  apply lstrip_nil in E. rewrite forallb_forall in E.
  specialize (E 100%N). rewrite <- in_rev in E.
  assert (Hin : In 100%N (data_prefix ++ r)) by (left; reflexivity).
  specialize (E Hin). discriminate.
Qed.

Lemma filter_data_lines (ls : list str) :
  filter is_data
    (filter (fun ln => negb (PyStr.eqb (strip ln) [])) ls) =
  filter is_data ls.
Proof.
  induction ls as [|l ls IH]; [reflexivity|]. simpl.
  destruct (is_data l) eqn:Hd.
  - rewrite (data_line_not_blank _ Hd). simpl. now rewrite Hd, IH.
  - destruct (negb _); simpl; now rewrite ?Hd, IH.
Qed.

Lemma frame_payloads_event (lines : list str) (r : str) :
  Forall plain_line lines ->
  frame_payloads (event_text lines ++ r) =
  event_payloads lines ++ frame_payloads r.
Proof.
  intros H. unfold frame_payloads, event_payloads, lines_of.
  rewrite !filter_data_lines, splitlines_event by assumption.
  rewrite filter_app, map_app. reflexivity.
Qed.

Lemma frame_payloads_stream (evs : list (list str)) :
  Forall (Forall plain_line) evs ->
  frame_payloads (stream_text evs) = flat_map event_payloads evs.
Proof.
  unfold stream_text.
  induction 1 as [|e evs He _ IH]; [reflexivity|].
  simpl. now rewrite frame_payloads_event, IH.
Qed.

Lemma stream_text_closed (evs : list (list str)) :
  closed (stream_text evs).
Proof.
  unfold stream_text.
  induction evs as [|e evs IH] using rev_ind; [now left|].
  rewrite map_app, concat_app. simpl. rewrite app_nil_r.
  set (t := List.concat (map event_text evs)) in *.
  assert (Ht : t = [] \/ endswith t [LF] = true).
  { destruct IH as [-> | [-> | H]]; [now left | now right |].
    right. now apply terminator_ends_line. }
  unfold event_text.
  destruct e as [|l ls] using rev_ind.
  - simpl. destruct Ht as [-> | Ht]; [right; now left|].
    right; right. apply endswith_spec in Ht. destruct Ht as [a ->].
    apply endswith_spec. exists a. now rewrite <- app_assoc.
  - right; right. rewrite map_app, concat_app. simpl.
    apply endswith_spec.
    exists (t ++ List.concat (map (fun l0 => l0 ++ [LF]) ls) ++ l).
    rewrite app_nil_r, <- !app_assoc. reflexivity.
Qed.

(** Segmentation independence of the decoder: whatever the chunks, as long
    as each decodes on its own, a stream of complete events yields the
    payloads of its [data:] lines. *)
Lemma decode_stream (evs : list (list str)) (cs : list bytes) :
  Forall (Forall plain_line) evs ->
  utf8_decode (List.concat cs) = Some (stream_text evs) ->
  Forall decodable cs ->
  decode cs [] = flat_map event_payloads evs.
Proof.
  intros Hev Hcs Hd.
  assert (Ht : text_of cs = stream_text evs).
  { apply text_of_decodable in Hd. congruence. }
  rewrite decode_total; cbn [app]; rewrite ?Ht.
  - now apply frame_payloads_stream.
  - reflexivity.
  - apply stream_text_closed.
Qed.

Lemma flat_map_length_one {A B : Type} (f : A -> list B) (l : list A) :
  Forall (fun x => List.length (f x) = 1) l ->
  List.length (flat_map f l) = List.length l.
Proof.
  induction 1 as [|x l Hx _ IH]; [reflexivity|].
  simpl. rewrite length_app, Hx, IH. reflexivity.
Qed.

End DecoderFacts.

(** ** The loop body *)

Module BodyFacts.

Import Trace Decoder ApiClient Shape.

#[local] Arguments startswith : simpl never.
#[local] Arguments N.eqb : simpl never.

(** Where an element of [a ++ b] lies when it does not occur in [a]. *)
Lemma app_split_l {A : Type} (a b pre post : list A) (x : A) :
  a ++ b = pre ++ x :: post ->
  ~ In x a ->
  exists p, pre = a ++ p /\ b = p ++ x :: post.
Proof.
  revert pre. induction a as [|y a IH]; intros pre H Hn.
  - now exists pre.
  - destruct pre as [|z pre]; simpl in H; injection H as -> H.
    + elim Hn. now left.
    + destruct (IH pre H) as [p [-> ->]].
      * intros Hin. apply Hn. now right.
      * now exists p.
Qed.


Lemma loads_app (a b : list event) : loads (a ++ b) = loads a ++ loads b.
Proof.
  induction a as [|e a IH]; [reflexivity|].
  destruct e; simpl; now rewrite IH.
Qed.

Lemma invoked_app (a b : list event) :
  invoked (a ++ b) = invoked a ++ invoked b.
Proof.
  induction a as [|e a IH]; [reflexivity|].
  destruct e; simpl; now rewrite IH.
Qed.

Lemma delivered_app (a b : list event) :
  delivered (a ++ b) = delivered a ++ delivered b.
Proof.
  induction a as [|e a IH]; [reflexivity|].
  destruct e as [| | | |r [x|]| | |]; simpl; now rewrite IH.
Qed.

Lemma calls_app (a b : list event) : calls (a ++ b) = calls a ++ calls b.
Proof.
  induction a as [|e a IH]; [reflexivity|].
  destruct e; simpl; now rewrite IH.
Qed.


Section Body.

Variable lib : library.
Variable T : Type.
Variable on_event : TemperatureReading -> T -> T * option exn.

#[local] Abbreviation deliver := (deliver lib on_event).
#[local] Abbreviation for_lines := (for_lines lib on_event).
#[local] Abbreviation feed := (feed lib on_event).
#[local] Abbreviation parse_reading := (parse_reading lib).
#[local] Abbreviation mapped := (mapped lib).
#[local] Abbreviation escaped := (escaped on_event).
#[local] Abbreviation sound := (sound lib).

Lemma mapped_app (a b : list str) : mapped (a ++ b) = mapped a ++ mapped b.
Proof.
  induction a as [|p a IH]; [reflexivity|].
  simpl. destruct (parse_reading p); simpl; now rewrite IH.
Qed.

Lemma sound_nil : sound [] 0.
Proof. now split. Qed.

Lemma sound_app (a b : list event) (j k : Z) :
  sound a j -> sound b k -> sound (a ++ b) (j + k).
Proof.
  intros [A1 A2 A3] [B1 B2 B3]. split.
  - now rewrite forallb_app, A1, B1.
  - now rewrite invoked_app, loads_app, mapped_app, A2, B2.
  - rewrite delivered_app, length_app. lia.
Qed.

Lemma deliver_sound (p : str) (s : T) :
  let '(ev, _, k, _) := deliver p s in sound ev k /\ loads ev = [p].
Proof.
  unfold deliver, ApiClient.deliver.
  destruct (parse_reading p) as [r|] eqn:E.
  - destruct (on_event r s) as [s' [e|]];
      (split; [split|]; simpl; rewrite ?E; reflexivity).
  - split; [split|]; simpl; rewrite ?E; reflexivity.
Qed.

Lemma deliver_escape (p : str) (s s' : T) (ev : list event) (k : Z)
      (e : exn) :
  deliver p s = (ev, s', k, Some e) ->
  is_Exception e = false /\
  exists r, parse_reading p = Some r /\ on_event r s = (s', Some e).
Proof.
  unfold deliver, ApiClient.deliver.
  destruct (parse_reading p) as [r|]; [|discriminate].
  destruct (on_event r s) as [s1 [e1|]] eqn:E; [|discriminate].
  destruct (is_Exception e1) eqn:He; [discriminate|].
  intros H. injection H as <- <- <- <-. split; [assumption|].
  now exists r.
Qed.

Lemma for_lines_cons (ln : str) (rest : list str) (s : T) :
  for_lines (ln :: rest) s =
  if is_data ln then
    let '(ev, s1, k, x) := deliver (payload_of ln) s in
    match x with
    | Some e => (ev, s1, k, Some e)
    | None =>
        let '(ev', s2, k', x') := for_lines rest s1 in
        (ev ++ ev', s2, (k + k')%Z, x')
    end
  else for_lines rest s.
Proof. reflexivity. Qed.

(** Why a payload maps to no reading: it is no JSON text, or the decoded
    value has no [temperature] entry, or that entry converts to no float,
    or the value has no [timestamp] entry. *)
Lemma parse_reading_None (p : str) :
  parse_reading p = None <->
  json_loads lib p = None
  \/ exists obj,
       json_loads lib p = Some obj /\
       (getitem obj key_temperature = None
        \/ (exists v, getitem obj key_temperature = Some v /\
                      to_float lib v = None)
        \/ getitem obj key_timestamp = None).
Proof.
  unfold parse_reading, ApiClient.parse_reading.
  destruct (json_loads lib p) as [obj|]; [|intuition].
  destruct (getitem obj key_temperature) as [v|] eqn:Ht.
  - destruct (to_float lib v) as [t|] eqn:Hf.
    + destruct (getitem obj key_timestamp) as [ts|] eqn:Hs.
      * split; [discriminate|].
        intros [H | [o [Ho [H | [[v' [Hv H]] | H]]]]]; try discriminate;
          injection Ho as <-; congruence.
      * split; [|reflexivity]. intros _. right. exists obj. intuition.
    + split; [|reflexivity]. intros _. right. exists obj.
      split; [reflexivity|]. right; left. now exists v.
  - split; [|reflexivity]. intros _. right. exists obj. intuition.
Qed.


Lemma deliver_unmapped (p : str) (s : T) :
  parse_reading p = None -> deliver p s = ([Loads p], s, 0%Z, None).
Proof.
  intros H. unfold deliver, ApiClient.deliver. now rewrite H.
Qed.

(** A line whose payload maps to no reading leaves the other lines as they
    would be without it. *)
Lemma for_lines_drop (ln : str) (front back : list str) :
  is_data ln = true ->
  parse_reading (payload_of ln) = None ->
  forall s,
  exists ev1 ev2 s' k x,
    for_lines (front ++ ln :: back) s = (ev1, s', k, x) /\
    for_lines (front ++ back) s = (ev2, s', k, x) /\
    calls ev1 = calls ev2.
Proof.
  intros Hd Hp. induction front as [|l front IH]; intros s.
  - simpl app. rewrite for_lines_cons, Hd, (deliver_unmapped _ s Hp).
    destruct (for_lines back s) as [[[ev s'] k] x].
    now exists ([Loads (payload_of ln)] ++ ev), ev, s', k, x.
  - rewrite <- !app_comm_cons, !for_lines_cons.
    destruct (is_data l); [|apply IH].
    destruct (deliver (payload_of l) s) as [[[ev0 s0] k0] [e|]].
    + now exists ev0, ev0, s0, k0, (Some e).
    + destruct (IH s0) as [ev1 [ev2 [s' [k [x [H1 [H2 H3]]]]]]].
      rewrite H1, H2.
      exists (ev0 ++ ev1), (ev0 ++ ev2), s', (k0 + k)%Z, x.
      now rewrite !calls_app, H3.
Qed.

Lemma for_lines_all_unmapped (lines : list str) (s : T) :
  (forall ln, In ln lines -> is_data ln = true ->
              parse_reading (payload_of ln) = None) ->
  for_lines lines s =
  (map Loads (map payload_of (filter is_data lines)), s, 0%Z, None).
Proof.
  induction lines as [|ln rest IH]; intros H; [reflexivity|].
  rewrite for_lines_cons. simpl filter.
  destruct (is_data ln) eqn:Hd.
  - rewrite (deliver_unmapped _ s) by (apply H; [now left | assumption]).
    rewrite IH by (intros l Hl; apply H; now right). reflexivity.
  - apply IH. intros l Hl. apply H. now right.
Qed.

Lemma for_lines_sound (lines : list str) :
  forall s, let '(ev, _, k, _) := for_lines lines s in sound ev k.
Proof.
  induction lines as [|ln rest IH]; intros s; simpl.
  - apply sound_nil.
  - destruct (startswith ln data_prefix); [|apply IH].
    pose proof (deliver_sound (payload_of ln) s) as Hd.
    destruct (deliver (payload_of ln) s) as [[[ev s1] k] [e|]].
    + apply Hd.
    + specialize (IH s1).
      destruct (for_lines rest s1) as [[[ev' s2] k'] x'].
      now apply sound_app.
Qed.

Lemma for_lines_escape (lines : list str) :
  forall s ev s' k e,
    for_lines lines s = (ev, s', k, Some e) -> escaped e.
Proof.
  induction lines as [|ln rest IH]; intros s ev s' k e; simpl.
  - discriminate.
  - destruct (startswith ln data_prefix); [|apply IH].
    destruct (deliver (payload_of ln) s) as [[[ev1 s1] k1] [e1|]] eqn:Hd.
    + intros H. injection H as <- <- <- <-.
      apply deliver_escape in Hd. destruct Hd as [He [r [_ Hr]]].
      split; [assumption|]. now exists r, s, s1.
    + destruct (for_lines rest s1) as [[[ev' s2] k'] x'] eqn:Hr.
      intros H. injection H as <- <- <- ->. eapply IH, Hr.
Qed.

(** Without an escaping exception the lines hand all their payloads to the
    event mapper. *)
Lemma for_lines_loads (lines : list str) :
  forall s ev s' k,
    for_lines lines s = (ev, s', k, None) ->
    loads ev = map payload_of (filter is_data lines).
Proof.
  induction lines as [|ln rest IH]; intros s ev s' k; simpl.
  - intros H. now injection H as <- <- <-.
  - unfold is_data at 1. destruct (startswith ln data_prefix); [|apply IH].
    pose proof (deliver_sound (payload_of ln) s) as Hd.
    destruct (deliver (payload_of ln) s) as [[[ev1 s1] k1] [e1|]];
      [discriminate|].
    destruct (for_lines rest s1) as [[[ev' s2] k'] x'] eqn:Hr.
    intros H. injection H as <- <- <- ->.
    rewrite loads_app, (proj2 Hd). simpl. f_equal. eapply IH, Hr.
Qed.

Lemma feed_sound (c : bytes) (buf : str) (s : T) :
  let '(ev, _, _, k, _) := feed c buf s in sound ev k.
Proof.
  unfold feed, ApiClient.feed.
  destruct c as [|b c]; [apply sound_nil|].
  destruct (utf8_decode (b :: c)) as [ch|]; [|apply sound_nil].
  destruct (endswith (buf ++ ch) terminator); [|apply sound_nil].
  pose proof (for_lines_sound (lines_of (buf ++ ch)) s) as H.
  destruct (for_lines (lines_of (buf ++ ch)) s) as [[[ev s'] k] [e|]];
    exact H.
Qed.

Lemma feed_escape (c : bytes) (buf buf' : str) (s s' : T)
      (ev : list event) (k : Z) (e : exn) :
  feed c buf s = (ev, buf', s', k, Escape e) -> escaped e.
Proof.
  unfold feed, ApiClient.feed.
  destruct c as [|b c]; [discriminate|].
  destruct (utf8_decode (b :: c)) as [ch|]; [|discriminate].
  destruct (endswith (buf ++ ch) terminator); [|discriminate].
  destruct (for_lines (lines_of (buf ++ ch)) s) as [[[ev1 s1] k1] [e1|]] eqn:E;
    [|discriminate].
  intros H. injection H as <- <- <- <- <-.
  eapply for_lines_escape, E.
Qed.

Lemma escaped_not_Exception (e : exn) :
  raises_only_Exception on_event -> ~ escaped e.
Proof.
  intros Hq [He [r [s [s' H]]]].
  specialize (Hq r s e). rewrite H in Hq. simpl in Hq.
  rewrite Hq in He by reflexivity. discriminate.
Qed.

Lemma feed_quiet (c : bytes) (buf buf' : str) (s s' : T)
      (ev : list event) (k : Z) (how : step) :
  raises_only_Exception on_event ->
  feed c buf s = (ev, buf', s', k, how) ->
  forall e, how <> Escape e.
Proof.
  intros Hq H e ->. apply feed_escape in H.
  now apply (escaped_not_Exception _ Hq) in H.
Qed.


(** One step of the loop is one step of the decoder. *)
Lemma feed_decode (c : bytes) (cs : list bytes) (buf buf' : str) (s s' : T)
      (ev : list event) (k : Z) (how : step) :
  feed c buf s = (ev, buf', s', k, how) ->
  (forall e, how <> Escape e) ->
  decode (c :: cs) buf = loads ev ++ decode cs buf'.
Proof.
  unfold feed, ApiClient.feed.
  destruct c as [|b c].
  - intros H _. now injection H as <- <- <- <- <-.
  - rewrite DecoderFacts.decode_cons by discriminate.
    destruct (utf8_decode (b :: c)) as [ch|].
    + destruct (endswith (buf ++ ch) terminator).
      * destruct (for_lines (lines_of (buf ++ ch)) s)
          as [[[ev1 s1] k1] [e1|]] eqn:E.
        -- intros H Hne. injection H as <- <- <- <- <-. now elim (Hne e1).
        -- intros H _. injection H as <- <- <- <- <-.
           now rewrite (for_lines_loads _ _ _ _ _ E).
      * intros H _. now injection H as <- <- <- <- <-.
    + intros H _. now injection H as <- <- <- <- <-.
Qed.

End Body.

End BodyFacts.

(** ** The chunk loops *)

Module LoopFacts.

Import Trace Decoder ApiClient BodyFacts Shape.

Section Loops.

Variable lib : library.
Variable T : Type.
Variable on_event : TemperatureReading -> T -> T * option exn.
Variable w : world.

#[local] Abbreviation state := (state T).
#[local] Abbreviation feed := (feed lib on_event).
#[local] Abbreviation stream_chunks := (stream_chunks lib on_event w).
#[local] Abbreviation forever_chunks := (forever_chunks lib on_event w).
#[local] Abbreviation forever_session := (forever_session lib on_event w).
#[local] Abbreviation stream_forever := (stream_forever lib on_event w).
#[local] Abbreviation stream := (stream lib on_event w).
#[local] Abbreviation result := (list event * state * outcome)%type.
#[local] Abbreviation mapped := (mapped lib).
#[local] Abbreviation never_set := (never_set w).

Lemma after_events (a : list event) (r : result) :
  events_of (after a r) = a ++ events_of r.
Proof. now destruct r as [[ev st] out]. Qed.

Lemma after_state (a : list event) (r : result) :
  state_of (after a r) = state_of r.
Proof. now destruct r as [[ev st] out]. Qed.

Lemma after_outcome (a : list event) (r : result) :
  outcome_of (after a r) = outcome_of r.
Proof. now destruct r as [[ev st] out]. Qed.

Lemma after_after (a b : list event) (r : result) :
  after a (after b r) = after (a ++ b) r.
Proof. destruct r as [[ev st] out]. simpl. now rewrite app_assoc. Qed.

Lemma advance_body_of (c : bytes) (cs : list bytes) (last : item) :
  advance (body_of (c :: cs) last) = body_of cs last.
Proof. reflexivity. Qed.

(** One turn of the loop of [stream] on a chunk. *)
Lemma stream_chunks_step (fuel : nat) (stop_after : option Z)
      (timeout : option float) (start : float) (body : nat -> item)
      (st : state) (c : bytes) :
  body 0 = Chunk c ->
  stream_chunks (S fuel) stop_after timeout start body st =
  let '(ev, buf, s, k, how) := feed c (buffer st) (cb st) in
  let st1 := fed st buf s k in
  let again st' :=
    stream_chunks fuel stop_after timeout start (advance body) st' in
  after (Recv c :: ev)
    match how with
    | Escape e => ([], st1, Raise e)
    | Continue => again st1
    | Through =>
        if count_reached stop_after (event_count st1)
        then ([], st1, Normal)
        else
          match has_timeout timeout with
          | None => again st1
          | Some t =>
              let now := time w (ticks st1) in
              let st2 := ticked st1 in
              after [Time now]
                (if float_ge (float_sub now start) t
                 then ([], st2, Normal)
                 else again st2)
          end
    end.
Proof. intros H. simpl. now rewrite H. Qed.

(** One turn of the loop of [stream_forever] on a chunk. *)
Lemma forever_chunks_step (fuel : nat) (body : nat -> item) (st : state)
      (c : bytes) :
  body 0 = Chunk c ->
  forever_chunks (S fuel) body st =
  let stop := is_set w (checks st) in
  let st0 := checked st in
  after [Recv c; IsSet ChunkHead stop]
    (if stop then ([], st0, Normal)
     else
       let '(ev, buf, s, k, how) := feed c (buffer st0) (cb st0) in
       let st1 := with_count (fed st0 buf s k) (event_count st0) in
       after ev
         match how with
         | Escape e => ([], st1, Raise e)
         | Continue | Through => forever_chunks fuel (advance body) st1
         end).
Proof. intros H. simpl. now rewrite H. Qed.

(** Without limits and on a body that ends, [stream] hands the event mapper
    what the decoder extracts. *)
Lemma stream_chunks_decode (cs : list bytes) :
  raises_only_Exception on_event ->
  forall fuel start st,
    List.length cs < fuel ->
    let r := stream_chunks fuel None None start (body_of cs EOF) st in
    loads (events_of r) = decode cs (buffer st) /\ outcome_of r = Normal.
Proof.
  intros Hq. induction cs as [|c cs IH]; intros fuel start st Hf;
    (destruct fuel as [|fuel]; [simpl in Hf; lia|]).
  - split; reflexivity.
  - simpl in Hf. rewrite (@stream_chunks_step _ _ _ _ _ _ c) by reflexivity.
    destruct (feed c (buffer st) (cb st)) as [[[[ev buf] s] k] how] eqn:E.
    rewrite advance_body_of.
    assert (Hne : forall e, how <> Escape e)
      by (eapply feed_quiet; eassumption).
    rewrite (@feed_decode lib T on_event c cs _ _ _ _ _ _ _ E Hne).
    cbv zeta. rewrite after_events, after_outcome.
    specialize (IH fuel start (fed st buf s k) ltac:(lia)).
    cbv zeta in IH. simpl loads. rewrite loads_app.
    destruct how as [| |e]; [| |now elim (Hne e)]; simpl;
      destruct IH as [IH1 IH2]; now rewrite IH1.
Qed.

Lemma forever_chunks_decode (cs : list bytes) :
  raises_only_Exception on_event ->
  never_set ->
  forall fuel st,
    List.length cs < fuel ->
    let r := forever_chunks fuel (body_of cs EOF) st in
    loads (events_of r) = decode cs (buffer st) /\ outcome_of r = Normal.
Proof.
  intros Hq Hs. induction cs as [|c cs IH]; intros fuel st Hf;
    (destruct fuel as [|fuel]; [simpl in Hf; lia|]).
  - split; reflexivity.
  - simpl in Hf. rewrite (@forever_chunks_step _ _ _ c) by reflexivity.
    cbv zeta. rewrite Hs.
    change (buffer (checked st)) with (buffer st).
    change (cb (checked st)) with (cb st).
    destruct (feed c (buffer st) (cb st)) as [[[[ev buf] s] k] how] eqn:E.
    rewrite advance_body_of.
    assert (Hne : forall e, how <> Escape e)
      by (eapply feed_quiet; eassumption).
    rewrite (@feed_decode lib T on_event c cs _ _ _ _ _ _ _ E Hne).
    cbv zeta. rewrite !after_events, !after_outcome.
    set (st1 := with_count (fed (checked st) buf s k) _).
    specialize (IH fuel st1 ltac:(lia)).
    cbv zeta in IH. simpl loads. rewrite loads_app.
    destruct how as [| |e]; [| |now elim (Hne e)]; simpl;
      destruct IH as [IH1 IH2]; now rewrite IH1.
Qed.


(** *** Invariants of [stream] *)

(** Every parsed payload is handed to the callback exactly once, and
    [event_count] counts the calls that returned. *)
Lemma stream_chunks_counts (fuel : nat) :
  forall stop_after timeout start body st,
    let r := stream_chunks fuel stop_after timeout start body st in
    invoked (events_of r) = mapped (loads (events_of r)) /\
    event_count (state_of r) =
    (event_count st + Z.of_nat (List.length (delivered (events_of r))))%Z.
Proof.
  induction fuel as [|fuel IH]; intros stop_after timeout start body st.
  - cbv zeta. unfold events_of, state_of. simpl. split; [reflexivity | lia].
  - destruct (body 0) as [c| |e] eqn:Hb;
      [| cbv zeta; unfold events_of, state_of; simpl; rewrite Hb; simpl;
         split; [reflexivity | lia] ..].
    rewrite (@stream_chunks_step _ _ _ _ _ _ c) by assumption.
    pose proof (feed_sound lib T on_event c (buffer st) (cb st)) as Hs.
    destruct (feed c (buffer st) (cb st)) as [[[[ev buf] s] k] how].
    destruct Hs as [Hs1 Hs2 Hs3]. cbv zeta.
    set (st1 := fed st buf s k).
    assert (Hc : event_count st1 = (event_count st + k)%Z) by reflexivity.
    pose proof (IH stop_after timeout start (advance body) st1) as IH1.
    pose proof (IH stop_after timeout start (advance body) (ticked st1))
      as IH2.
    cbv zeta in IH1, IH2.
    change (event_count (ticked st1)) with (event_count st1) in IH2.
    assert (Hstop : forall st' : state,
               event_count st' = event_count st1 ->
               let r := after (Recv c :: ev) ([], st', Normal) in
               invoked (events_of r) = mapped (loads (events_of r)) /\
               event_count (state_of r) =
               (event_count st
                + Z.of_nat (List.length (delivered (events_of r))))%Z).
    { intros st' Hst'. simpl. rewrite !app_nil_r. split; [assumption|].
      unfold state_of. simpl. lia. }
    assert (Hgo : forall r' : result,
               invoked (events_of r') = mapped (loads (events_of r')) ->
               event_count (state_of r') =
               (event_count st1
                + Z.of_nat (List.length (delivered (events_of r'))))%Z ->
               let r := after (Recv c :: ev) r' in
               invoked (events_of r) = mapped (loads (events_of r)) /\
               event_count (state_of r) =
               (event_count st
                + Z.of_nat (List.length (delivered (events_of r))))%Z).
    { intros r' H1 H2. cbv zeta.
      rewrite after_events, after_state. simpl.
      rewrite invoked_app, loads_app, delivered_app, mapped_app, length_app.
      rewrite Hs2, H1. split; [reflexivity | lia]. }
    destruct how as [| |e].
    + apply Hgo; apply IH1.
    + destruct (count_reached stop_after (event_count st1));
        [now apply Hstop|].
      destruct (has_timeout timeout) as [t|]; [|apply Hgo; apply IH1].
      destruct (float_ge _ t).
      * apply Hgo; [reflexivity | simpl; lia].
      * apply Hgo; rewrite ?after_events, ?after_state; simpl; apply IH2.
    + apply Hgo; [reflexivity | simpl; lia].
Qed.


(** [stream] on a connection that is accepted. *)
Lemma stream_accepted (fuel : nat) (stop_after : option Z)
      (timeout : option float) (st : state) (code : Z) (body : nat -> item) :
  get w (gets st) = Response code body ->
  raise_for_status code = false ->
  stream fuel stop_after timeout st =
  after [Get; Time (time w (ticks st))]
    (stream_chunks fuel stop_after timeout (time w (ticks st)) body
       (with_buffer (ticked (with_count (got st) 0)) [])).
Proof.
  intros Hg Hc. unfold stream, ApiClient.stream. rewrite Hg, Hc.
  cbv zeta. now rewrite after_after.
Qed.

Lemma stream_counts (fuel : nat) (stop_after : option Z)
      (timeout : option float) (st : state) (code : Z) (body : nat -> item) :
  get w (gets st) = Response code body ->
  raise_for_status code = false ->
  let r := stream fuel stop_after timeout st in
  invoked (events_of r) = mapped (loads (events_of r)) /\
  event_count (state_of r) =
  Z.of_nat (List.length (delivered (events_of r))).
Proof.
  intros Hg Hc. cbv zeta. erewrite stream_accepted by eassumption.
  rewrite after_events, after_state.
  destruct (stream_chunks_counts fuel stop_after timeout (time w (ticks st))
              body (with_buffer (ticked (with_count (got st) 0)) []))
    as [H1 H2].
  split; [exact H1 | exact H2].
Qed.

Lemma stream_decode (cs : list bytes) (fuel : nat) (st : state) (code : Z) :
  raises_only_Exception on_event ->
  get w (gets st) = Response code (body_of cs EOF) ->
  raise_for_status code = false ->
  List.length cs < fuel ->
  let r := stream fuel None None st in
  loads (events_of r) = decode cs [] /\ outcome_of r = Normal.
Proof.
  intros Hq Hg Hc Hf. cbv zeta. erewrite stream_accepted by eassumption.
  rewrite after_events, after_outcome.
  now apply stream_chunks_decode.
Qed.

Lemma forever_session_decode (cs : list bytes) (fuel : nat) (st : state)
      (code : Z) :
  raises_only_Exception on_event ->
  never_set ->
  get w (gets st) = Response code (body_of cs EOF) ->
  raise_for_status code = false ->
  List.length cs < fuel ->
  let r := forever_session fuel st in
  loads (events_of r) = decode cs [] /\ outcome_of r = Normal.
Proof.
  intros Hq Hn Hg Hc Hf. cbv zeta.
  unfold forever_session, ApiClient.forever_session. rewrite Hg, Hc.
  rewrite after_events, after_outcome.
  now apply forever_chunks_decode.
Qed.


(** *** The limits of [stream] *)








End Loops.

End LoopFacts.

(** ** Comparisons of floats *)

Module FloatFacts.

Lemma compare_cont_Eq (p q : positive) :
  Pos.compare_cont Eq p q = Pos.compare p q.
Proof. reflexivity. Qed.

(** Swapping the operands of a comparison reverses its result. *)
Lemma SFcompare_swap (a b : float) (c : comparison) :
  SFcompare a b = Some c -> SFcompare b a = Some (CompOpp c).
Proof.
  destruct a as [sa|sa| |sa ma ea], b as [sb|sb| |sb mb eb]; simpl;
    try discriminate;
    try (intros H; injection H as <-;
         repeat match goal with s : bool |- _ => destruct s end;
         reflexivity).
  intros H. injection H as <-. rewrite !compare_cont_Eq.
  rewrite (Z.compare_antisym ea eb), (Pos.compare_antisym ma mb).
  destruct sa, sb; try reflexivity;
    destruct (ea ?= eb)%Z; simpl; try reflexivity;
    destruct (ma ?= mb)%positive; reflexivity.
Qed.

(** Two floats that compare equal compare alike with every third one. *)
Lemma SFcompare_eq_l (x y z : float) :
  SFcompare x y = Some Eq -> SFcompare x z = SFcompare y z.
Proof.
  destruct x as [sx|sx| |sx mx ex], y as [sy|sy| |sy my ey]; simpl;
    try discriminate;
    try (destruct sx, sy; try discriminate; reflexivity);
    try (destruct sx; discriminate);
    try (destruct sy; discriminate).
  rewrite !compare_cont_Eq. intros H.
  assert (sx = sy /\ ex = ey /\ mx = my) as [-> [-> ->]]; [|reflexivity].
  destruct sx, sy; try discriminate;
    destruct (ex ?= ey)%Z eqn:He; try discriminate;
    destruct (mx ?= my)%positive eqn:Hm; try discriminate;
    apply Z.compare_eq in He; apply Pos.compare_eq in Hm; now subst.
Qed.



End FloatFacts.

(** ** The supervisor *)

Module SupervisorFacts.

Import Trace Decoder ApiClient BodyFacts LoopFacts Shape.

#[local] Arguments startswith : simpl never.
#[local] Arguments N.eqb : simpl never.

Lemma mapping_chunk_event (ev : list event) :
  forallb is_mapping ev = true -> forallb chunk_event ev = true.
Proof.
  induction ev as [|e ev IH]; [reflexivity|]. simpl.
  rewrite !andb_true_iff. intros [He Hev]. split; [|now apply IH].
  now destruct e.
Qed.

Lemma chunk_session_event (ev : list event) :
  forallb chunk_event ev = true -> forallb session_event ev = true.
Proof.
  induction ev as [|e ev IH]; [reflexivity|]. simpl.
  rewrite !andb_true_iff. intros [He Hev]. split; [|now apply IH].
  now destruct e.
Qed.

Lemma not_in_events (p : event -> bool) (ev : list event) (x : event) :
  forallb p ev = true -> p x = false -> ~ In x ev.
Proof.
  rewrite forallb_forall. intros H Hx Hin. apply H in Hin. congruence.
Qed.

Section Supervisor.

Variable lib : library.
Variable T : Type.
Variable on_event : TemperatureReading -> T -> T * option exn.
Variable w : world.

#[local] Abbreviation state := (state T).
#[local] Abbreviation feed := (feed lib on_event).
#[local] Abbreviation forever_chunks := (forever_chunks lib on_event w).
#[local] Abbreviation forever_session := (forever_session lib on_event w).
#[local] Abbreviation stream_forever := (stream_forever lib on_event w).
#[local] Abbreviation result := (list event * state * outcome)%type.

(** One turn of the [while] loop. *)
Lemma stream_forever_step (fuel : nat) (st : state) :
  stream_forever (S fuel) st =
  let stop := is_set w (checks st) in
  let st0 := checked st in
  after [IsSet LoopHead stop]
    (if stop then ([], st0, Normal)
     else
       let '(ev, st1, out) := forever_session fuel st0 in
       after ev
         match out with
         | Normal => stream_forever fuel st1
         | OutOfFuel => ([], st1, OutOfFuel)
         | Raise e =>
             if is_RequestException e then
               let stop' := is_set w (checks st1) in
               let st2 := checked st1 in
               after [Caught e; IsSet Handler stop']
                 (if stop' then ([], st2, Normal)
                  else after [Sleep 1] (stream_forever fuel st2))
             else ([], st1, Raise e)
         end).
Proof. reflexivity. Qed.

(** *** The chunk loop *)

Lemma forever_chunks_events (fuel : nat) :
  forall body st,
    forallb chunk_event (events_of (forever_chunks fuel body st)) = true.
Proof.
  induction fuel as [|fuel IH]; intros body st; [reflexivity|].
  destruct (body 0) as [c| |e] eqn:Hb; [| simpl; now rewrite Hb ..].
  rewrite (forever_chunks_step lib T on_event w fuel body st c Hb).
  cbv zeta. rewrite after_events.
  destruct (is_set w (checks st)); [reflexivity|].
  pose proof (feed_sound lib T on_event c (buffer (checked st))
                (cb (checked st))) as Hs.
  destruct (feed c (buffer (checked st)) (cb (checked st)))
    as [[[[ev buf] s] k] how].
  destruct Hs as [Hs1 _ _]. rewrite after_events.
  cbn [app forallb chunk_event andb]. rewrite forallb_app.
  rewrite (mapping_chunk_event ev Hs1).
  destruct how; try apply IH. reflexivity.
Qed.

Lemma forever_chunks_checks (fuel : nat) :
  forall body st,
    checks st <= checks (state_of (forever_chunks fuel body st))
    /\ gets (state_of (forever_chunks fuel body st)) = gets st.
Proof.
  induction fuel as [|fuel IH]; intros body st; [now split|].
  destruct (body 0) as [c| |e] eqn:Hb; [| simpl; rewrite Hb; now split ..].
  rewrite (forever_chunks_step lib T on_event w fuel body st c Hb).
  cbv zeta. rewrite after_state.
  destruct (is_set w (checks st)); [simpl; split; [lia | reflexivity]|].
  destruct (feed c (buffer (checked st)) (cb (checked st)))
    as [[[[ev buf] s] k] how].
  rewrite after_state.
  set (st1 := with_count _ _).
  assert (H1 : checks st1 = S (checks st)) by reflexivity.
  assert (H2 : gets st1 = gets st) by reflexivity.
  destruct how as [| |e];
    try (destruct (IH (advance body) st1) as [IH1 IH2]; split;
         [lia | congruence]).
  simpl. split; [lia | reflexivity].
Qed.

(** A set flag is the last thing the chunk loop sees. *)
Lemma forever_chunks_stop (fuel : nat) :
  forall body st pre s post,
    events_of (forever_chunks fuel body st) = pre ++ IsSet s true :: post ->
    post = []
    /\ outcome_of (forever_chunks fuel body st) = Normal
    /\ exists i,
        checks (state_of (forever_chunks fuel body st)) = S i
        /\ is_set w i = true.
Proof.
  induction fuel as [|fuel IH]; intros body st pre s0 post; [ended pre|].
  destruct (body 0) as [c| |e] eqn:Hb; [| simpl; rewrite Hb; ended pre ..].
  rewrite (forever_chunks_step lib T on_event w fuel body st c Hb).
  cbv zeta. rewrite after_events, after_state, after_outcome.
  destruct (is_set w (checks st)) eqn:Hs.
  - intros H. destruct pre as [|x [|y pre]]; cbn [app] in H;
      try discriminate H.
    + injection H as _ _ <-. repeat split. now exists (checks st).
    + injection H as _ _ H. unfold events_of in H. simpl in H.
      destruct pre; discriminate H.
  - pose proof (feed_sound lib T on_event c (buffer (checked st))
                  (cb (checked st))) as Hf.
    destruct (feed c (buffer (checked st)) (cb (checked st)))
      as [[[[ev buf] s] k] how].
    destruct Hf as [Hf1 _ _].
    rewrite after_events, after_state, after_outcome.
    set (st1 := with_count _ _).
    intros H.
    apply (app_split_l [Recv c; IsSet ChunkHead false]) in H;
      [|intros [X | [X | []]]; discriminate X].
    destruct H as [p [-> H]].
    apply app_split_l in H;
      [|now apply (not_in_events is_mapping)].
    destruct H as [q [-> H]]. revert H.
    destruct how as [| |e]; try (intros H; now apply IH in H).
    ended q.
Qed.

Lemma recv_first_or_later (c c0 : bytes) (b : bool) (rest pre post : list event) :
  [Recv c; IsSet ChunkHead b] ++ rest = pre ++ Recv c0 :: post ->
  (pre = [] /\ post = IsSet ChunkHead b :: rest)
  \/ exists p, pre = [Recv c; IsSet ChunkHead b] ++ p
               /\ rest = p ++ Recv c0 :: post.
Proof.
  intros H. destruct pre as [|x [|y p]]; cbn [app] in H.
  - injection H as _ <-. now left.
  - discriminate H.
  - injection H as <- <- H. right. now exists p.
Qed.

(** Every chunk received is followed by a question for the stop flag. *)
Lemma forever_chunks_asks (fuel : nat) :
  forall body st pre c post,
    events_of (forever_chunks fuel body st) = pre ++ Recv c :: post ->
    exists b post', post = IsSet ChunkHead b :: post'.
Proof.
  induction fuel as [|fuel IH]; intros body st pre c0 post; [ended pre|].
  destruct (body 0) as [c| |e] eqn:Hb; [| simpl; rewrite Hb; ended pre ..].
  rewrite (forever_chunks_step lib T on_event w fuel body st c Hb).
  cbv zeta. rewrite after_events.
  intros H. apply recv_first_or_later in H.
  destruct H as [[-> ->] | [p [-> H]]]; [now eexists _, _|].
  revert H.
  destruct (is_set w (checks st)); [ended p|].
  pose proof (feed_sound lib T on_event c (buffer (checked st))
                (cb (checked st))) as Hf.
  destruct (feed c (buffer (checked st)) (cb (checked st)))
    as [[[[ev buf] s] k] how].
  destruct Hf as [Hf1 _ _].
  rewrite after_events. intros H.
  apply app_split_l in H; [|now apply (not_in_events is_mapping)].
  destruct H as [q [-> H]]. revert H.
  destruct how as [| |e]; try (intros H; now apply IH in H).
  ended q.
Qed.

(** *** One session *)

Lemma forever_session_events (fuel : nat) (st : state) :
  exists ev,
    events_of (forever_session fuel st) = Get :: ev
    /\ forallb chunk_event ev = true.
Proof.
  unfold forever_session, ApiClient.forever_session.
  rewrite after_events.
  destruct (get w (gets st)) as [e|code body]; [now exists []|].
  destruct (raise_for_status code); [now exists []|].
  eexists. split; [reflexivity|]. apply forever_chunks_events.
Qed.

Lemma forever_session_checks (fuel : nat) (st : state) :
  checks st <= checks (state_of (forever_session fuel st))
  /\ gets (state_of (forever_session fuel st)) = S (gets st).
Proof.
  unfold forever_session, ApiClient.forever_session.
  rewrite after_state.
  destruct (get w (gets st)) as [e|code body]; [now split|].
  destruct (raise_for_status code); [now split|].
  apply (forever_chunks_checks fuel body (with_buffer (got st) [])).
Qed.

Lemma forever_session_stop (fuel : nat) (st : state) pre s post :
  events_of (forever_session fuel st) = pre ++ IsSet s true :: post ->
  post = []
  /\ outcome_of (forever_session fuel st) = Normal
  /\ exists i,
      checks (state_of (forever_session fuel st)) = S i
      /\ is_set w i = true.
Proof.
  unfold forever_session, ApiClient.forever_session.
  rewrite after_events, after_state, after_outcome.
  intros H.
  apply (app_split_l [Get]) in H; [|intros [X | []]; discriminate X].
  destruct H as [p [-> H]]. revert H.
  destruct (get w (gets st)) as [e|code body]; [ended p|].
  destruct (raise_for_status code); [ended p|].
  apply forever_chunks_stop.
Qed.

Lemma forever_session_asks (fuel : nat) (st : state) pre c post :
  events_of (forever_session fuel st) = pre ++ Recv c :: post ->
  exists b post', post = IsSet ChunkHead b :: post'.
Proof.
  unfold forever_session, ApiClient.forever_session.
  rewrite after_events.
  intros H.
  apply (app_split_l [Get]) in H; [|intros [X | []]; discriminate X].
  destruct H as [p [-> H]]. revert H.
  destruct (get w (gets st)) as [e|code body]; [ended p|].
  destruct (raise_for_status code); [ended p|].
  apply forever_chunks_asks.
Qed.

(** *** The [while] loop *)

Lemma stream_forever_opening (fuel : nat) (st : state) :
  opening (events_of (stream_forever fuel st))
          (outcome_of (stream_forever fuel st)).
Proof.
  destruct fuel as [|fuel]; [now left|].
  rewrite stream_forever_step. cbv zeta.
  rewrite after_events, after_outcome.
  destruct (is_set w (checks st)); [right; now left|].
  right; right.
  destruct (forever_session_events fuel (checked st)) as [ev [Hev _]].
  destruct (forever_session fuel (checked st)) as [[ev0 st1] out].
  rewrite after_events. unfold events_of in Hev. simpl in Hev. subst ev0.
  now eexists.
Qed.

(** [stream_forever] lets no [RequestException] through. *)
Lemma stream_forever_raises (fuel : nat) :
  forall st e,
    outcome_of (stream_forever fuel st) = Raise e ->
    is_RequestException e = false.
Proof.
  induction fuel as [|fuel IH]; intros st e; [discriminate|].
  rewrite stream_forever_step. cbv zeta. rewrite after_outcome.
  destruct (is_set w (checks st)); [discriminate|].
  destruct (forever_session fuel (checked st)) as [[ev st1] out].
  rewrite after_outcome.
  destruct out as [|e0|]; [apply IH | | discriminate].
  destruct (is_RequestException e0) eqn:He.
  - cbv zeta. rewrite after_outcome.
    destruct (is_set w (checks st1)); [discriminate|].
    rewrite after_outcome. apply IH.
  - intros H. unfold outcome_of in H. simpl in H. congruence.
Qed.

Lemma caught_first_or_later (e0 e : exn) (b : bool)
      (rest q post : list event) :
  [Caught e0; IsSet Handler b] ++ rest = q ++ Caught e :: post ->
  (q = [] /\ e = e0 /\ post = IsSet Handler b :: rest)
  \/ exists p, q = [Caught e0; IsSet Handler b] ++ p
               /\ rest = p ++ Caught e :: post.
Proof.
  intros H. destruct q as [|x [|y p]]; cbn [app] in H.
  - injection H as <- <-. now left.
  - discriminate H.
  - injection H as <- <- H. right. now exists p.
Qed.

Lemma stream_forever_caught (fuel : nat) :
  forall st pre e post,
    events_of (stream_forever fuel st) = pre ++ Caught e :: post ->
    is_RequestException e = true
    /\ backoff post (outcome_of (stream_forever fuel st)).
Proof.
  induction fuel as [|fuel IH]; intros st pre e post; [ended pre|].
  rewrite stream_forever_step. cbv zeta.
  rewrite after_events, after_outcome.
  intros H.
  apply app_split_l in H; [|intros [X | []]; discriminate X].
  destruct H as [p [-> H]]. revert H.
  destruct (is_set w (checks st)); [ended p|].
  destruct (forever_session_events fuel (checked st)) as [ev0 [Hev Hch]].
  destruct (forever_session fuel (checked st)) as [[ev st1] out].
  unfold events_of in Hev. simpl in Hev. subst ev.
  rewrite after_events, after_outcome. intros H.
  apply app_split_l in H;
    [|apply (not_in_events session_event); [|reflexivity];
      simpl; now apply chunk_session_event].
  destruct H as [q [-> H]]. revert H.
  destruct out as [|e0|]; [apply IH | | ended q].
  destruct (is_RequestException e0) eqn:He; [|ended q].
  cbv zeta. rewrite after_events, after_outcome.
  intros H. apply caught_first_or_later in H.
  destruct H as [[-> [-> ->]] | [p' [-> H]]].
  - split; [exact He|].
    destruct (is_set w (checks st1)); [now left|].
    right. rewrite after_events, after_outcome.
    eexists. split; [reflexivity|].
    apply stream_forever_opening.
  - revert H. destruct (is_set w (checks st1)); [ended p'|].
    rewrite after_events, after_outcome. intros H.
    apply app_split_l in H; [|intros [X | []]; discriminate X].
    destruct H as [q' [-> H]]. now apply IH in H.
Qed.


(** *** After the flag is set *)

Lemma app_split {A : Type} (a b pre post : list A) (x : A) :
  a ++ b = pre ++ x :: post ->
  (exists a2, a = pre ++ x :: a2 /\ post = a2 ++ b)
  \/ (exists p, pre = a ++ p /\ b = p ++ x :: post).
Proof.
  revert pre. induction a as [|y a IH]; intros pre H.
  - right. now exists pre.
  - destruct pre as [|z pre]; cbn [app] in H; injection H as -> H.
    + left. exists a. now subst.
    + destruct (IH pre H) as [[a2 [-> ->]] | [p [-> ->]]].
      * left. now exists a2.
      * right. now exists p.
Qed.

Lemma isset_first_or_later (s0 s : site) (b : bool)
      (rest pre post : list event) :
  [IsSet s0 b] ++ rest = pre ++ IsSet s true :: post ->
  (pre = [] /\ s = s0 /\ b = true /\ post = rest)
  \/ exists p, pre = [IsSet s0 b] ++ p /\ rest = p ++ IsSet s true :: post.
Proof.
  intros H. destruct pre as [|x p]; cbn [app] in H.
  - injection H as <- -> <-. now left.
  - injection H as <- H. right. now exists p.
Qed.

Lemma chunk_event_site (ev pre post : list event) (s : site) (b : bool) :
  forallb chunk_event ev = true ->
  ev = pre ++ IsSet s b :: post ->
  s = ChunkHead.
Proof.
  intros H ->. rewrite forallb_app in H.
  apply andb_true_iff in H. destruct H as [_ H]. simpl in H.
  apply andb_true_iff in H. destruct H as [H _]. now destruct s.
Qed.

Lemma stream_forever_set (fuel : nat) (st : state) :
  is_set w (checks st) = true ->
  (events_of (stream_forever fuel st) = []
   /\ outcome_of (stream_forever fuel st) = OutOfFuel)
  \/ (events_of (stream_forever fuel st) = [IsSet LoopHead true]
      /\ outcome_of (stream_forever fuel st) = Normal).
Proof.
  intros H. destruct fuel as [|fuel]; [now left|]. right.
  rewrite stream_forever_step. cbv zeta. rewrite H. now split.
Qed.

Lemma stream_forever_stop (fuel : nat) :
  stays_set w ->
  forall st pre s post,
    events_of (stream_forever fuel st) = pre ++ IsSet s true :: post ->
    winding_up s post (outcome_of (stream_forever fuel st)).
Proof.
  intros Hmono. induction fuel as [|fuel IH]; intros st pre s post;
    [ended pre|].
  rewrite stream_forever_step. cbv zeta.
  rewrite after_events, after_outcome.
  intros H. apply isset_first_or_later in H.
  destruct H as [[-> [-> [Hs ->]]] | [p [-> H]]].
  { rewrite Hs. left. now repeat split. }
  revert H. destruct (is_set w (checks st)); [ended p|].
  destruct (forever_session_events fuel (checked st)) as [ev0 [Hev Hch]].
  pose proof (forever_session_stop fuel (checked st)) as Hstop.
  destruct (forever_session fuel (checked st)) as [[ev st1] out].
  unfold events_of in Hev. simpl in Hev. subst ev.
  unfold events_of, outcome_of, state_of in Hstop. simpl in Hstop.
  rewrite after_events, after_outcome. intros H.
  apply app_split in H.
  destruct H as [[a2 [Hin ->]] | [q [-> H]]].
  - destruct (Hstop _ _ _ Hin) as [-> [-> [i [Hi Hset]]]].
    assert (Hs : s = ChunkHead).
    { destruct p as [|x p]; cbn [app] in Hin; [discriminate Hin|].
      injection Hin as _ Hin. eapply chunk_event_site; eassumption. }
    assert (Hnow : is_set w (checks st1) = true)
      by (apply (Hmono i); [lia | exact Hset]).
    right. split; [exact Hs|]. cbn [app].
    destruct (stream_forever_set fuel st1 Hnow) as [[-> ->] | [-> ->]];
      [now left | now right].
  - revert H. destruct out as [|e0|]; [apply IH | | ended q].
    destruct (is_RequestException e0); [|ended q].
    cbv zeta. rewrite after_events, after_outcome. intros H.
    apply (app_split_l [Caught e0]) in H;
      [|intros [X | []]; discriminate X].
    destruct H as [q1 [-> H]].
    apply isset_first_or_later in H.
    destruct H as [[-> [-> [Hs ->]]] | [q2 [-> H]]].
    + rewrite Hs. left. repeat split. discriminate.
    + revert H. destruct (is_set w (checks st1)); [ended q2|].
      rewrite after_events, after_outcome. intros H.
      apply app_split_l in H; [|intros [X | []]; discriminate X].
      destruct H as [q3 [-> H]]. now apply IH in H.
Qed.


(** Every chunk [stream_forever] receives is followed by a question for
    the stop flag. *)
Lemma stream_forever_asks (fuel : nat) :
  forall st pre c post,
    events_of (stream_forever fuel st) = pre ++ Recv c :: post ->
    exists b post', post = IsSet ChunkHead b :: post'.
Proof.
  induction fuel as [|fuel IH]; intros st pre c post; [ended pre|].
  rewrite stream_forever_step. cbv zeta. rewrite after_events.
  intros H.
  apply app_split_l in H; [|intros [X | []]; discriminate X].
  destruct H as [p [-> H]]. revert H.
  destruct (is_set w (checks st)); [ended p|].
  pose proof (forever_session_asks fuel (checked st)) as Hasks.
  destruct (forever_session fuel (checked st)) as [[ev st1] out].
  unfold events_of in Hasks. simpl in Hasks.
  rewrite after_events. intros H.
  apply app_split in H.
  destruct H as [[a2 [Hin ->]] | [q [-> H]]].
  - destruct (Hasks _ _ _ Hin) as [b [post' ->]]. now eexists _, _.
  - revert H. destruct out as [|e0|]; [apply IH | | ended q].
    destruct (is_RequestException e0); [|ended q].
    cbv zeta. rewrite after_events. intros H.
    apply app_split_l in H; [|intros [X | [X | []]]; discriminate X].
    destruct H as [q1 [-> H]]. revert H.
    destruct (is_set w (checks st1)); [ended q1|].
    rewrite after_events. intros H.
    apply app_split_l in H; [|intros [X | []]; discriminate X].
    destruct H as [q2 [-> H]]. now apply IH in H.
Qed.

(** *** Return within a bounded number of questions *)

Section Bounded.

Variable k : nat.
Hypothesis Hmono : stays_set w.
Hypothesis Hk : is_set w k = true.

Lemma unset_before (i : nat) : is_set w i = false -> i < k.
Proof.
  intros H. destruct (Nat.lt_ge_cases i k) as [Hlt | Hge]; [exact Hlt|].
  rewrite (Hmono k i Hge Hk) in H. discriminate H.
Qed.

Lemma forever_chunks_returns (fuel : nat) :
  forall body st,
    1 <= fuel ->
    k + 2 <= checks st + fuel ->
    outcome_of (forever_chunks fuel body st) <> OutOfFuel.
Proof.
  induction fuel as [|fuel IH]; intros body st Hf Hb; [lia|].
  destruct (body 0) as [c| |e] eqn:Hc;
    [| simpl; rewrite Hc; discriminate ..].
  rewrite (forever_chunks_step lib T on_event w fuel body st c Hc).
  cbv zeta. rewrite after_outcome.
  destruct (is_set w (checks st)) eqn:Hs; [discriminate|].
  apply unset_before in Hs.
  destruct (feed c (buffer (checked st)) (cb (checked st)))
    as [[[[ev buf] s] j] how].
  rewrite after_outcome. set (st1 := with_count _ _).
  assert (H1 : checks st1 = S (checks st)) by reflexivity.
  destruct how; try (apply IH; lia). discriminate.
Qed.

Lemma forever_chunks_few_checks (fuel : nat) :
  forall body st,
    checks (state_of (forever_chunks fuel body st))
    <= Nat.max (k + 1) (checks st + 1).
Proof.
  induction fuel as [|fuel IH]; intros body st; [unfold state_of; simpl; lia|].
  destruct (body 0) as [c| |e] eqn:Hc;
    [| simpl; rewrite Hc; unfold state_of; simpl; lia ..].
  rewrite (forever_chunks_step lib T on_event w fuel body st c Hc).
  cbv zeta. rewrite after_state.
  destruct (is_set w (checks st)) eqn:Hs; [unfold state_of; simpl; lia|].
  apply unset_before in Hs.
  destruct (feed c (buffer (checked st)) (cb (checked st)))
    as [[[[ev buf] s] j] how].
  rewrite after_state. set (st1 := with_count _ _).
  assert (H1 : checks st1 = S (checks st)) by reflexivity.
  destruct how;
    try (specialize (IH (advance body) st1); lia).
  unfold state_of. simpl. lia.
Qed.

Lemma forever_session_returns (fuel : nat) (st : state) :
  1 <= fuel ->
  k + 2 <= checks st + fuel ->
  outcome_of (forever_session fuel st) <> OutOfFuel.
Proof.
  intros Hf Hb. unfold forever_session, ApiClient.forever_session.
  rewrite after_outcome.
  destruct (get w (gets st)) as [e|code body]; [discriminate|].
  destruct (raise_for_status code); [discriminate|].
  now apply forever_chunks_returns.
Qed.

Lemma forever_session_few_checks (fuel : nat) (st : state) :
  checks (state_of (forever_session fuel st))
  <= Nat.max (k + 1) (checks st + 1).
Proof.
  unfold forever_session, ApiClient.forever_session.
  rewrite after_state.
  destruct (get w (gets st)) as [e|code body]; [unfold state_of; simpl; lia|].
  destruct (raise_for_status code); [unfold state_of; simpl; lia|].
  apply (forever_chunks_few_checks fuel body (with_buffer (got st) [])).
Qed.

(** Once the flag is set the run returns, whatever the connections
    deliver. *)
Lemma stream_forever_returns (fuel : nat) :
  forall st,
    1 <= fuel ->
    k + 2 <= checks st + fuel ->
    outcome_of (stream_forever fuel st) <> OutOfFuel.
Proof.
  induction fuel as [|fuel IH]; intros st Hf Hb; [lia|].
  rewrite stream_forever_step. cbv zeta. rewrite after_outcome.
  destruct (is_set w (checks st)) eqn:Hs; [discriminate|].
  apply unset_before in Hs.
  pose proof (forever_session_returns fuel (checked st)) as Hret.
  pose proof (forever_session_checks fuel (checked st)) as [Hch _].
  destruct (forever_session fuel (checked st)) as [[ev st1] out].
  unfold outcome_of in Hret. unfold state_of in Hch. simpl in Hret, Hch.
  rewrite after_outcome.
  destruct out as [|e0|].
  - apply IH; lia.
  - destruct (is_RequestException e0); [|discriminate].
    cbv zeta. rewrite after_outcome.
    destruct (is_set w (checks st1)) eqn:Hs1; [discriminate|].
    rewrite after_outcome. apply IH; simpl; lia.
  - exfalso. apply Hret; [lia | simpl; lia | reflexivity].
Qed.

(** It asks for the flag at most once more after it found it set. *)
Lemma stream_forever_few_checks (fuel : nat) :
  forall st,
    checks (state_of (stream_forever fuel st))
    <= Nat.max (k + 2) (checks st + 1).
Proof.
  induction fuel as [|fuel IH]; intros st; [unfold state_of; simpl; lia|].
  rewrite stream_forever_step. cbv zeta. rewrite after_state.
  destruct (is_set w (checks st)) eqn:Hs; [unfold state_of; simpl; lia|].
  apply unset_before in Hs.
  pose proof (forever_session_few_checks fuel (checked st)) as Hfew.
  destruct (forever_session fuel (checked st)) as [[ev st1] out].
  unfold state_of in Hfew. simpl in Hfew.
  rewrite after_state.
  destruct out as [|e0|].
  - specialize (IH st1). lia.
  - destruct (is_RequestException e0); [|unfold state_of; simpl; lia].
    cbv zeta. rewrite after_state.
    destruct (is_set w (checks st1)) eqn:Hs1; [unfold state_of; simpl; lia|].
    apply unset_before in Hs1.
    rewrite after_state. specialize (IH (checked st1)). simpl in IH. lia.
  - unfold state_of. simpl. lia.
Qed.

End Bounded.

(** *** The buffer across attempts *)

Lemma same_but_buffer_fields (a b : state) :
  same_but_buffer a b ->
  cb a = cb b /\ event_count a = event_count b /\ gets a = gets b
  /\ checks a = checks b /\ ticks a = ticks b.
Proof.
  unfold same_but_buffer, with_buffer. intros H. injection H. intuition.
Qed.

Lemma same_but_buffer_intro (a b : state) :
  cb a = cb b -> event_count a = event_count b -> gets a = gets b ->
  checks a = checks b -> ticks a = ticks b ->
  same_but_buffer a b.
Proof.
  unfold same_but_buffer, with_buffer. now intros -> -> -> -> ->.
Qed.

(** A session does not depend on the buffer it finds. *)
Lemma forever_session_buffer (fuel : nat) (a b : state) :
  same_but_buffer a b ->
  events_of (forever_session fuel a) = events_of (forever_session fuel b)
  /\ outcome_of (forever_session fuel a)
     = outcome_of (forever_session fuel b)
  /\ same_but_buffer (state_of (forever_session fuel a))
                     (state_of (forever_session fuel b)).
Proof.
  intros H. pose proof (same_but_buffer_fields a b H) as [H1 [H2 [H3 [H4 H5]]]].
  unfold forever_session, ApiClient.forever_session.
  rewrite !after_events, !after_outcome, !after_state, H3.
  assert (Hg : same_but_buffer (got a) (got b))
    by (apply same_but_buffer_intro; simpl; congruence).
  destruct (get w (gets b)) as [e|code body];
    [now repeat split|].
  destruct (raise_for_status code); [now repeat split|].
  assert (He : with_buffer (got a) [] = with_buffer (got b) []) by exact Hg.
  rewrite He. now repeat split.
Qed.

Lemma stream_forever_buffer (fuel : nat) :
  forall a b,
    same_but_buffer a b ->
    events_of (stream_forever fuel a) = events_of (stream_forever fuel b)
    /\ outcome_of (stream_forever fuel a)
       = outcome_of (stream_forever fuel b)
    /\ same_but_buffer (state_of (stream_forever fuel a))
                       (state_of (stream_forever fuel b)).
Proof.
  induction fuel as [|fuel IH]; intros a b H; [now repeat split|].
  pose proof (same_but_buffer_fields a b H) as [H1 [H2 [H3 [H4 H5]]]].
  rewrite !stream_forever_step. cbv zeta.
  rewrite !after_events, !after_outcome, !after_state, H4.
  assert (Hc : same_but_buffer (checked a) (checked b))
    by (apply same_but_buffer_intro; simpl; congruence).
  destruct (is_set w (checks b)); [now repeat split|].
  destruct (forever_session_buffer fuel _ _ Hc) as [He [Ho Hs]].
  destruct (forever_session fuel (checked a)) as [[ev1 a1] out1].
  destruct (forever_session fuel (checked b)) as [[ev2 b1] out2].
  unfold events_of, outcome_of, state_of in He, Ho, Hs. simpl in He, Ho, Hs.
  subst ev2 out2.
  rewrite !after_events, !after_outcome, !after_state.
  pose proof (same_but_buffer_fields a1 b1 Hs) as [G1 [G2 [G3 [G4 G5]]]].
  destruct out1 as [|e0|].
  - destruct (IH a1 b1 Hs) as [I1 [I2 I3]]. now rewrite I1, I2.
  - destruct (is_RequestException e0); [|now repeat split].
    cbv zeta. rewrite !after_events, !after_outcome, !after_state, G4.
    assert (Hc1 : same_but_buffer (checked a1) (checked b1))
      by (apply same_but_buffer_intro; simpl; congruence).
    destruct (is_set w (checks b1)); [now repeat split|].
    rewrite !after_events, !after_outcome, !after_state.
    destruct (IH _ _ Hc1) as [I1 [I2 I3]]. now rewrite I1, I2.
  - now repeat split.
Qed.

End Supervisor.

End SupervisorFacts.
(** ** Order of floats *)

Module OrderFacts.

Import FloatFacts Statistics.

(** [a <= b] holds when [a < b] or [a == b]. *)
Lemma float_le_lt_eq (a b : float) :
  float_le a b = float_lt a b || float_eq a b.
Proof.
  unfold float_le, float_lt, float_eq, SFleb, SFltb, SFeqb.
  now destruct (SFcompare a b) as [[| |]|].
Qed.

Lemma float_ge_gt_eq (a b : float) :
  float_ge a b = float_gt a b || float_eq a b.
Proof.
  unfold float_ge, float_gt, float_eq, SFleb, SFltb, SFeqb.
  destruct (SFcompare b a) as [c|] eqn:E.
  - apply SFcompare_swap in E. rewrite E. now destruct c.
  - destruct (SFcompare a b) as [c|] eqn:E2; [|reflexivity].
    apply SFcompare_swap in E2. congruence.
Qed.

(** Not-a-number compares with nothing. *)
Lemma nan_compares_not (a : float) :
  SFcompare S754_nan a = None /\ SFcompare a S754_nan = None.
Proof. now destruct a. Qed.

Lemma le_lt_trans (a b c : float) :
  float_le a b = true -> float_lt b c = true -> float_lt a c = true.
Proof.
  unfold float_le, float_lt, SFleb, SFltb.
  destruct a as [sa|sa| |sa ma ea], b as [sb|sb| |sb mb eb],
           c as [sc|sc| |sc mc ec]; simpl;
    try discriminate; try reflexivity;
    repeat match goal with s : bool |- _ => destruct s end; simpl;
    try discriminate; try reflexivity;
    repeat match goal with
           | |- context [Pos.compare_cont Eq ?p ?q] =>
               change (Pos.compare_cont Eq p q) with (Pos.compare p q)
           end;
    destruct (Z.compare_spec ea eb), (Z.compare_spec eb ec),
             (Z.compare_spec ea ec); simpl;
    try discriminate; try reflexivity; try lia;
    destruct (Pos.compare_spec ma mb), (Pos.compare_spec mb mc),
             (Pos.compare_spec ma mc); simpl;
    try discriminate; try reflexivity; lia.
Qed.

(** [a < b] excludes [a >= b]. *)
Lemma lt_not_ge (a b : float) :
  float_lt a b = true -> float_ge a b = false.
Proof.
  unfold float_lt, float_ge, SFltb, SFleb.
  destruct (SFcompare a b) as [[| |]|] eqn:E; try discriminate.
  apply SFcompare_swap in E. now rewrite E.
Qed.

End OrderFacts.

(** ** The monitor and its reports *)

Module MonitorFacts.

Import Monitor Statistics Run OrderFacts.

Lemma check_safety_add_readings (m : TemperatureMonitor)
      (rs : list TemperatureReading) :
  check_safety (add_readings m rs)
  = check_safety m ++ filter (out_of_range m) rs.
Proof. unfold check_safety, add_readings. simpl. apply filter_app. Qed.



Lemma alarms_app (a b : console) : alarms (a ++ b) = alarms a ++ alarms b.
Proof. unfold alarms. now rewrite filter_app, map_app. Qed.


Lemma compute_stats_count (np : numpy) (m : TemperatureMonitor) :
  count (compute_stats np m) = List.length (readings m).
Proof.
  unfold compute_stats, temps_array.
  destruct (readings m); simpl; now rewrite ?length_map.
Qed.




End MonitorFacts.

(** ** The history *)

Module HistoryFacts.

Import ApiClient Statistics History StrFacts.

#[local] Arguments N.eqb : simpl never.

Lemma rev_repeat {A : Type} (x : A) (k : nat) :
  rev (repeat x k) = repeat x k.
Proof.
  induction k as [|k IH]; [reflexivity|].
  simpl. rewrite IH. symmetry. apply repeat_cons.
Qed.

(** What [lstrip_chars] removes are slashes, and what it leaves does not
    begin with one. *)
Lemma lstrip_slash (s : str) :
  exists k,
    s = repeat 47%N k ++ lstrip_chars slash s
    /\ startswith (lstrip_chars slash s) slash = false.
Proof.
  induction s as [|c r [k [IH1 IH2]]]; [now exists 0|].
  simpl. rewrite orb_false_r. destruct (N.eqb c 47) eqn:E.
  - apply N.eqb_eq in E. subst c. exists (S k). simpl.
    now rewrite <- IH1.
  - exists 0. simpl. split; [reflexivity|].
    unfold slash. simpl. rewrite N.eqb_sym, E. reflexivity.
Qed.

Lemma lstrip_slash_fixed (s : str) :
  startswith s slash = false -> lstrip_chars slash s = s.
Proof.
  destruct s as [|c r]; [reflexivity|].
  unfold slash. simpl. rewrite orb_false_r, andb_true_r.
  rewrite (N.eqb_sym 47 c). now intros ->.
Qed.

Lemma rstrip_slash (s : str) :
  exists k,
    s = rstrip_chars slash s ++ repeat 47%N k
    /\ endswith (rstrip_chars slash s) slash = false.
Proof.
  destruct (lstrip_slash (rev s)) as [k [H1 H2]]. exists k. split.
  - unfold rstrip_chars.
    rewrite <- (rev_involutive s) at 1. rewrite H1 at 1.
    now rewrite rev_app_distr, rev_repeat.
  - unfold rstrip_chars, endswith. now rewrite rev_involutive.
Qed.

Lemma rstrip_slash_fixed (s : str) :
  endswith s slash = false -> rstrip_chars slash s = s.
Proof.
  unfold endswith, rstrip_chars. intros H.
  change (rev slash) with slash in H.
  rewrite (lstrip_slash_fixed _ H). apply rev_involutive.
Qed.

Lemma rstrip_slash_more (s : str) :
  rstrip_chars slash (s ++ slash) = rstrip_chars slash s.
Proof. unfold rstrip_chars, slash. now rewrite rev_app_distr. Qed.

(** The list comprehension returns when every item maps, and then a
    reading for each item. *)
Lemma readings_of_inr (lib : library) (l : list json) :
  forall rs,
    readings_of lib l = inr rs
    <-> Forall2 (fun it r => reading_of lib it = inr r) l rs.
Proof.
  induction l as [|it l IH]; intros rs; simpl.
  - split.
    + intros H. injection H as <-. constructor.
    + intros H. inversion H. reflexivity.
  - destruct (reading_of lib it) as [e|r] eqn:E.
    + split; [discriminate|]. intros H. inversion H. congruence.
    + destruct (readings_of lib l) as [e|rs'] eqn:E2.
      * split; [discriminate|]. intros H. inversion H; subst.
        match goal with X : Forall2 _ l _ |- _ => apply IH in X end.
        discriminate.
      * split.
        -- intros H. injection H as <-. constructor; [assumption|].
           now apply IH.
        -- intros H. inversion H; subst.
           match goal with X : Forall2 _ l _ |- _ => apply IH in X end.
           congruence.
Qed.

(** It raises what the first item that does not map raises. *)
Lemma readings_of_inl (lib : library) (l : list json) :
  forall e,
    readings_of lib l = inl e
    <-> exists good bad rest rs,
          l = good ++ bad :: rest
          /\ readings_of lib good = inr rs
          /\ reading_of lib bad = inl e.
Proof.
  induction l as [|it l IH]; intros e; simpl.
  - split; [discriminate|].
    intros [good [bad [rest [rs [H _]]]]]. now destruct good.
  - destruct (reading_of lib it) as [e0|r] eqn:E.
    + split.
      * intros H. injection H as <-. now exists [], it, l, [].
      * intros [good [bad [rest [rs [H [Hg Hb]]]]]].
        destruct good as [|g good]; simpl in H; injection H as H1 H2;
          subst.
        -- congruence.
        -- simpl in Hg. rewrite E in Hg. discriminate.
    + destruct (readings_of lib l) as [e0|rs'] eqn:E2.
      * split.
        -- intros H. injection H as <-.
           destruct (proj1 (IH e0) eq_refl)
             as [good [bad [rest [rs [Hl [Hg Hb]]]]]].
           exists (it :: good), bad, rest, (r :: rs). simpl.
           now rewrite E, Hg, Hl.
        -- intros [good [bad [rest [rs [H [Hg Hb]]]]]].
           destruct good as [|g good]; simpl in H; injection H as H1 H2;
             subst.
           ++ congruence.
           ++ apply IH.
              simpl in Hg. rewrite E in Hg.
              destruct (readings_of lib good) as [|rs0] eqn:E3;
                [discriminate|].
              now exists good, bad, rest, rs0.
      * split; [discriminate|].
        intros [good [bad [rest [rs [H [Hg Hb]]]]]].
        destruct good as [|g good]; simpl in H; injection H as H1 H2;
          subst.
        -- congruence.
        -- assert (X : @inr exn _ rs' = inl e); [|discriminate X].
           apply IH. simpl in Hg. rewrite E in Hg.
           destruct (readings_of lib good) as [|rs0] eqn:E3;
             [discriminate|].
           now exists good, bad, rest, rs0.
Qed.

(** Every exception of the mapping of an item is an [Exception]. *)
Lemma reading_of_error (lib : library) (it : json) (e : exn) :
  reading_of lib it = inl e -> is_Exception e = true.
Proof.
  unfold reading_of.
  destruct (getitem it key_temperature) as [v|].
  - destruct (to_float lib v).
    + destruct (getitem it key_timestamp); [discriminate|].
      intros H. injection H as <-. now destruct it.
    + intros H. injection H as <-. now destruct v.
  - intros H. injection H as <-. now destruct it.
Qed.

Lemma enumerate_length {A : Type} (l : list A) (start : nat) :
  List.length (enumerate l start) = List.length l.
Proof.
  unfold enumerate. rewrite length_combine, length_seq. apply Nat.min_id.
Qed.

(** The numbers of [enumerate(l, 1)] are the positions in [l], from one. *)
Lemma enumerate_In {A : Type} (l : list A) (start i : nat) (x : A) :
  In (i, x) (enumerate l start) ->
  start <= i < start + List.length l /\ nth_error l (i - start) = Some x.
Proof.
  unfold enumerate. revert start.
  induction l as [|y l IH]; intros start; simpl; [intros []|].
  intros [H | H].
  - injection H as -> ->. rewrite Nat.sub_diag. split; [lia | reflexivity].
  - apply IH in H. destruct H as [H1 H2]. split; [lia|].
    replace (i - start) with (S (i - S start)) by lia. exact H2.
Qed.

Lemma In_enumerate {A : Type} (l : list A) (start i : nat) (x : A) :
  start <= i -> nth_error l (i - start) = Some x ->
  In (i, x) (enumerate l start).
Proof.
  unfold enumerate. revert start.
  induction l as [|y l IH]; intros start Hi; simpl.
  - now destruct (i - start).
  - destruct (i - start) as [|k] eqn:E; simpl.
    + intros H. injection H as ->. left. f_equal. lia.
    + intros H. right. apply IH; [lia|].
      replace (i - S start) with k by lia. exact H.
Qed.

(** The numbered lines of a list of violations. *)
Lemma numbered_lines (mk : nat -> TemperatureReading -> line)
      (l : list TemperatureReading) (i : nat) (r : TemperatureReading) :
  (forall j x, mk j x = mk i r -> j = i /\ x = r) ->
  In (mk i r) (map (fun ir => mk (fst ir) (snd ir)) (enumerate l 1))
  <-> 1 <= i /\ nth_error l (i - 1) = Some r.
Proof.
  intros Hinj. rewrite in_map_iff. split.
  - intros [[j x] [H1 H2]]. simpl in H1.
    apply Hinj in H1. destruct H1 as [-> ->].
    apply enumerate_In in H2. tauto.
  - intros [H1 H2]. exists (i, r). split; [reflexivity|].
    now apply In_enumerate.
Qed.

End HistoryFacts.

(** ** The state of the callback *)

Module RunFacts.

Import Trace Decoder ApiClient BodyFacts LoopFacts SupervisorFacts Shape Run.

#[local] Arguments startswith : simpl never.
#[local] Arguments N.eqb : simpl never.

Section Runs.

Variable lib : library.
Variable T : Type.
Variable on_event : TemperatureReading -> T -> T * option exn.
Variable w : world.

#[local] Abbreviation state := (state T).
#[local] Abbreviation deliver := (deliver lib on_event).
#[local] Abbreviation for_lines := (for_lines lib on_event).
#[local] Abbreviation feed := (feed lib on_event).
#[local] Abbreviation stream_chunks := (stream_chunks lib on_event w).
#[local] Abbreviation stream := (stream lib on_event w).
#[local] Abbreviation forever_chunks := (forever_chunks lib on_event w).
#[local] Abbreviation forever_session := (forever_session lib on_event w).
#[local] Abbreviation stream_forever := (stream_forever lib on_event w).
#[local] Abbreviation replay := (replay on_event).
#[local] Abbreviation result := (list event * state * outcome)%type.

Lemma replay_app (a b : list TemperatureReading) (s : T) :
  replay (a ++ b) s = replay b (replay a s).
Proof. apply fold_left_app. Qed.

Lemma deliver_replay (p : str) (s s' : T) (ev : list event) (k : Z)
      (x : option exn) :
  deliver p s = (ev, s', k, x) -> s' = replay (invoked ev) s.
Proof.
  unfold ApiClient.deliver.
  destruct (parse_reading lib p) as [r|].
  - unfold Run.replay.
    destruct (on_event r s) as [s1 [e|]] eqn:E; intros H;
      injection H as <- <- _ _; simpl; now rewrite E.
  - intros H. now injection H as <- <- _ _.
Qed.

Lemma for_lines_replay (lines : list str) :
  forall s s' ev k x,
    for_lines lines s = (ev, s', k, x) -> s' = replay (invoked ev) s.
Proof.
  induction lines as [|ln rest IH]; intros s s' ev k x.
  - intros H. now injection H as <- <- _ _.
  - rewrite for_lines_cons. destruct (is_data ln); [|apply IH].
    destruct (ApiClient.deliver lib on_event (payload_of ln) s)
      as [[[ev1 s1] k1] x1] eqn:E.
    apply deliver_replay in E.
    destruct x1 as [e|].
    + intros H. now injection H as <- <- _ _.
    + destruct (ApiClient.for_lines lib on_event rest s1)
        as [[[ev2 s2] k2] x2] eqn:E2.
      apply IH in E2. intros H. injection H as <- <- _ _.
      now rewrite invoked_app, replay_app, <- E.
Qed.

Lemma feed_replay (c : bytes) (buf buf' : str) (s s' : T)
      (ev : list event) (k : Z) (how : step) :
  feed c buf s = (ev, buf', s', k, how) -> s' = replay (invoked ev) s.
Proof.
  unfold ApiClient.feed. destruct c as [|b c].
  - intros H. now injection H as <- _ <- _ _.
  - destruct (utf8_decode (b :: c)) as [ch|];
      [|intros H; now injection H as <- _ <- _ _].
    destruct (endswith (buf ++ ch) terminator);
      [|intros H; now injection H as <- _ <- _ _].
    destruct (ApiClient.for_lines lib on_event (lines_of (buf ++ ch)) s)
      as [[[ev1 s1] k1] x1] eqn:E.
    apply for_lines_replay in E.
    destruct x1; intros H; now injection H as <- _ <- _ _.
Qed.

(** Events in front of a run whose callback state is the replay of its
    own calls. *)
Lemma after_replay (ev : list event) (s : T) (r : result) (s0 : T) :
  s = replay (invoked ev) s0 ->
  cb (state_of r) = replay (invoked (events_of r)) s ->
  cb (state_of (after ev r)) = replay (invoked (events_of (after ev r))) s0.
Proof.
  intros -> H. rewrite after_events, after_state, invoked_app, replay_app.
  exact H.
Qed.

Lemma stream_chunks_replay (fuel : nat) :
  forall stop_after timeout start body st,
    let r := stream_chunks fuel stop_after timeout start body st in
    cb (state_of r) = replay (invoked (events_of r)) (cb st).
Proof.
  induction fuel as [|fuel IH]; intros stop_after timeout start body st;
    [reflexivity|].
  destruct (body 0) as [c| |e] eqn:Hb;
    [| cbv zeta; simpl; now rewrite Hb ..].
  cbv zeta.
  rewrite (stream_chunks_step lib T on_event w fuel stop_after timeout start
             body st c Hb).
  destruct (ApiClient.feed lib on_event c (buffer st) (cb st))
    as [[[[ev buf] s] k] how] eqn:E.
  apply feed_replay in E. cbv zeta.
  apply (after_replay (Recv c :: ev) s); [exact E|].
  set (st1 := fed st buf s k).
  change s with (cb st1).
  destruct how as [| |e]; [apply IH | | reflexivity].
  destruct (count_reached stop_after (event_count st1)); [reflexivity|].
  destruct (has_timeout timeout) as [t|]; [|apply IH].
  cbv zeta.
  apply (after_replay [Time _] (cb st1)); [reflexivity|].
  destruct (float_ge _ t); [reflexivity|].
  apply (IH stop_after timeout start (advance body) (ticked st1)).
Qed.

Lemma stream_replay (fuel : nat) (stop_after : option Z)
      (timeout : option float) (st : state) :
  let r := stream fuel stop_after timeout st in
  cb (state_of r) = replay (invoked (events_of r)) (cb st).
Proof.
  cbv zeta. unfold ApiClient.stream.
  apply (after_replay [Get] (cb st)); [reflexivity|].
  destruct (get w (gets st)) as [e|code body]; [reflexivity|].
  destruct (raise_for_status code); [reflexivity|]. cbv zeta.
  apply (after_replay [Time _] (cb st)); [reflexivity|].
  apply (stream_chunks_replay fuel stop_after timeout _ body
           (with_buffer (ticked (with_count (got st) 0)) [])).
Qed.

Lemma forever_chunks_replay (fuel : nat) :
  forall body st,
    let r := forever_chunks fuel body st in
    cb (state_of r) = replay (invoked (events_of r)) (cb st).
Proof.
  induction fuel as [|fuel IH]; intros body st; [reflexivity|].
  destruct (body 0) as [c| |e] eqn:Hb;
    [| cbv zeta; simpl; now rewrite Hb ..].
  cbv zeta. rewrite (forever_chunks_step lib T on_event w fuel body st c Hb).
  cbv zeta.
  apply (after_replay [Recv c; IsSet ChunkHead _] (cb st)); [reflexivity|].
  destruct (is_set w (checks st)); [reflexivity|].
  destruct (ApiClient.feed lib on_event c (buffer (checked st))
              (cb (checked st))) as [[[[ev buf] s] k] how] eqn:E.
  apply feed_replay in E.
  apply (after_replay ev s); [exact E|].
  set (st1 := with_count _ _).
  change s with (cb st1).
  destruct how as [| |e]; [apply IH | apply IH | reflexivity].
Qed.

Lemma forever_session_replay (fuel : nat) (st : state) :
  let r := forever_session fuel st in
  cb (state_of r) = replay (invoked (events_of r)) (cb st).
Proof.
  cbv zeta. unfold ApiClient.forever_session.
  apply (after_replay [Get] (cb st)); [reflexivity|].
  destruct (get w (gets st)) as [e|code body]; [reflexivity|].
  destruct (raise_for_status code); [reflexivity|].
  apply (forever_chunks_replay fuel body (with_buffer (got st) [])).
Qed.

Lemma stream_forever_replay (fuel : nat) :
  forall st,
    let r := stream_forever fuel st in
    cb (state_of r) = replay (invoked (events_of r)) (cb st).
Proof.
  induction fuel as [|fuel IH]; intros st; [reflexivity|].
  cbv zeta. rewrite stream_forever_step. cbv zeta.
  apply (after_replay [IsSet LoopHead _] (cb st)); [reflexivity|].
  destruct (is_set w (checks st)); [reflexivity|].
  pose proof (forever_session_replay fuel (checked st)) as Hs.
  cbv zeta in Hs.
  destruct (ApiClient.forever_session lib on_event w fuel (checked st))
    as [[ev st1] out].
  unfold state_of, events_of in Hs. simpl in Hs.
  apply (after_replay ev (cb st1)); [exact Hs|].
  destruct out as [|e|]; [apply IH | | reflexivity].
  destruct (is_RequestException e); [|reflexivity]. cbv zeta.
  apply (after_replay [Caught e; IsSet Handler _] (cb st1)); [reflexivity|].
  destruct (is_set w (checks st1)); [reflexivity|].
  apply (after_replay [Sleep 1] (cb st1)); [reflexivity|].
  apply (IH (checked st1)).
Qed.

End Runs.

End RunFacts.

(** ** What ends a session *)

Module SessionFacts.

Import Trace Decoder ApiClient BodyFacts LoopFacts SupervisorFacts Shape Run.

#[local] Arguments startswith : simpl never.
#[local] Arguments N.eqb : simpl never.

Lemma requests_app (a b : list event) :
  requests (a ++ b) = requests a + requests b.
Proof.
  induction a as [|e a IH]; [reflexivity|].
  destruct e; simpl; now rewrite IH.
Qed.

Lemma requests_mapping (ev : list event) :
  forallb is_mapping ev = true -> requests ev = 0.
Proof.
  induction ev as [|e ev IH]; [reflexivity|]. simpl.
  rewrite andb_true_iff. intros [He Hev]. destruct e; try discriminate;
    now apply IH.
Qed.

Lemma received_length_app (a b : list event) :
  List.length (received (a ++ b))
  = List.length (received a) + List.length (received b).
Proof.
  induction a as [|e a IH]; [reflexivity|].
  destruct e; simpl; now rewrite IH.
Qed.

(** A text that holds the terminator somewhere, and one that does not. *)
Lemma holds_terminator_mid (x b : str) :
  holds_terminator (x ++ LF :: LF :: b) = true.
Proof.
  induction x as [|c x IH]; [reflexivity|].
  cbn [app holds_terminator].
  destruct (x ++ LF :: LF :: b) eqn:E; [now destruct x|].
  rewrite IH. apply orb_true_r.
Qed.

Lemma no_terminator_prefix (a b : str) :
  holds_terminator (a ++ b) = false -> endswith a terminator = false.
Proof.
  intros H. destruct (endswith a terminator) eqn:E; [|reflexivity].
  apply StrFacts.endswith_spec in E. destruct E as [x ->].
  unfold terminator in H. rewrite <- app_assoc in H. cbn [app] in H.
  now rewrite holds_terminator_mid in H.
Qed.

(** A trace without events of the event mapper shows no payload and no
    call. *)
Lemma no_mapping (ev : list event) :
  filter is_mapping ev = [] -> loads ev = [] /\ calls ev = [].
Proof.
  induction ev as [|e ev IH]; [now split|].
  destruct e; simpl; try exact IH; discriminate.
Qed.

Lemma fed_same {T : Type} (st : state T) :
  fed st (buffer st) (cb st) 0 = st.
Proof. destruct st. unfold fed. simpl. f_equal. lia. Qed.

Section Sessions.

Variable lib : library.
Variable T : Type.
Variable on_event : TemperatureReading -> T -> T * option exn.
Variable w : world.

#[local] Abbreviation state := (state T).
#[local] Abbreviation feed := (feed lib on_event).
#[local] Abbreviation stream_chunks := (stream_chunks lib on_event w).
#[local] Abbreviation stream := (stream lib on_event w).
#[local] Abbreviation forever_chunks := (forever_chunks lib on_event w).
#[local] Abbreviation forever_session := (forever_session lib on_event w).
#[local] Abbreviation stream_forever := (stream_forever lib on_event w).
#[local] Abbreviation escaped := (escaped on_event).
#[local] Abbreviation result := (list event * state * outcome)%type.

(** The chunk loop of [stream] makes no request. *)
Lemma stream_chunks_requests (fuel : nat) :
  forall stop_after timeout start body st,
    requests (events_of (stream_chunks fuel stop_after timeout start body st))
    = 0.
Proof.
  induction fuel as [|fuel IH]; intros stop_after timeout start body st;
    [reflexivity|].
  destruct (body 0) as [c| |e] eqn:Hb; [| simpl; now rewrite Hb ..].
  rewrite (stream_chunks_step lib T on_event w fuel stop_after timeout start
             body st c Hb).
  pose proof (feed_sound lib T on_event c (buffer st) (cb st)) as Hs.
  destruct (ApiClient.feed lib on_event c (buffer st) (cb st))
    as [[[[ev buf] s] k] how].
  destruct Hs as [Hs1 _ _]. cbv zeta. rewrite after_events.
  cbn [app requests]. rewrite requests_app, (requests_mapping ev Hs1).
  destruct how as [| |e]; [apply IH | | reflexivity].
  destruct (count_reached stop_after _); [reflexivity|].
  destruct (has_timeout timeout) as [t|]; [|apply IH].
  cbv zeta. rewrite after_events.
  destruct (float_ge _ t); [reflexivity | apply IH].
Qed.

(** An exception that leaves the chunk loop of [stream] comes from a read
    of the body or from the callback. *)
Lemma stream_chunks_raise (fuel : nat) :
  forall stop_after timeout start body st e,
    outcome_of (stream_chunks fuel stop_after timeout start body st)
    = Raise e ->
    (exists i, body i = ReadError e) \/ escaped e.
Proof.
  induction fuel as [|fuel IH]; intros stop_after timeout start body st e;
    [discriminate|].
  destruct (body 0) as [c| |e0] eqn:Hb.
  - rewrite (stream_chunks_step lib T on_event w fuel stop_after timeout
               start body st c Hb).
    destruct (ApiClient.feed lib on_event c (buffer st) (cb st))
      as [[[[ev buf] s] k] how] eqn:E.
    cbv zeta. rewrite after_outcome.
    assert (Hgo : forall st',
               outcome_of (stream_chunks fuel stop_after timeout start
                             (advance body) st') = Raise e ->
               (exists i, body i = ReadError e) \/ escaped e).
    { intros st' H. apply IH in H. destruct H as [[i H] | H];
        [left; now exists (S i) | now right]. }
    destruct how as [| |e1].
    + apply Hgo.
    + destruct (count_reached stop_after _); [discriminate|].
      destruct (has_timeout timeout) as [t|]; [|apply Hgo].
      cbv zeta. rewrite after_outcome.
      destruct (float_ge _ t); [discriminate | apply Hgo].
    + intros H. injection H as <-. right.
      eapply feed_escape. eassumption.
  - simpl. rewrite Hb. discriminate.
  - simpl. rewrite Hb. intros H. injection H as <-. left. now exists 0.
Qed.

(** The loop depends on its limits through their tests only. *)
Lemma stream_chunks_limits (fuel : nat) (sa sa' : option Z)
      (tm tm' : option float) :
  (forall n, count_reached sa n = count_reached sa' n) ->
  has_timeout tm = has_timeout tm' ->
  forall start body st,
    stream_chunks fuel sa tm start body st
    = stream_chunks fuel sa' tm' start body st.
Proof.
  intros Hc Ht.
  induction fuel as [|fuel IH]; intros start body st; [reflexivity|].
  destruct (body 0) as [c| |e] eqn:Hb; [| simpl; now rewrite Hb ..].
  rewrite !(stream_chunks_step lib T on_event w fuel _ _ start body st c Hb).
  destruct (ApiClient.feed lib on_event c (buffer st) (cb st))
    as [[[[ev buf] s] k] how].
  cbv zeta. rewrite Hc, Ht.
  destruct how as [| |e]; [now rewrite IH | | reflexivity].
  destruct (count_reached sa' _); [reflexivity|].
  destruct (has_timeout tm') as [t|]; now rewrite !IH.
Qed.

(** A chunk that is skipped changes nothing. *)
Lemma feed_skipped (c : bytes) (buf : str) (s : T) :
  skipped c = true -> feed c buf s = ([], buf, s, 0%Z, Continue).
Proof.
  unfold skipped, ApiClient.feed. destruct c as [|b c]; [reflexivity|].
  now destruct (utf8_decode (b :: c)).
Qed.

Lemma stream_chunks_skipped (cs : list bytes) :
  forallb skipped cs = true ->
  forall fuel stop_after timeout start st,
    List.length cs < fuel ->
    stream_chunks fuel stop_after timeout start (body_of cs EOF) st
    = (map Recv cs, st, Normal).
Proof.
  induction cs as [|c cs IH]; intros Hs fuel stop_after timeout start st Hf;
    (destruct fuel as [|fuel]; [simpl in Hf; lia|]); [reflexivity|].
  simpl in Hs. apply andb_true_iff in Hs. destruct Hs as [Hc Hs].
  rewrite (stream_chunks_step lib T on_event w fuel stop_after timeout start
             (body_of (c :: cs) EOF) st c eq_refl).
  rewrite (feed_skipped c _ _ Hc). cbv zeta.
  rewrite fed_same, advance_body_of, (IH Hs) by (simpl in Hf; lia).
  reflexivity.
Qed.

(** On a body that delivers skipped chunks for ever the loop goes on as
    long as it is let. *)
Lemma stream_chunks_skipping (fuel : nat) :
  forall stop_after timeout start body st,
    (forall i, exists c, body i = Chunk c /\ skipped c = true) ->
    let r := stream_chunks fuel stop_after timeout start body st in
    outcome_of r = OutOfFuel
    /\ List.length (events_of r) = fuel
    /\ List.length (received (events_of r)) = fuel
    /\ state_of r = st.
Proof.
  induction fuel as [|fuel IH]; intros stop_after timeout start body st Hb;
    [now repeat split|].
  destruct (Hb 0) as [c [Hc Hs]]. cbv zeta.
  rewrite (stream_chunks_step lib T on_event w fuel stop_after timeout start
             body st c Hc).
  rewrite (feed_skipped c _ _ Hs). cbv zeta. rewrite fed_same.
  rewrite after_outcome, after_events, after_state.
  destruct (IH stop_after timeout start (advance body) st)
    as [H1 [H2 [H3 H4]]].
  { intros i. apply (Hb (S i)). }
  cbn [app received List.length]. now rewrite H1, H2, H3, H4.
Qed.

(** Without limits the loop returns at the end of the body only, every
    chunk in front of it received. *)
Lemma stream_chunks_whole (fuel : nat) :
  forall start body st,
    let r := stream_chunks fuel None None start body st in
    outcome_of r = Normal ->
    body (List.length (received (events_of r))) = EOF
    /\ forall j, j < List.length (received (events_of r)) ->
                 body j = Chunk (nth j (received (events_of r)) []).
Proof.
  induction fuel as [|fuel IH]; intros start body st; [discriminate|].
  cbv zeta. destruct (body 0) as [c| |e] eqn:Hb.
  - rewrite (stream_chunks_step lib T on_event w fuel None None start body st
               c Hb).
    pose proof (feed_sound lib T on_event c (buffer st) (cb st)) as Hs.
    destruct (ApiClient.feed lib on_event c (buffer st) (cb st))
      as [[[[ev buf] s] k] how].
    destruct Hs as [Hs1 _ _]. cbv zeta.
    rewrite after_outcome, after_events.
    cbn [app received].
    assert (Hgo : forall r' : result,
               (outcome_of r' = Normal ->
                advance body (List.length (received (events_of r'))) = EOF
                /\ forall j, j < List.length (received (events_of r')) ->
                      advance body j
                      = Chunk (nth j (received (events_of r')) [])) ->
               outcome_of r' = Normal ->
               body (List.length (c :: received (ev ++ events_of r'))) = EOF
               /\ forall j,
                    j < List.length (c :: received (ev ++ events_of r')) ->
                    body j
                    = Chunk (nth j (c :: received (ev ++ events_of r')) [])).
    { intros r' H Hn. destruct (H Hn) as [H1 H2].
      assert (E : received (ev ++ events_of r') = received (events_of r')).
      { clear - Hs1. induction ev as [|x ev IHev]; [reflexivity|].
        simpl in Hs1. apply andb_true_iff in Hs1. destruct Hs1 as [Hx Hev].
        destruct x; try discriminate; now apply IHev. }
      rewrite E. split; [exact H1|].
      intros [|j] Hj; [exact Hb|]. simpl in Hj |- *.
      apply (H2 j). lia. }
    destruct how as [| |e]; [apply Hgo, IH | apply Hgo, IH | discriminate].
  - intros _. simpl. rewrite Hb. simpl. split; [exact Hb | intros j Hj; lia].
  - simpl. rewrite Hb. discriminate.
Qed.

(** A chunk that brings no terminator to the end of the buffer is added
    to it and nothing else happens. *)
Lemma feed_no_terminator (c : bytes) (buf rest : str) (s : T) :
  holds_terminator (buf ++ chunk_text c ++ rest) = false ->
  exists how,
    feed c buf s = ([], buf ++ chunk_text c, s, 0%Z, how)
    /\ (how = Continue \/ how = Through).
Proof.
  unfold chunk_text, ApiClient.feed. destruct c as [|b c].
  - intros _. exists Continue. simpl. rewrite app_nil_r. now split; [|left].
  - destruct (utf8_decode (b :: c)) as [ch|].
    + intros H. rewrite app_assoc in H.
      rewrite (no_terminator_prefix _ _ H).
      exists Through. now split; [|right].
    + intros _. exists Continue. rewrite app_nil_r. now split; [|left].
Qed.

Lemma stream_chunks_no_terminator (cs : list bytes) :
  forall fuel stop_after timeout start st,
    holds_terminator (buffer st ++ text_of cs) = false ->
    filter is_mapping
      (events_of (stream_chunks fuel stop_after timeout start
                    (body_of cs EOF) st)) = [].
Proof.
  induction cs as [|c cs IH]; intros fuel stop_after timeout start st Hn;
    (destruct fuel as [|fuel]; [reflexivity|]); [reflexivity|].
  rewrite (stream_chunks_step lib T on_event w fuel stop_after timeout start
             (body_of (c :: cs) EOF) st c eq_refl).
  rewrite DecoderFacts.text_of_cons in Hn.
  destruct (feed_no_terminator c (buffer st) (text_of cs) (cb st) Hn)
    as [how [-> Hhow]].
  cbv zeta. rewrite after_events, advance_body_of.
  cbn [app filter is_mapping].
  set (st1 := fed st (buffer st ++ chunk_text c) (cb st) 0).
  assert (H1 : holds_terminator (buffer st1 ++ text_of cs) = false)
    by (simpl; now rewrite <- app_assoc).
  destruct Hhow as [-> | ->]; [now apply IH|].
  destruct (count_reached stop_after _); [reflexivity|].
  destruct (has_timeout timeout) as [t|]; [|now apply IH].
  cbv zeta. rewrite after_events. cbn [app filter is_mapping].
  destruct (float_ge _ t); [reflexivity|]. now apply IH.
Qed.

Lemma forever_chunks_no_terminator (cs : list bytes) :
  forall fuel st,
    holds_terminator (buffer st ++ text_of cs) = false ->
    filter is_mapping
      (events_of (forever_chunks fuel (body_of cs EOF) st)) = [].
Proof.
  induction cs as [|c cs IH]; intros fuel st Hn;
    (destruct fuel as [|fuel]; [reflexivity|]); [reflexivity|].
  rewrite (forever_chunks_step lib T on_event w fuel
             (body_of (c :: cs) EOF) st c eq_refl).
  cbv zeta. rewrite after_events. cbn [app filter is_mapping].
  destruct (is_set w (checks st)); [reflexivity|].
  rewrite DecoderFacts.text_of_cons in Hn.
  destruct (feed_no_terminator c (buffer (checked st)) (text_of cs)
              (cb (checked st)) Hn) as [how [-> Hhow]].
  rewrite after_events, advance_body_of. cbn [app].
  set (st1 := with_count _ _).
  assert (H1 : holds_terminator (buffer st1 ++ text_of cs) = false)
    by (simpl; now rewrite <- app_assoc).
  destruct Hhow as [-> | ->]; now apply IH.
Qed.

End Sessions.

(** Read byte by byte, a stream is decoded from its ASCII bytes alone. *)
Lemma single_byte_decodes (b : byte) :
  utf8_decode [b] = if is_ascii b then Some [Byte.to_N b] else None.
Proof.
  rewrite DecoderFacts.utf8_decode_cons. cbv zeta. unfold is_ascii.
  now destruct (Byte.to_N b <? 128)%N.
Qed.

Lemma decode_singles (bs : bytes) :
  forall buf,
    decode (map (fun b => [b]) bs) buf
    = decode (map (fun b => [b]) (filter is_ascii bs)) buf.
Proof.
  induction bs as [|b bs IH]; intros buf; [reflexivity|].
  cbn [map filter].
  destruct (is_ascii b) eqn:E.
  - cbn [map].
    rewrite !DecoderFacts.decode_cons by discriminate.
    rewrite single_byte_decodes, E.
    destruct (endswith _ terminator); now rewrite IH.
  - rewrite DecoderFacts.decode_cons by discriminate.
    rewrite single_byte_decodes, E. apply IH.
Qed.

Lemma text_of_singles (bs : bytes) :
  text_of (map (fun b => [b]) bs) = ascii_text (filter is_ascii bs).
Proof.
  induction bs as [|b bs IH]; [reflexivity|].
  cbn [map filter]. rewrite DecoderFacts.text_of_cons, IH.
  unfold chunk_text. rewrite single_byte_decodes.
  now destruct (is_ascii b).
Qed.

End SessionFacts.

(** ** Pauses of the supervisor *)

Module PauseFacts.

Import Trace Decoder ApiClient BodyFacts LoopFacts SupervisorFacts Shape.

Section Pauses.

Variable lib : library.
Variable T : Type.
Variable on_event : TemperatureReading -> T -> T * option exn.
Variable w : world.

#[local] Abbreviation state := (state T).
#[local] Abbreviation forever_session := (forever_session lib on_event w).
#[local] Abbreviation stream_forever := (stream_forever lib on_event w).
#[local] Abbreviation result := (list event * state * outcome)%type.

(** Every pause lasts one second and directly follows the question of the
    [except] clause for the flag. *)
Lemma stream_forever_sleep (fuel : nat) :
  forall st pre n post,
    events_of (stream_forever fuel st) = pre ++ Sleep n :: post ->
    n = 1%Z
    /\ exists pre' e, pre = pre' ++ [Caught e; IsSet Handler false].
Proof.
  induction fuel as [|fuel IH]; intros st pre n post; [ended pre|].
  rewrite stream_forever_step. cbv zeta. rewrite after_events.
  intros H.
  apply app_split_l in H; [|intros [X | []]; discriminate X].
  destruct H as [p [-> H]]. revert H.
  destruct (is_set w (checks st)); [ended p|].
  destruct (forever_session_events lib T on_event w fuel (checked st))
    as [ev0 [Hev Hch]].
  destruct (ApiClient.forever_session lib on_event w fuel (checked st))
    as [[ev st1] out].
  unfold events_of in Hev. simpl in Hev. subst ev.
  rewrite after_events. intros H.
  apply app_split_l in H;
    [|apply (not_in_events session_event); [|reflexivity];
      simpl; now apply chunk_session_event].
  destruct H as [q [-> H]]. revert H.
  assert (Hadd : forall (front q' : list event),
             (exists pre' e, q' = pre' ++ [Caught e; IsSet Handler false]) ->
             exists pre' e,
               front ++ q' = pre' ++ [Caught e; IsSet Handler false]).
  { intros front q' [pre' [e ->]]. exists (front ++ pre'), e.
    now rewrite app_assoc. }
  destruct out as [|e0|].
  - intros H. apply IH in H. destruct H as [Hn H]. split; [exact Hn|].
    rewrite app_assoc. now apply Hadd.
  - destruct (is_RequestException e0); [|ended q].
    cbv zeta. rewrite after_events. intros H.
    apply app_split_l in H; [|intros [X | [X | []]]; discriminate X].
    destruct H as [q1 [-> H]]. revert H.
    destruct (is_set w (checks st1)); [ended q1|].
    rewrite after_events. intros H.
    destruct q1 as [|x q1]; cbn [app] in H; injection H as H1 H.
    + split; [congruence|].
      exists ([IsSet LoopHead false] ++ Get :: ev0), e0.
      now rewrite app_nil_r, <- !app_assoc.
    + apply IH in H. destruct H as [Hn H]. split; [exact Hn|].
      rewrite !app_assoc. apply Hadd.
      destruct H as [pre' [e ->]]. exists (x :: pre'), e. reflexivity.
  - ended q.
Qed.

End Pauses.

End PauseFacts.

(** ** Whitespace around a payload *)

Module StripFacts.

Import Decoder ApiClient.

#[local] Arguments N.eqb : simpl never.

Lemma lstrip_spaces (ws x : str) :
  forallb isspace ws = true -> lstrip (ws ++ x) = lstrip x.
Proof.
  induction ws as [|c ws IH]; [reflexivity|]. simpl.
  rewrite andb_true_iff. intros [-> H]. now apply IH.
Qed.

Lemma lstrip_length (s : str) : List.length (lstrip s) <= List.length s.
Proof.
  induction s as [|c s IH]; [reflexivity|]. simpl.
  destruct (isspace c); simpl; lia.
Qed.

Lemma lstrip_fixed (c : N) (p x : str) :
  lstrip (c :: p) = c :: p -> lstrip ((c :: p) ++ x) = (c :: p) ++ x.
Proof.
  simpl. destruct (isspace c) eqn:E; [|reflexivity].
  intros H. pose proof (lstrip_length p) as Hl. rewrite H in Hl.
  simpl in Hl. lia.
Qed.

Lemma forallb_rev {A : Type} (f : A -> bool) (l : list A) :
  forallb f (rev l) = forallb f l.
Proof.
  induction l as [|x l IH]; [reflexivity|]. simpl.
  rewrite forallb_app, IH. simpl. rewrite andb_true_r. apply andb_comm.
Qed.

Lemma rstrip_spaces (x ws : str) :
  forallb isspace ws = true -> rstrip (x ++ ws) = rstrip x.
Proof.
  intros H. unfold rstrip. rewrite rev_app_distr.
  rewrite lstrip_spaces; [reflexivity|]. now rewrite forallb_rev.
Qed.

(** The text between whitespace is what [strip] leaves, when it neither
    begins nor ends with whitespace itself. *)
Lemma strip_between (ws1 p ws2 : str) :
  forallb isspace ws1 = true ->
  forallb isspace ws2 = true ->
  lstrip p = p ->
  rstrip p = p ->
  strip (ws1 ++ p ++ ws2) = p.
Proof.
  intros H1 H2 Hl Hr. unfold strip. rewrite (lstrip_spaces _ _ H1).
  destruct p as [|c p].
  - simpl. rewrite <- (app_nil_r ws2), (lstrip_spaces _ _ H2). reflexivity.
  - rewrite (lstrip_fixed c p ws2 Hl).
    now rewrite (rstrip_spaces _ _ H2).
Qed.

(** Every line boundary of [splitlines] ends a line; a carriage return
    takes a line feed that follows it along. *)
Lemma splitlines_at_break (l r : str) (c : N) :
  plain_line l ->
  is_linebreak c = true ->
  splitlines (l ++ c :: r)
  = l :: splitlines (if (c =? CR)%N && startswith r [LF] then tl r else r).
Proof.
  intros Hl Hc. induction Hl as [|x l Hx _ IH].
  - destruct r as [|d r].
    + simpl. rewrite Hc. now rewrite andb_false_r.
    + cbn [app]. rewrite StrFacts.splitlines_break by assumption.
      unfold startswith. rewrite andb_true_r, (N.eqb_sym LF d).
      now destruct ((c =? CR)%N && (d =? LF)%N).
  - rewrite <- app_comm_cons, StrFacts.splitlines_plain, IH by assumption.
    reflexivity.
Qed.

Lemma plain_not_LF (b : str) : plain_line b -> startswith b [LF] = false.
Proof.
  intros H. destruct H as [|x b Hx _]; [reflexivity|].
  unfold startswith. rewrite andb_true_r.
  destruct (N.eqb_spec LF x) as [<- | _]; [discriminate Hx | reflexivity].
Qed.

Lemma data_prefix_plain (a : str) :
  plain_line a -> plain_line (data_prefix ++ a).
Proof.
  intros H. apply Forall_app. split; [|exact H].
  repeat constructor.
Qed.

Lemma space_opens_no_data_line (c : N) (rest : str) :
  isspace c = true -> is_data (c :: rest) = false.
Proof.
  intros H. unfold is_data, data_prefix. simpl.
  destruct (N.eqb_spec 100 c) as [<- | _]; [discriminate H | reflexivity].
Qed.

End StripFacts.

(** ** How the supervisor ends *)

Module EndFacts.

Import Trace Decoder ApiClient BodyFacts LoopFacts SupervisorFacts Shape.

Section Ends.

Variable lib : library.
Variable T : Type.
Variable on_event : TemperatureReading -> T -> T * option exn.
Variable w : world.

#[local] Abbreviation state := (state T).
#[local] Abbreviation stream_forever := (stream_forever lib on_event w).
#[local] Abbreviation result := (list event * state * outcome)%type.

(** A run that returns ends with the flag found set, by the [while]
    condition or by the [except] clause. *)
Lemma after_stopped (ev : list event) (r : result) :
  (exists pre s, events_of r = pre ++ [IsSet s true] /\ s <> ChunkHead) ->
  exists pre s,
    events_of (after ev r) = pre ++ [IsSet s true] /\ s <> ChunkHead.
Proof.
  intros [pre [s [H Hs]]]. exists (ev ++ pre), s.
  rewrite after_events, H. now rewrite app_assoc.
Qed.

Lemma stream_forever_normal (fuel : nat) :
  forall st,
    outcome_of (stream_forever fuel st) = Normal ->
    exists pre s,
      events_of (stream_forever fuel st) = pre ++ [IsSet s true]
      /\ s <> ChunkHead.
Proof.
  induction fuel as [|fuel IH]; intros st; [discriminate|].
  rewrite stream_forever_step. cbv zeta. rewrite after_outcome.
  destruct (is_set w (checks st)).
  - intros _. exists [], LoopHead. now split.
  - destruct (ApiClient.forever_session lib on_event w fuel (checked st))
      as [[ev st1] out].
    rewrite after_outcome. intros H.
    apply after_stopped, after_stopped. revert H.
    destruct out as [|e|]; [apply IH | | discriminate].
    destruct (is_RequestException e); [|discriminate].
    cbv zeta. rewrite after_outcome.
    destruct (is_set w (checks st1)).
    + intros _. exists [Caught e], Handler. now split.
    + rewrite after_outcome. intros H.
      apply after_stopped, after_stopped. now apply IH.
Qed.

Lemma stream_forever_goes_on (fuel : nat) :
  never_set w ->
  forall st, outcome_of (stream_forever fuel st) <> Normal.
Proof.
  intros Hn.
  induction fuel as [|fuel IH]; intros st; [discriminate|].
  rewrite stream_forever_step. cbv zeta. rewrite after_outcome, Hn.
  destruct (ApiClient.forever_session lib on_event w fuel (checked st))
    as [[ev st1] out].
  rewrite after_outcome.
  destruct out as [|e|]; [apply IH | | discriminate].
  destruct (is_RequestException e); [|discriminate].
  cbv zeta. rewrite after_outcome, Hn, after_outcome. apply IH.
Qed.

End Ends.

End EndFacts.

(** ** One attempt of the supervisor, one deadline of the session *)

Module AttemptFacts.

Import Trace Decoder ApiClient BodyFacts LoopFacts SupervisorFacts Shape Run.

Section Attempts.

Variable lib : library.
Variable T : Type.
Variable on_event : TemperatureReading -> T -> T * option exn.
Variable w : world.

#[local] Abbreviation state := (state T).
#[local] Abbreviation feed := (feed lib on_event).
#[local] Abbreviation stream_chunks := (stream_chunks lib on_event w).
#[local] Abbreviation forever_session := (forever_session lib on_event w).
#[local] Abbreviation stream_forever := (stream_forever lib on_event w).
#[local] Abbreviation result := (list event * state * outcome)%type.





End Attempts.

End AttemptFacts.

(** * The claims *)

Import Trace Decoder Shape.

(** ** Frame decoding *)

(** C2, as the code has it: cut a byte stream into chunks in any way that
    lets each chunk decode on its own, which every cut of an ASCII stream
    does.  When the text of the stream is complete (it ends with a blank
    line), [stream] without limits and a session of [stream_forever] whose
    stop flag is never set hand the event mapper the payloads of the
    [data:] lines that [splitlines] finds in the whole text, in order,
    whatever the cut.  When the stream is the text of N events whose lines
    hold no line boundary, these are the payloads of the [data:] lines of
    the events, and with one [data:] line in each event exactly N
    payloads. *)
Theorem C2_decodable_chunks_any_segmentation
        (lib : library) {T : Type}
        (on_event : TemperatureReading -> T -> T * option exn) (w : world)
        (cs : list bytes) (fuel : nat) (st : ApiClient.state T) (code : Z) :
  forallb is_ascii (List.concat cs) = true \/ Forall decodable cs ->
  raises_only_Exception on_event ->
  get w (ApiClient.gets st) = Response code (body_of cs EOF) ->
  raise_for_status code = false ->
  List.length cs < fuel ->
  let yielded :=
    loads (events_of (ApiClient.stream lib on_event w fuel None None st)) in
  let yielded' :=
    loads (events_of (ApiClient.forever_session lib on_event w fuel st)) in
  (forall text,
      utf8_decode (List.concat cs) = Some text ->
      closed text ->
      yielded = frame_payloads text
      /\ (never_set w -> yielded' = frame_payloads text))
  /\ (forall evs,
         Forall (Forall plain_line) evs ->
         utf8_decode (List.concat cs) = Some (stream_text evs) ->
         yielded = flat_map event_payloads evs
         /\ (never_set w -> yielded' = flat_map event_payloads evs)
         /\ (Forall (fun e => List.length (event_payloads e) = 1) evs ->
             List.length yielded = List.length evs)).
Proof.
  intros Hd Hq Hg Hc Hf. cbv zeta.
  assert (Hdec : Forall decodable cs).
  { destruct Hd as [Ha | Hd]; [|exact Hd].
    now apply DecoderFacts.ascii_chunks_decodable. }
  destruct (LoopFacts.stream_decode lib T on_event w cs fuel st code
              Hq Hg Hc Hf) as [Hs _].
  rewrite Hs. split.
  - intros text Ht Hcl.
    rewrite (DecoderFacts.text_of_decodable cs Hdec) in Ht.
    injection Ht as <-.
    rewrite (DecoderFacts.decode_total cs [] eq_refl Hcl).
    split; [reflexivity|]. intros Hn.
    destruct (LoopFacts.forever_session_decode lib T on_event w cs fuel st
                code Hq Hn Hg Hc Hf) as [Hs' _].
    rewrite Hs'. now rewrite (DecoderFacts.decode_total cs [] eq_refl Hcl).
  - intros evs Hev Hcs.
    rewrite (DecoderFacts.decode_stream evs cs Hev Hcs Hdec).
    split; [reflexivity | split].
    + intros Hn.
      destruct (LoopFacts.forever_session_decode lib T on_event w cs fuel st
                  code Hq Hn Hg Hc Hf) as [Hs' _].
      rewrite Hs'. apply (DecoderFacts.decode_stream evs cs Hev Hcs Hdec).
    + apply DecoderFacts.flat_map_length_one.
Qed.

(** C2 fails as it is written, in two ways.  The stream [data: é\n\n] holds
    one complete event.  Delivered whole it yields the payload [é]; cut
    inside the two-byte letter neither chunk decodes, both are dropped and
    no payload is yielded; delivered byte by byte the two bytes of the
    letter are dropped and the payload is empty.  And the one event whose
    one line is [data: a], a form feed and [data: b] yields two payloads,
    because [splitlines] ends a line at the form feed. *)
Lemma C2_counterexample_split_letter :
  List.concat Demo.accent_whole = List.concat Demo.accent_split
  /\ loads (events_of
              (ApiClient.stream Demo.two_payload_lib Monitor.handle_event
                 (Demo.serving Demo.accent_whole) 10 None None
                 (ApiClient.entry Demo.monitor0)))
     = [[233%N]]
  /\ loads (events_of
              (ApiClient.stream Demo.two_payload_lib Monitor.handle_event
                 (Demo.serving Demo.accent_split) 10 None None
                 (ApiClient.entry Demo.monitor0)))
     = []
  /\ loads (events_of
              (ApiClient.stream Demo.two_payload_lib Monitor.handle_event
                 (Demo.serving (Demo.singles (List.concat Demo.accent_whole)))
                 20 None None (ApiClient.entry Demo.monitor0)))
     = [[]]
  /\ loads (events_of
              (ApiClient.stream Demo.two_payload_lib Monitor.handle_event
                 (Demo.serving Demo.form_feed_frame) 10 None None
                 (ApiClient.entry Demo.monitor0)))
     = [of_string "a"; of_string "b"].
Proof. vm_compute. repeat split. Qed.

(** The demo callback prints and appends; it raises nothing. *)
Lemma handle_event_raises_nothing :
  raises_only_Exception Monitor.handle_event.
Proof. intros r [m out] e H. discriminate H. Qed.

(** The stream [data: é\n\n] cut between its characters: the payload is
    the letter. *)
Lemma C2_witness :
  loads (events_of
           (ApiClient.stream Demo.two_payload_lib Monitor.handle_event
              (Demo.serving Demo.accent_by_letter) 10 None None
              (ApiClient.entry Demo.monitor0)))
  = [[233%N]].
Proof.
  refine (proj1 (proj2 (C2_decodable_chunks_any_segmentation
                   Demo.two_payload_lib Monitor.handle_event
                   (Demo.serving Demo.accent_by_letter)
                   Demo.accent_by_letter
                   10 (ApiClient.entry Demo.monitor0) 200 _ _ _ _ _)
                   [[of_string "data: " ++ [233%N]]] _ _)).
  - right. repeat constructor; discriminate.
  - exact handle_event_raises_nothing.
  - reflexivity.
  - reflexivity.
  - vm_compute. lia.
  - repeat constructor.
  - reflexivity.
Defined.

(** ** The literal stream *)



(** ** The event mapper *)

(** C3: a payload that maps to no reading (no JSON text, no [temperature]
    or [timestamp] entry, or a temperature that converts to no float: see
    [BodyFacts.parse_reading_None]) is dropped by the [try] block: no
    exception leaves it, the callback is not called, nothing changes; the
    other lines of the frame are handled as they would be without it; a
    frame whose payloads all fail leaves the state as it was, empties the
    buffer and lets the chunk loop go on; and a stream with a frame that
    holds such a payload makes [stream] call the callback with the same
    readings, in the same order, as the stream without that frame. *)
Theorem C3_unmappable_payload_dropped
        (lib : library) {T : Type}
        (on_event : TemperatureReading -> T -> T * option exn) (ln : str) :
  is_data ln = true ->
  ApiClient.parse_reading lib (ApiClient.payload_of ln) = None ->
  (forall s,
      ApiClient.deliver lib on_event (ApiClient.payload_of ln) s
      = ([Loads (ApiClient.payload_of ln)], s, 0%Z, None))
  /\ (forall front back s,
         exists ev1 ev2 s' k x,
           ApiClient.for_lines lib on_event (front ++ ln :: back) s
           = (ev1, s', k, x)
           /\ ApiClient.for_lines lib on_event (front ++ back) s
              = (ev2, s', k, x)
           /\ calls ev1 = calls ev2)
  /\ (forall c buf s ch,
         c <> [] ->
         utf8_decode c = Some ch ->
         endswith (buf ++ ch) ApiClient.terminator = true ->
         (forall l, In l (ApiClient.lines_of (buf ++ ch)) ->
                    is_data l = true ->
                    ApiClient.parse_reading lib (ApiClient.payload_of l)
                    = None) ->
         ApiClient.feed lib on_event c buf s
         = (map Loads (frame_payloads (buf ++ ch)), [], s, 0%Z,
            ApiClient.Through))
  /\ (forall (w w' : world) (before after : list (list str))
             (cs cs' : list bytes) (fuel : nat) (st : ApiClient.state T)
             (code : Z),
         plain_line ln ->
         Forall (Forall plain_line) before ->
         Forall (Forall plain_line) after ->
         utf8_decode (List.concat cs)
         = Some (stream_text (before ++ [ln] :: after)) ->
         utf8_decode (List.concat cs') = Some (stream_text (before ++ after)) ->
         Forall decodable cs ->
         Forall decodable cs' ->
         raises_only_Exception on_event ->
         get w (ApiClient.gets st) = Response code (body_of cs EOF) ->
         get w' (ApiClient.gets st) = Response code (body_of cs' EOF) ->
         raise_for_status code = false ->
         List.length cs < fuel ->
         List.length cs' < fuel ->
         invoked
           (events_of (ApiClient.stream lib on_event w fuel None None st))
         = invoked
             (events_of (ApiClient.stream lib on_event w' fuel None None st))).
Proof.
  intros Hd Hp. split; [|split; [|split]].
  - intros s. now apply BodyFacts.deliver_unmapped.
  - intros front back s. now apply BodyFacts.for_lines_drop.
  - intros c buf s ch Hc Hu He Hall.
    unfold ApiClient.feed. destruct c as [|b c]; [congruence|].
    rewrite Hu, He.
    now rewrite (BodyFacts.for_lines_all_unmapped lib T on_event _ s Hall).
  - intros w w' before after cs cs' fuel st code
           Hln Hb Ha Hcs Hcs' Hdc Hdc' Hq Hg Hg' Hc Hf Hf'.
    destruct (LoopFacts.stream_counts lib T on_event w fuel None None st
                code (body_of cs EOF) Hg Hc) as [Hi _].
    destruct (LoopFacts.stream_counts lib T on_event w' fuel None None st
                code (body_of cs' EOF) Hg' Hc) as [Hi' _].
    destruct (LoopFacts.stream_decode lib T on_event w cs fuel st code
                Hq Hg Hc Hf) as [Hl _].
    destruct (LoopFacts.stream_decode lib T on_event w' cs' fuel st code
                Hq Hg' Hc Hf') as [Hl' _].
    rewrite Hi, Hi', Hl, Hl'.
    rewrite (DecoderFacts.decode_stream (before ++ [ln] :: after) cs),
            (DecoderFacts.decode_stream (before ++ after) cs');
      try assumption.
    + rewrite !flat_map_app, !BodyFacts.mapped_app. f_equal.
      cbn [flat_map]. rewrite BodyFacts.mapped_app.
      unfold event_payloads at 1. cbn [filter map]. rewrite Hd.
      cbn [map mapped]. now rewrite Hp.
    + apply Forall_app. now split.
    + apply Forall_app. split; [assumption|].
      constructor; [|assumption]. now constructor.
Qed.

(** The payload [oops] is no JSON text. *)
Lemma C3_witness :
  ApiClient.deliver Demo.two_payload_lib Monitor.handle_event
    (ApiClient.payload_of Demo.bad_line) Demo.monitor0
  = ([Loads (of_string "oops")], Demo.monitor0, 0%Z, None).
Proof.
  refine (proj1 (C3_unmappable_payload_dropped
                   Demo.two_payload_lib Monitor.handle_event
                   Demo.bad_line _ _) Demo.monitor0);
    reflexivity.
Defined.

(** C10, as the code has it: when the callback raises an instance of
    [Exception] for a parsed reading, the [try] block swallows it: the
    callback was called once, no exception leaves the block, [event_count]
    is not incremented, and the loop goes on with the next line in the
    state the callback left.  An exception that does leave the loop body is
    never an instance of [Exception].  Over a whole run of [stream] every
    parsed payload is handed to the callback exactly once and
    [event_count] is the number of calls that returned.  And when every
    exception of the callback is an instance of [Exception], [stream] and a
    session of [stream_forever] go through the whole of a stream of events:
    the callback is called once for each payload that maps to a reading, in
    the order of the stream, whichever of the calls raise. *)
Theorem C10_callback_exception_swallowed
        (lib : library) {T : Type}
        (on_event : TemperatureReading -> T -> T * option exn)
        (ln : str) (r : TemperatureReading) (s s' : T) (e : exn) :
  is_data ln = true ->
  ApiClient.parse_reading lib (ApiClient.payload_of ln) = Some r ->
  on_event r s = (s', Some e) ->
  is_Exception e = true ->
  ApiClient.deliver lib on_event (ApiClient.payload_of ln) s
  = ([Loads (ApiClient.payload_of ln); OnEvent r (Some e)], s', 0%Z, None)
  /\ (forall rest,
         ApiClient.for_lines lib on_event (ln :: rest) s
         = let '(ev, s2, k, x) := ApiClient.for_lines lib on_event rest s' in
           ([Loads (ApiClient.payload_of ln); OnEvent r (Some e)] ++ ev,
            s2, k, x))
  /\ (forall c buf s0 ev buf' s1 k e',
         ApiClient.feed lib on_event c buf s0
         = (ev, buf', s1, k, ApiClient.Escape e') ->
         is_Exception e' = false)
  /\ (forall w fuel stop_after timeout st code body,
         get w (ApiClient.gets st) = Response code body ->
         raise_for_status code = false ->
         let res := ApiClient.stream lib on_event w fuel stop_after timeout st
         in invoked (events_of res)
            = mapped lib (loads (events_of res))
            /\ ApiClient.event_count (state_of res)
               = Z.of_nat (List.length (delivered (events_of res))))
  /\ (forall w evs cs fuel st code,
         raises_only_Exception on_event ->
         Forall (Forall plain_line) evs ->
         utf8_decode (List.concat cs) = Some (stream_text evs) ->
         Forall decodable cs ->
         get w (ApiClient.gets st) = Response code (body_of cs EOF) ->
         raise_for_status code = false ->
         List.length cs < fuel ->
         let res := ApiClient.stream lib on_event w fuel None None st in
         let res' := ApiClient.forever_session lib on_event w fuel st in
         invoked (events_of res) = mapped lib (flat_map event_payloads evs)
         /\ outcome_of res = Normal
         /\ ApiClient.cb (state_of res)
            = Run.replay on_event (mapped lib (flat_map event_payloads evs))
                (ApiClient.cb st)
         /\ (never_set w ->
             loads (events_of res') = flat_map event_payloads evs
             /\ outcome_of res' = Normal
             /\ ApiClient.cb (state_of res')
                = Run.replay on_event (invoked (events_of res'))
                    (ApiClient.cb st))).
Proof.
  intros Hd Hp Hc He.
  assert (Hdel : ApiClient.deliver lib on_event (ApiClient.payload_of ln) s
                 = ([Loads (ApiClient.payload_of ln); OnEvent r (Some e)],
                    s', 0%Z, None)).
  { unfold ApiClient.deliver. now rewrite Hp, Hc, He. }
  split; [exact Hdel | split; [|split; [|split]]].
  - intros rest. rewrite BodyFacts.for_lines_cons, Hd, Hdel.
    now destruct (ApiClient.for_lines lib on_event rest s') as [[[ev s2] k] x].
  - intros c buf s0 ev buf' s1 k e' H.
    now apply BodyFacts.feed_escape in H as [H _].
  - intros w fuel stop_after timeout st code body Hg Hs.
    now apply (LoopFacts.stream_counts lib T on_event w fuel stop_after
                 timeout st code body).
  - intros w evs cs fuel st code Hq Hev Hcs Hdec Hg Hs Hf. cbv zeta.
    destruct (LoopFacts.stream_counts lib T on_event w fuel None None st
                code (body_of cs EOF) Hg Hs) as [Hi _].
    destruct (LoopFacts.stream_decode lib T on_event w cs fuel st code
                Hq Hg Hs Hf) as [Hl Ho].
    assert (Hinv : invoked
                     (events_of
                        (ApiClient.stream lib on_event w fuel None None st))
                   = mapped lib (flat_map event_payloads evs)).
    { rewrite Hi, Hl.
      now rewrite (DecoderFacts.decode_stream evs cs Hev Hcs Hdec). }
    split; [exact Hinv | split; [exact Ho | split]].
    + rewrite <- Hinv. apply RunFacts.stream_replay.
    + intros Hn.
      destruct (LoopFacts.forever_session_decode lib T on_event w cs fuel st
                  code Hq Hn Hg Hs Hf) as [Hl' Ho'].
      split; [|split; [exact Ho'|]].
      * rewrite Hl'. apply (DecoderFacts.decode_stream evs cs Hev Hcs Hdec).
      * apply RunFacts.forever_session_replay.
Qed.

(** A callback that raises [ValueError] at every call: the first payload
    is handed to it once and nothing is counted, and on the two literal
    frames read byte by byte it is called for both readings, in order. *)
Lemma C10_witness :
  ApiClient.deliver Demo.two_payload_lib Demo.failing_callback
    (ApiClient.payload_of Demo.good_line) 0
  = ([Loads Demo.payload1;
      OnEvent (Demo.reading Demo.f25_5 "t1") (Some ValueError)],
     1, 0%Z, None)
  /\ invoked
       (events_of
          (ApiClient.stream Demo.two_payload_lib Demo.failing_callback
             (Demo.serving (Demo.singles Demo.two_frames)) 200 None None
             (ApiClient.entry 0)))
     = [Demo.reading Demo.f25_5 "t1"; Demo.reading Demo.f99_9 "t2"].
Proof.
  refine ((fun H =>
             conj (proj1 H)
                  (proj1 (proj2 (proj2 (proj2 (proj2 H)))
                            (Demo.serving (Demo.singles Demo.two_frames))
                            [[Demo.good_line]; [Demo.second_line]]
                            (Demo.singles Demo.two_frames) 200
                            (ApiClient.entry 0) 200%Z _ _ _ _ _ _ _)))
            (C10_callback_exception_swallowed
               Demo.two_payload_lib Demo.failing_callback
               Demo.good_line (Demo.reading Demo.f25_5 "t1") 0 1
               ValueError _ _ _ _));
    try reflexivity.
  - intros r n e X. now injection X as <-.
  - repeat constructor.
  - apply DecoderFacts.ascii_chunks_decodable. reflexivity.
  - vm_compute. lia.
Defined.

(** C10 fails as it is written: a callback that raises [KeyboardInterrupt],
    which is no instance of [Exception], is not swallowed.  On the two
    literal frames read byte by byte the first call ends [stream] with the
    exception, and the second frame is never handled. *)
Lemma C10_counterexample_keyboard_interrupt :
  calls
    (events_of
       (ApiClient.stream Demo.two_payload_lib Demo.interrupted_callback
          (Demo.serving (Demo.singles Demo.two_frames)) 200 None None
          (ApiClient.entry 0)))
  = [(Demo.reading Demo.f25_5 "t1", Some KeyboardInterrupt)]
  /\ outcome_of
       (ApiClient.stream Demo.two_payload_lib Demo.interrupted_callback
          (Demo.serving (Demo.singles Demo.two_frames)) 200 None None
          (ApiClient.entry 0))
     = Raise KeyboardInterrupt
  /\ loads
       (events_of
          (ApiClient.stream Demo.two_payload_lib Demo.interrupted_callback
             (Demo.serving (Demo.singles Demo.two_frames)) 200 None None
             (ApiClient.entry 0)))
     = [Demo.payload1].
Proof. vm_compute. repeat split. Qed.

(** ** The monitor *)




(** ** The bounded session *)




(** ** The supervisor *)

(** C1, as the code has it: in [stream_forever] a 4xx or 5xx status makes
    [raise_for_status] raise [HTTPError], which is a [RequestException]; the
    [except] clause catches it and the run goes on as after a transport
    error (the flag is asked for; unless it is set, one second is slept and
    the loop is entered again).  No [RequestException] ever leaves
    [stream_forever]. *)
Theorem C1_status_error_is_retried
        (lib : library) {T : Type}
        (on_event : TemperatureReading -> T -> T * option exn) (w : world)
        (fuel : nat) (st : ApiClient.state T) (code : Z) (body : nat -> item) :
  is_set w (ApiClient.checks st) = false ->
  get w (ApiClient.gets st) = Response code body ->
  raise_for_status code = true ->
  let r := ApiClient.stream_forever lib on_event w (S fuel) st in
  is_RequestException HTTPError = true
  /\ (exists rest,
         events_of r = IsSet LoopHead false :: Get :: Caught HTTPError :: rest
         /\ backoff rest (outcome_of r))
  /\ (forall e, outcome_of r = Raise e -> is_RequestException e = false).
Proof.
  intros Hs Hg Hc r. split; [reflexivity | split].
  - assert (Hev : exists rest,
               events_of r
               = [IsSet LoopHead false; Get] ++ Caught HTTPError :: rest).
    { unfold r. rewrite SupervisorFacts.stream_forever_step. cbv zeta.
      rewrite Hs. unfold ApiClient.forever_session.
      change (ApiClient.gets (ApiClient.checked st)) with (ApiClient.gets st).
      rewrite Hg, Hc. cbn [ApiClient.after app is_RequestException].
      rewrite !LoopFacts.after_events. now eexists. }
    destruct Hev as [rest Hev]. exists rest. split; [exact Hev|].
    now apply (SupervisorFacts.stream_forever_caught lib T on_event w
                 (S fuel) st _ _ _ Hev).
  - apply SupervisorFacts.stream_forever_raises.
Qed.

(** An endpoint that answers 500, the stop flag set at the fourth question. *)
Lemma C1_witness :
  exists rest,
    events_of
      (ApiClient.stream_forever Demo.two_payload_lib Monitor.handle_event
         (Demo.answering 500 3) 9 (ApiClient.entry Demo.monitor0))
    = IsSet LoopHead false :: Get :: Caught HTTPError :: rest
    /\ backoff rest
         (outcome_of
            (ApiClient.stream_forever Demo.two_payload_lib
               Monitor.handle_event (Demo.answering 500 3) 9
               (ApiClient.entry Demo.monitor0))).
Proof.
  refine (proj1 (proj2 (C1_status_error_is_retried
                   Demo.two_payload_lib Monitor.handle_event
                   (Demo.answering 500 3) 8 (ApiClient.entry Demo.monitor0)
                   500 (fun _ => EOF) _ _ _)));
    reflexivity.
Defined.

(** C1 fails as it is written: against an endpoint that answers 500 the
    supervisor catches the [HTTPError], sleeps one second and connects
    again; when the stop flag is set it returns normally, and the error
    never reaches the caller. *)
Lemma C1_counterexample_status_500 :
  events_of
    (ApiClient.stream_forever Demo.two_payload_lib Monitor.handle_event
       (Demo.answering 500 3) 9 (ApiClient.entry Demo.monitor0))
  = [IsSet LoopHead false; Get; Caught HTTPError; IsSet Handler false;
     Sleep 1; IsSet LoopHead false; Get; Caught HTTPError;
     IsSet Handler true]
  /\ outcome_of
       (ApiClient.stream_forever Demo.two_payload_lib Monitor.handle_event
          (Demo.answering 500 3) 9 (ApiClient.entry Demo.monitor0))
     = Normal.
Proof. vm_compute. split; reflexivity. Qed.



(** C5: [stream_forever] behaves the same whatever its buffer holds when
    the loop is entered, so what a broken connection left in the buffer has
    no effect on the attempts that follow; and a session decodes the chunks
    of its own connection from the empty buffer, whatever was left over. *)
Theorem C5_fresh_buffer_each_attempt
        (lib : library) {T : Type}
        (on_event : TemperatureReading -> T -> T * option exn) (w : world)
        (fuel : nat) (st : ApiClient.state T) (leftover : str) :
  let r1 := ApiClient.stream_forever lib on_event w fuel
              (ApiClient.with_buffer st leftover) in
  let r2 := ApiClient.stream_forever lib on_event w fuel
              (ApiClient.with_buffer st []) in
  events_of r1 = events_of r2
  /\ outcome_of r1 = outcome_of r2
  /\ same_but_buffer (state_of r1) (state_of r2)
  /\ (forall cs code,
         raises_only_Exception on_event ->
         never_set w ->
         get w (ApiClient.gets st) = Response code (body_of cs EOF) ->
         raise_for_status code = false ->
         List.length cs < fuel ->
         loads (events_of
                  (ApiClient.forever_session lib on_event w fuel
                     (ApiClient.with_buffer st leftover)))
         = decode cs []).
Proof.
  cbv zeta.
  destruct (SupervisorFacts.stream_forever_buffer lib T on_event w fuel
              (ApiClient.with_buffer st leftover)
              (ApiClient.with_buffer st []) eq_refl) as [H1 [H2 H3]].
  repeat split; try assumption.
  intros cs code Hq Hn Hg Hc Hf.
  now apply (LoopFacts.forever_session_decode lib T on_event w cs fuel
               (ApiClient.with_buffer st leftover) code).
Qed.

(** The run over the breaking connections, entered with text in the buffer
    and entered with the empty buffer. *)
Lemma C5_witness :
  events_of
    (ApiClient.stream_forever Demo.two_payload_lib Monitor.handle_event
       Demo.dropping 400
       (ApiClient.with_buffer (ApiClient.entry Demo.monitor0)
          (of_string "data: x")))
  = events_of
      (ApiClient.stream_forever Demo.two_payload_lib Monitor.handle_event
         Demo.dropping 400
         (ApiClient.with_buffer (ApiClient.entry Demo.monitor0) [])).
Proof.
  exact (proj1 (C5_fresh_buffer_each_attempt
                  Demo.two_payload_lib Monitor.handle_event Demo.dropping
                  400 (ApiClient.entry Demo.monitor0)
                  (of_string "data: x"))).
Defined.

(** A connection breaks inside the first frame; the next connection
    delivers the rest of it and a second frame.  The two halves are not put
    together: only the second reading is delivered. *)
Example reconnect_discards_partial_frame :
  calls
    (events_of
       (ApiClient.stream_forever Demo.two_payload_lib Monitor.handle_event
          Demo.dropping 400 (ApiClient.entry Demo.monitor0)))
  = [(Demo.reading Demo.f99_9 "t2", None)].
Proof. vm_compute. reflexivity. Qed.

(** C6: with a stop flag that stays set, once a question for the flag is
    answered yes nothing more is received or handled: the run ends there,
    or, when the chunk loop asked, after the [while] condition has asked
    once more.  Every chunk received is followed by a question for the
    flag before anything is done with it.  If the flag is set from the
    [k]-th question on, the run returns, whatever the connections deliver
    and however long they go on, after at most [k + 2] questions. *)
Theorem C6_stop_is_prompt
        (lib : library) {T : Type}
        (on_event : TemperatureReading -> T -> T * option exn) (w : world)
        (fuel : nat) (st : ApiClient.state T) (k : nat) :
  stays_set w ->
  is_set w k = true ->
  let r := ApiClient.stream_forever lib on_event w fuel st in
  (forall pre s post,
      events_of r = pre ++ IsSet s true :: post ->
      winding_up s post (outcome_of r))
  /\ (forall pre c post,
         events_of r = pre ++ Recv c :: post ->
         exists b post', post = IsSet ChunkHead b :: post')
  /\ (1 <= fuel -> k + 2 <= ApiClient.checks st + fuel ->
      outcome_of r <> OutOfFuel)
  /\ ApiClient.checks (state_of r)
     <= Nat.max (k + 2) (ApiClient.checks st + 1).
Proof.
  intros Hmono Hk. cbv zeta. split; [|split; [|split]].
  - now apply SupervisorFacts.stream_forever_stop.
  - apply SupervisorFacts.stream_forever_asks.
  - now apply (SupervisorFacts.stream_forever_returns lib T on_event w k).
  - now apply (SupervisorFacts.stream_forever_few_checks lib T on_event w k).
Qed.

(** A flag that is set from the [n]-th question on stays set. *)
Lemma threshold_stays_set (w : world) (n : nat) :
  (forall i, is_set w i = Nat.leb n i) -> stays_set w.
Proof.
  intros H i j Hij. rewrite !H, !Nat.leb_le. lia.
Qed.

(** A connection that delivers the letter x for ever and a flag set at the
    sixth question: seven questions in all. *)
Lemma C6_witness :
  ApiClient.checks
    (state_of
       (ApiClient.stream_forever Demo.two_payload_lib Monitor.handle_event
          (Demo.endless 5) 7 (ApiClient.entry Demo.monitor0)))
  <= Nat.max (5 + 2) (ApiClient.checks (ApiClient.entry Demo.monitor0) + 1).
Proof.
  refine (proj2 (proj2 (proj2 (C6_stop_is_prompt
                   Demo.two_payload_lib Monitor.handle_event
                   (Demo.endless 5) 7 (ApiClient.entry Demo.monitor0) 5
                   _ _)))).
  - apply (threshold_stays_set (Demo.endless 5) 5). reflexivity.
  - reflexivity.
Defined.

(** A connection that never delivers a terminator: the run ends two
    questions after the flag is set, and nothing is handed to the event
    mapper. *)
Example endless_connection_stops :
  let r := ApiClient.stream_forever Demo.two_payload_lib
             Monitor.handle_event (Demo.endless 5) 7
             (ApiClient.entry Demo.monitor0) in
  outcome_of r = Normal
  /\ ApiClient.checks (state_of r) = 7
  /\ loads (events_of r) = [].
Proof. vm_compute. repeat split. Qed.

(** * Further properties *)

(** ** The monitor *)

(** X1: [add_readings] appends and leaves the interval alone: adding two
    lists one after the other is adding their concatenation, adding a list
    of one reading is [add_reading], the readings [check_safety] returned
    before are still returned, in front of the out-of-range ones among the
    readings added, and the count of [compute_stats] grows by the number of
    readings added. *)
Theorem X1_add_readings_appends
        (np : Statistics.numpy) (m : Monitor.TemperatureMonitor)
        (a b : list TemperatureReading) (r : TemperatureReading) :
  Statistics.add_readings m (a ++ b)
  = Statistics.add_readings (Statistics.add_readings m a) b
  /\ Statistics.add_readings m [r] = Monitor.add_reading m r
  /\ Monitor.check_safety (Statistics.add_readings m a)
     = Monitor.check_safety m ++ filter (Monitor.out_of_range m) a
  /\ Statistics.count
       (Statistics.compute_stats np (Statistics.add_readings m a))
     = Statistics.count (Statistics.compute_stats np m) + List.length a.
Proof.
  repeat split.
  - unfold Statistics.add_readings. simpl. now rewrite app_assoc.
  - apply MonitorFacts.check_safety_add_readings.
  - rewrite !MonitorFacts.compute_stats_count.
    unfold Statistics.add_readings. simpl. apply length_app.
Qed.


(** X3: a reading whose temperature is not-a-number is never flagged,
    whatever the interval: [check_safety] leaves it out, [handle_event]
    prints it without a mark, and neither the list of cold nor the list of
    hot violations holds it. *)
Theorem X3_nan_is_never_flagged
        (m : Monitor.TemperatureMonitor) (r : TemperatureReading) :
  temperature r = S754_nan ->
  Monitor.out_of_range m r = false
  /\ ~ In r (Monitor.check_safety m)
  /\ Monitor.classify m (temperature r) = Monitor.InRange
  /\ ~ In r (Statistics.low m)
  /\ ~ In r (Statistics.high m).
Proof.
  intros Ht.
  destruct (OrderFacts.nan_compares_not (Monitor.safe_min m)) as [L1 L2].
  destruct (OrderFacts.nan_compares_not (Monitor.safe_max m)) as [H1 H2].
  assert (Hout : Monitor.out_of_range m r = false).
  { unfold Monitor.out_of_range, float_lt, float_gt, SFltb.
    now rewrite Ht, L1, H2. }
  repeat split.
  - exact Hout.
  - unfold Monitor.check_safety. rewrite filter_In. intros [_ H]. congruence.
  - unfold Monitor.classify, float_lt, float_gt, float_eq, SFltb, SFeqb.
    now rewrite Ht, L1, H2, H1.
  - unfold Statistics.low, Statistics.float_le, SFleb. rewrite filter_In.
    rewrite Ht, L1. intros [_ H]. discriminate H.
  - unfold Statistics.high, float_ge, SFleb. rewrite filter_In.
    rewrite Ht, H2. intros [_ H]. discriminate H.
Qed.

(** A reading of not-a-number in the default interval. *)
Lemma X3_witness :
  Monitor.classify (fst Demo.monitor0) S754_nan = Monitor.InRange.
Proof.
  refine (proj1 (proj2 (proj2 (X3_nan_is_never_flagged
                   (fst Demo.monitor0)
                   {| temperature := S754_nan; timestamp := JNull |} _)))).
  reflexivity.
Defined.

(** X4: the lists of cold and hot violations of the menu hold more than
    [check_safety] returns.  A reading of the monitor is cold when its
    temperature is below [safe_min] or equal to it, hot when it is above
    [safe_max] or equal to it; so every reading of [check_safety] is cold
    or hot, and a reading that [handle_event] marks as a boundary value is
    cold or hot although [check_safety] leaves it out.  When the two ends
    of the interval are equal a reading at that value is both cold and
    hot. *)
Theorem X4_violation_lists_hold_boundaries
        (m : Monitor.TemperatureMonitor) (r : TemperatureReading) :
  In r (Monitor.readings m) ->
  (In r (Statistics.low m)
   <-> float_lt (temperature r) (Monitor.safe_min m) = true
       \/ float_eq (temperature r) (Monitor.safe_min m) = true)
  /\ (In r (Statistics.high m)
      <-> float_gt (temperature r) (Monitor.safe_max m) = true
          \/ float_eq (temperature r) (Monitor.safe_max m) = true)
  /\ (In r (Monitor.check_safety m)
      -> In r (Statistics.low m) \/ In r (Statistics.high m))
  /\ (Monitor.classify m (temperature r) = Monitor.Boundary
      -> ~ In r (Monitor.check_safety m)
         /\ (In r (Statistics.low m) \/ In r (Statistics.high m)))
  /\ (float_eq (Monitor.safe_min m) (Monitor.safe_max m) = true ->
      float_eq (temperature r) (Monitor.safe_min m) = true ->
      In r (Statistics.low m) /\ In r (Statistics.high m)).
Proof.
  intros Hin.
  assert (Hlow : In r (Statistics.low m)
                 <-> float_lt (temperature r) (Monitor.safe_min m) = true
                     \/ float_eq (temperature r) (Monitor.safe_min m) = true).
  { unfold Statistics.low. rewrite filter_In, OrderFacts.float_le_lt_eq.
    rewrite orb_true_iff. tauto. }
  assert (Hhigh : In r (Statistics.high m)
                  <-> float_gt (temperature r) (Monitor.safe_max m) = true
                      \/ float_eq (temperature r) (Monitor.safe_max m)
                         = true).
  { unfold Statistics.high. rewrite filter_In, OrderFacts.float_ge_gt_eq.
    rewrite orb_true_iff. tauto. }
  split; [exact Hlow | split; [exact Hhigh | split; [|split]]].
  - unfold Monitor.check_safety. rewrite filter_In.
    unfold Monitor.out_of_range. rewrite orb_true_iff.
    intros [_ [H | H]]; [left; apply Hlow | right; apply Hhigh]; now left.
  - unfold Monitor.classify, Monitor.check_safety.
    rewrite filter_In. unfold Monitor.out_of_range.
    destruct (float_lt (temperature r) (Monitor.safe_min m));
      [discriminate|].
    destruct (float_gt (temperature r) (Monitor.safe_max m));
      [discriminate|].
    destruct (float_eq (temperature r) (Monitor.safe_min m)) eqn:E1.
    + intros _. split; [intros [_ H]; discriminate H|].
      left. apply Hlow. now right.
    + destruct (float_eq (temperature r) (Monitor.safe_max m)) eqn:E2;
        [|discriminate].
      intros _. split; [intros [_ H]; discriminate H|].
      right. apply Hhigh. now right.
  - intros Heq Ht. split; [apply Hlow; now right|].
    apply Hhigh. right.
    unfold float_eq, SFeqb in *.
    destruct (SFcompare (temperature r) (Monitor.safe_min m))
      as [[| |]|] eqn:E; try discriminate.
    now rewrite <- (FloatFacts.SFcompare_eq_l _ _ (Monitor.safe_max m) E)
      in Heq.
Qed.

(** The reading of 80.0 of the monitor [Demo.at_maximum] is hot. *)
Lemma X4_witness :
  In (Demo.reading Demo.f80 "t") (Statistics.high Demo.at_maximum).
Proof.
  refine (proj2 (proj1 (proj2 (X4_violation_lists_hold_boundaries
                   Demo.at_maximum (Demo.reading Demo.f80 "t") _))) _).
  - left. reflexivity.
  - right. reflexivity.
Defined.

(** X5: when [safe_min < safe_max] no reading is both a cold and a hot
    violation: none of the cold readings is hot, and none of the hot ones
    is cold. *)
Theorem X5_cold_and_hot_exclude_each_other
        (m : Monitor.TemperatureMonitor) :
  float_lt (Monitor.safe_min m) (Monitor.safe_max m) = true ->
  (forall r, In r (Statistics.low m) -> ~ In r (Statistics.high m))
  /\ filter (fun r => float_ge (temperature r) (Monitor.safe_max m))
            (Statistics.low m) = []
  /\ filter (fun r => Statistics.float_le (temperature r)
                                          (Monitor.safe_min m))
            (Statistics.high m) = [].
Proof.
  intros Hlt.
  assert (Hex : forall r,
             Statistics.float_le (temperature r) (Monitor.safe_min m) = true ->
             float_ge (temperature r) (Monitor.safe_max m) = false).
  { intros r Hlo. apply OrderFacts.lt_not_ge.
    now apply (OrderFacts.le_lt_trans _ (Monitor.safe_min m)). }
  split; [|split].
  - unfold Statistics.low, Statistics.high. intros r.
    rewrite !filter_In. intros [_ Hlo] [_ Hhi].
    apply Hex in Hlo. congruence.
  - unfold Statistics.low.
    induction (Monitor.readings m) as [|r rs IH]; [reflexivity|].
    simpl. destruct (Statistics.float_le _ _) eqn:E; [|exact IH].
    simpl. now rewrite (Hex r E).
  - unfold Statistics.high.
    induction (Monitor.readings m) as [|r rs IH]; [reflexivity|].
    simpl. destruct (float_ge _ _) eqn:E; [|exact IH].
    simpl. destruct (Statistics.float_le _ _) eqn:E2; [|exact IH].
    apply Hex in E2. congruence.
Qed.

(** In the default interval the hot reading of 80.0 is not cold. *)
Lemma X5_witness :
  filter (fun r => Statistics.float_le (temperature r)
                                       (Monitor.safe_min Demo.at_maximum))
         (Statistics.high Demo.at_maximum) = [].
Proof.
  refine (proj2 (proj2 (X5_cold_and_hot_exclude_each_other
                          Demo.at_maximum _))).
  reflexivity.
Defined.

(** ** The client and the history *)

(** X6: [ApiClient(base_url)] keeps the address without the slashes at its
    end, and only those are removed: the address kept does not end with a
    slash, an address without a slash at its end is kept as it is, and one
    more slash at the end of the argument changes nothing, so the addresses
    of [/history] and [/stream] are the same. *)
Theorem X6_base_url_without_trailing_slashes (url : str) :
  (exists k, url = History.base_url (History.init url) ++ repeat 47%N k)
  /\ endswith (History.base_url (History.init url)) History.slash = false
  /\ History.init (History.base_url (History.init url)) = History.init url
  /\ (endswith url History.slash = false ->
      History.base_url (History.init url) = url)
  /\ History.history_url (History.init (url ++ History.slash))
     = History.history_url (History.init url)
  /\ History.stream_url (History.init (url ++ History.slash))
     = History.stream_url (History.init url).
Proof.
  destruct (HistoryFacts.rstrip_slash url) as [k [H1 H2]].
  unfold History.history_url, History.stream_url, History.init. simpl.
  rewrite HistoryFacts.rstrip_slash_more.
  repeat split; try assumption.
  - now exists k.
  - f_equal. now apply HistoryFacts.rstrip_slash_fixed.
  - apply HistoryFacts.rstrip_slash_fixed.
Qed.

(** The address of the demo has no slash at its end. *)
Lemma X6_witness :
  History.base_url (History.init Demo.localhost) = Demo.localhost.
Proof.
  refine (proj1 (proj2 (proj2 (proj2
            (X6_base_url_without_trailing_slashes Demo.localhost)))) _).
  reflexivity.
Defined.

(** X7: [fetch_history] returns all or nothing.  When the body of the
    answer is a list it returns a reading for every item, in the order of
    the items, if every item maps to a reading; if not, it raises the
    exception of the first item that does not map, whatever the items
    before and after it are. *)
Theorem X7_history_is_all_or_nothing
        (lib : library) (net : str -> History.answer) (c : History.client)
        (code : Z) (items : list json) :
  net (History.history_url c) = History.Answer code (inr (JList items)) ->
  raise_for_status code = false ->
  (forall rs,
      History.fetch_history lib net c = inr rs
      <-> Forall2 (fun it r => History.reading_of lib it = inr r) items rs)
  /\ (forall rs,
         History.fetch_history lib net c = inr rs ->
         List.length rs = List.length items)
  /\ (forall e,
         History.fetch_history lib net c = inl e
         <-> exists good bad rest rs,
               items = good ++ bad :: rest
               /\ History.readings_of lib good = inr rs
               /\ History.reading_of lib bad = inl e).
Proof.
  intros Hn Hc. unfold History.fetch_history. rewrite Hn, Hc. simpl.
  split; [|split].
  - apply HistoryFacts.readings_of_inr.
  - intros rs H. apply HistoryFacts.readings_of_inr in H.
    symmetry. eapply Forall2_length. eassumption.
  - apply HistoryFacts.readings_of_inl.
Qed.

(** The history of the two readings. *)
Lemma X7_witness :
  History.fetch_history Demo.two_payload_lib Demo.history_net
    (History.init Demo.localhost)
  = inr [Demo.reading Demo.f25_5 "t1"; Demo.reading Demo.f99_9 "t2"].
Proof.
  refine (proj2 (proj1 (X7_history_is_all_or_nothing
                   Demo.two_payload_lib Demo.history_net
                   (History.init Demo.localhost) 200
                   [Demo.object Demo.f25_5 "t1"; Demo.object Demo.f99_9 "t2"]
                   _ _)
                   [Demo.reading Demo.f25_5 "t1";
                    Demo.reading Demo.f99_9 "t2"]) _);
    [reflexivity | reflexivity |].
  repeat constructor.
Defined.

(** X8: [fetch_history] iterates over whatever [resp.json()] returns.  A
    list is mapped item by item; an empty object and an empty string give
    the empty history; every other value raises [TypeError] (an object or
    a string at its first key or character, the rest for not being
    iterable). *)
Theorem X8_history_of_any_body
        (lib : library) (net : str -> History.answer) (c : History.client)
        (code : Z) (body : json) :
  net (History.history_url c) = History.Answer code (inr body) ->
  raise_for_status code = false ->
  History.fetch_history lib net c
  = match body with
    | JList l => History.readings_of lib l
    | JDict [] | JStr [] => inr []
    | _ => inl TypeError
    end.
Proof.
  intros Hn Hc. unfold History.fetch_history. rewrite Hn, Hc.
  destruct body as [| | | |s|l|d]; try reflexivity.
  - now destruct s.
  - now destruct d.
Qed.

(** An answer that is the object [{"error": null}]. *)
Lemma X8_witness :
  History.fetch_history Demo.two_payload_lib
    (Demo.object_net [(of_string "error", JNull)])
    (History.init Demo.localhost)
  = inl TypeError.
Proof.
  refine (X8_history_of_any_body
            Demo.two_payload_lib
            (Demo.object_net [(of_string "error", JNull)])
            (History.init Demo.localhost) 200
            (JDict [(of_string "error", JNull)]) _ _);
    reflexivity.
Defined.

(** X9: the history and the stream map an object to a reading in the same
    way.  For a payload that [json.loads] decodes, the event mapper of the
    stream yields the reading that [fetch_history] makes of the decoded
    value, and it drops the payload exactly when [fetch_history] would
    raise on that value, always an instance of [Exception]. *)
Theorem X9_history_and_stream_map_alike
        (lib : library) (p : str) (obj : json) :
  json_loads lib p = Some obj ->
  (forall r,
      ApiClient.parse_reading lib p = Some r
      <-> History.reading_of lib obj = inr r)
  /\ (ApiClient.parse_reading lib p = None
      <-> exists e, History.reading_of lib obj = inl e)
  /\ (forall e, History.reading_of lib obj = inl e -> is_Exception e = true).
Proof.
  intros Hl. unfold ApiClient.parse_reading, History.reading_of. rewrite Hl.
  split; [|split].
  - intros r.
    destruct (getitem obj ApiClient.key_temperature) as [v|];
      [|split; discriminate].
    destruct (to_float lib v); [|split; discriminate].
    destruct (getitem obj ApiClient.key_timestamp);
      [|split; discriminate].
    split; congruence.
  - destruct (getitem obj ApiClient.key_temperature) as [v|];
      [|split; [now eexists | reflexivity]].
    destruct (to_float lib v); [|split; [now eexists | reflexivity]].
    destruct (getitem obj ApiClient.key_timestamp);
      [|split; [now eexists | reflexivity]].
    split; [discriminate | intros [e H]; discriminate H].
  - apply HistoryFacts.reading_of_error.
Qed.

(** The first payload of the literal stream. *)
Lemma X9_witness :
  History.reading_of Demo.two_payload_lib (Demo.object Demo.f25_5 "t1")
  = inr (Demo.reading Demo.f25_5 "t1").
Proof.
  refine (proj1 (proj1 (X9_history_and_stream_map_alike
                   Demo.two_payload_lib Demo.payload1
                   (Demo.object Demo.f25_5 "t1") _)
                   (Demo.reading Demo.f25_5 "t1")) _);
    reflexivity.
Defined.



(** X11: [analyze_history_only] prints exactly three lines whenever it
    returns, a minimum, a maximum and a mean in this order, and it returns
    unless [fetch_history] raises an exception that is no instance of
    [Exception]; the three lines are placeholders exactly when the history
    could not be fetched or is empty. *)
Theorem X11_analysis_prints_three_lines
        (np : Statistics.numpy) (lib : library)
        (net : str -> History.answer) (c : History.client) :
  let printed := fst (History.analyze_history_only np lib net c) in
  let raised := snd (History.analyze_history_only np lib net c) in
  (forall e, raised = Some e ->
             is_Exception e = false /\ printed = []
             /\ History.fetch_history lib net c = inl e)
  /\ (raised = None ->
      exists a b m,
        printed = [Statistics.MinLine a; Statistics.MaxLine b;
                   Statistics.MeanLine m]
        /\ (printed = History.placeholders
            <-> History.fetch_history lib net c = inr []
                \/ exists e, History.fetch_history lib net c = inl e))
  /\ (forall r h,
         History.fetch_history lib net c = inr (r :: h) ->
         let temps := map temperature (r :: h) in
         printed = [Statistics.MinLine (Some (Statistics.np_min np temps));
                    Statistics.MaxLine (Some (Statistics.np_max np temps));
                    Statistics.MeanLine (Some (Statistics.np_mean np temps))]).
Proof.
  cbv zeta. unfold History.analyze_history_only.
  destruct (History.fetch_history lib net c) as [e|h] eqn:E.
  - destruct (is_Exception e) eqn:Ex; simpl.
    + split; [discriminate | split; [|discriminate]].
      intros _. eexists _, _, _.
      split; [reflexivity|]. split; [right; now exists e | reflexivity].
    + split; [|split; discriminate]. intros e0 H. now injection H as <-.
  - destruct h as [|r h]; simpl.
    + split; [discriminate | split; [|discriminate]].
      intros _. eexists _, _, _.
      split; [reflexivity|]. split; [now left | reflexivity].
    + split; [discriminate | split].
      * intros _. eexists _, _, _.
        split; [reflexivity|]. split; [discriminate|].
        intros [H | [e H]]; discriminate H.
      * intros r0 h0 H. now injection H as <- <-.
Qed.

(** An address that does not answer: the three placeholders. *)
Lemma X11_witness :
  exists a b m,
    fst (History.analyze_history_only (Demo.constant_numpy zero)
           Demo.two_payload_lib Demo.history_net (History.init []))
    = [Statistics.MinLine a; Statistics.MaxLine b; Statistics.MeanLine m]
    /\ (fst (History.analyze_history_only (Demo.constant_numpy zero)
               Demo.two_payload_lib Demo.history_net (History.init []))
        = History.placeholders
        <-> History.fetch_history Demo.two_payload_lib Demo.history_net
              (History.init []) = inr []
            \/ exists e,
                 History.fetch_history Demo.two_payload_lib Demo.history_net
                   (History.init []) = inl e).
Proof.
  refine (proj1 (proj2 (X11_analysis_prints_three_lines
                   (Demo.constant_numpy zero) Demo.two_payload_lib
                   Demo.history_net (History.init []))) _).
  reflexivity.
Defined.

(** ** The callback *)

(** X12: the state of the callback at the end of [stream] and of
    [stream_forever] is what its successive calls made of it, in the order
    of the calls: nothing else in the client touches it, and what a call
    did before it raised is kept. *)
Theorem X12_callback_state_is_replay
        (lib : library) {T : Type}
        (on_event : TemperatureReading -> T -> T * option exn) (w : world)
        (fuel : nat) (stop_after : option Z) (timeout : option float)
        (st : ApiClient.state T) :
  let r := ApiClient.stream lib on_event w fuel stop_after timeout st in
  let r' := ApiClient.stream_forever lib on_event w fuel st in
  ApiClient.cb (state_of r)
  = Run.replay on_event (invoked (events_of r)) (ApiClient.cb st)
  /\ ApiClient.cb (state_of r')
     = Run.replay on_event (invoked (events_of r')) (ApiClient.cb st).
Proof.
  split.
  - apply RunFacts.stream_replay.
  - apply RunFacts.stream_forever_replay.
Qed.


(** ** The bounded session *)

(** X14: [stream] makes exactly one request and catches nothing of it.  An
    exception of [requests.get] and the [HTTPError] of a 4xx or 5xx status
    end it at once, before anything is read; an exception that ends it
    later was raised by a read of the body, or by the callback and is no
    instance of [Exception]. *)
Theorem X14_stream_requests_once_and_retries_nothing
        (lib : library) {T : Type}
        (on_event : TemperatureReading -> T -> T * option exn) (w : world)
        (fuel : nat) (stop_after : option Z) (timeout : option float)
        (st : ApiClient.state T) :
  let r := ApiClient.stream lib on_event w fuel stop_after timeout st in
  Run.requests (events_of r) = 1
  /\ (forall e, get w (ApiClient.gets st) = GetError e ->
                events_of r = [Get] /\ outcome_of r = Raise e)
  /\ (forall code body,
         get w (ApiClient.gets st) = Response code body ->
         raise_for_status code = true ->
         events_of r = [Get] /\ outcome_of r = Raise HTTPError)
  /\ (forall e, outcome_of r = Raise e ->
                get w (ApiClient.gets st) = GetError e
                \/ (exists code body,
                       get w (ApiClient.gets st) = Response code body
                       /\ raise_for_status code = true /\ e = HTTPError)
                \/ (exists code body i,
                       get w (ApiClient.gets st) = Response code body
                       /\ raise_for_status code = false
                       /\ body i = ReadError e)
                \/ escaped on_event e).
Proof.
  cbv zeta. unfold ApiClient.stream.
  rewrite LoopFacts.after_events, LoopFacts.after_outcome.
  destruct (get w (ApiClient.gets st)) as [e0|code body].
  - split; [reflexivity | split; [|split]].
    + intros e H. now injection H as <-.
    + discriminate.
    + intros e H. left. simpl in H. congruence.
  - destruct (raise_for_status code) eqn:Hc.
    + split; [reflexivity | split; [discriminate | split]].
      * intros code' body' _ _. now split.
      * intros e H. right. left. exists code, body.
        simpl in H. injection H as <-. now repeat split.
    + cbv zeta. rewrite LoopFacts.after_events, LoopFacts.after_outcome.
      split; [|split; [discriminate | split]].
      * cbn [app Run.requests]. now rewrite SessionFacts.stream_chunks_requests.
      * intros code' body' H. injection H as <- <-. congruence.
      * intros e H. apply SessionFacts.stream_chunks_raise in H.
        destruct H as [[i H] | H]; [|now repeat right].
        right. right. left. now exists code, body, i.
Qed.

(** An endpoint that answers 500: [stream] raises the [HTTPError]. *)
Lemma X14_witness :
  events_of
    (ApiClient.stream Demo.two_payload_lib Monitor.handle_event
       (Demo.answering 500 3) 9 None None (ApiClient.entry Demo.monitor0))
  = [Get]
  /\ outcome_of
       (ApiClient.stream Demo.two_payload_lib Monitor.handle_event
          (Demo.answering 500 3) 9 None None (ApiClient.entry Demo.monitor0))
     = Raise HTTPError.
Proof.
  refine (proj1 (proj2 (proj2 (X14_stream_requests_once_and_retries_nothing
                   Demo.two_payload_lib Monitor.handle_event
                   (Demo.answering 500 3) 9 None None
                   (ApiClient.entry Demo.monitor0))))
                500%Z (fun _ => EOF) _ _);
    reflexivity.
Defined.

(** X15: a limit of zero is no limit.  [stream] with [stop_after=0] runs as
    with no [stop_after], and with a [timeout] of zero, positive or
    negative, as with no [timeout]: the clock is not even read again. *)
Theorem X15_zero_limits_are_no_limits
        (lib : library) {T : Type}
        (on_event : TemperatureReading -> T -> T * option exn) (w : world)
        (fuel : nat) (stop_after : option Z) (timeout : option float)
        (st : ApiClient.state T) (t : float) :
  float_truthy t = false ->
  ApiClient.stream lib on_event w fuel (Some 0%Z) timeout st
  = ApiClient.stream lib on_event w fuel None timeout st
  /\ ApiClient.stream lib on_event w fuel stop_after (Some t) st
     = ApiClient.stream lib on_event w fuel stop_after None st
  /\ ApiClient.stream lib on_event w fuel (Some 0%Z) (Some t) st
     = ApiClient.stream lib on_event w fuel None None st.
Proof.
  intros Ht.
  assert (H0 : forall n, ApiClient.count_reached (Some 0%Z) n
                         = ApiClient.count_reached None n) by reflexivity.
  assert (H1 : ApiClient.has_timeout (Some t) = ApiClient.has_timeout None)
    by (simpl; now rewrite Ht).
  unfold ApiClient.stream.
  destruct (get w (ApiClient.gets st)) as [e|code body];
    [now repeat split|].
  destruct (raise_for_status code); [now repeat split|].
  cbv zeta.
  rewrite (SessionFacts.stream_chunks_limits lib T on_event w fuel
             (Some 0%Z) None timeout timeout H0 eq_refl).
  rewrite (SessionFacts.stream_chunks_limits lib T on_event w fuel
             stop_after stop_after (Some t) None (fun _ => eq_refl) H1).
  rewrite (SessionFacts.stream_chunks_limits lib T on_event w fuel
             (Some 0%Z) None (Some t) None H0 H1).
  now repeat split.
Qed.

(** The two frames read with a [timeout] of zero, and with none. *)
Lemma X15_witness :
  ApiClient.stream Demo.two_payload_lib Monitor.handle_event
    (Demo.serving (Demo.singles Demo.two_frames)) 200 None (Some zero)
    (ApiClient.entry Demo.monitor0)
  = ApiClient.stream Demo.two_payload_lib Monitor.handle_event
      (Demo.serving (Demo.singles Demo.two_frames)) 200 None None
      (ApiClient.entry Demo.monitor0).
Proof.
  refine (proj1 (proj2 (X15_zero_limits_are_no_limits
                   Demo.two_payload_lib Monitor.handle_event
                   (Demo.serving (Demo.singles Demo.two_frames)) 200 None
                   None (ApiClient.entry Demo.monitor0) zero _))).
  reflexivity.
Defined.

(** X16: the limits of [stream] are tested on no turn that skips its chunk.
    A body of chunks that are empty or do not decode is read to its end
    whatever [stop_after] and [timeout] are, the clock never read again;
    and on a body that delivers such chunks for ever [stream] goes on for
    as long as it is let run, whatever its limits. *)
Theorem X16_skipped_chunks_test_no_limit
        (lib : library) {T : Type}
        (on_event : TemperatureReading -> T -> T * option exn) (w : world)
        (fuel : nat) (stop_after : option Z) (timeout : option float)
        (st : ApiClient.state T) (code : Z) (body : nat -> item) :
  get w (ApiClient.gets st) = Response code body ->
  raise_for_status code = false ->
  let r := ApiClient.stream lib on_event w fuel stop_after timeout st in
  let start := time w (ApiClient.ticks st) in
  (forall cs,
      body = body_of cs EOF ->
      forallb Run.skipped cs = true ->
      List.length cs < fuel ->
      events_of r = Get :: Time start :: map Recv cs
      /\ outcome_of r = Normal)
  /\ ((forall i, exists c, body i = Chunk c /\ Run.skipped c = true) ->
      outcome_of r = OutOfFuel
      /\ List.length (received (events_of r)) = fuel
      /\ List.length (events_of r) = 2 + fuel).
Proof.
  intros Hg Hc. cbv zeta.
  rewrite (LoopFacts.stream_accepted lib T on_event w fuel stop_after timeout
             st code body Hg Hc).
  rewrite LoopFacts.after_events, LoopFacts.after_outcome. split.
  - intros cs -> Hs Hf.
    rewrite (SessionFacts.stream_chunks_skipped lib T on_event w cs Hs)
      by assumption.
    now split.
  - intros Hb.
    destruct (SessionFacts.stream_chunks_skipping lib T on_event w fuel
                stop_after timeout (time w (ApiClient.ticks st)) body
                (ApiClient.with_buffer
                   (ApiClient.ticked
                      (ApiClient.with_count (ApiClient.got st) 0)) [])
                Hb)
      as [H1 [H2 [H3 _]]].
    split; [exact H1 | split].
    + rewrite SessionFacts.received_length_app. simpl. exact H3.
    + rewrite length_app. simpl. now rewrite H2.
Qed.

(** Three bytes that decode to nothing, read with [stop_after = -1], a
    count that is reached from the start. *)
Lemma X16_witness :
  events_of
    (ApiClient.stream Demo.two_payload_lib Monitor.handle_event
       (Demo.serving Demo.undecodable) 10 (Some (-1)%Z) (Some one)
       (ApiClient.entry Demo.monitor0))
  = Get :: Time zero :: map Recv Demo.undecodable
  /\ outcome_of
       (ApiClient.stream Demo.two_payload_lib Monitor.handle_event
          (Demo.serving Demo.undecodable) 10 (Some (-1)%Z) (Some one)
          (ApiClient.entry Demo.monitor0))
     = Normal.
Proof.
  refine (proj1 (X16_skipped_chunks_test_no_limit
                   Demo.two_payload_lib Monitor.handle_event
                   (Demo.serving Demo.undecodable) 10 (Some (-1)%Z) (Some one)
                   (ApiClient.entry Demo.monitor0) 200
                   (body_of Demo.undecodable EOF) _ _)
                Demo.undecodable _ _ _);
    [reflexivity | reflexivity | reflexivity | reflexivity |].
  simpl. lia.
Defined.

(** X17: without limits [stream] returns at the end of the body only.
    When [stream] with no [stop_after] and no [timeout] returns, the body
    has ended, and every chunk in front of its end was received, in
    order. *)
Theorem X17_unlimited_stream_reads_the_whole_body
        (lib : library) {T : Type}
        (on_event : TemperatureReading -> T -> T * option exn) (w : world)
        (fuel : nat) (st : ApiClient.state T) (code : Z) (body : nat -> item) :
  get w (ApiClient.gets st) = Response code body ->
  raise_for_status code = false ->
  let r := ApiClient.stream lib on_event w fuel None None st in
  outcome_of r = Normal ->
  body (List.length (received (events_of r))) = EOF
  /\ forall j, j < List.length (received (events_of r)) ->
               body j = Chunk (nth j (received (events_of r)) []).
Proof.
  intros Hg Hc. cbv zeta.
  rewrite (LoopFacts.stream_accepted lib T on_event w fuel None None st code
             body Hg Hc).
  rewrite LoopFacts.after_outcome, LoopFacts.after_events.
  cbn [app received].
  apply (SessionFacts.stream_chunks_whole lib T on_event w fuel).
Qed.

(** The two literal frames, byte by byte: [stream] returns after the last
    of their bytes. *)
Lemma X17_witness :
  body_of (Demo.singles Demo.two_frames) EOF
    (List.length
       (received
          (events_of
             (ApiClient.stream Demo.two_payload_lib Monitor.handle_event
                (Demo.serving (Demo.singles Demo.two_frames)) 200 None None
                (ApiClient.entry Demo.monitor0)))))
  = EOF.
Proof.
  refine (proj1 (X17_unlimited_stream_reads_the_whole_body
                   Demo.two_payload_lib Monitor.handle_event
                   (Demo.serving (Demo.singles Demo.two_frames)) 200
                   (ApiClient.entry Demo.monitor0) 200
                   (body_of (Demo.singles Demo.two_frames) EOF) _ _ _));
    [reflexivity | reflexivity |].
  vm_compute. reflexivity.
Defined.

(** ** The frame decoder *)

(** X18: without two line feeds in a row there is no event.  A body whose
    text holds no line feed directly followed by another (one whose lines
    all end with carriage return and line feed, for instance) has nothing
    handed to [json.loads] and no call of the callback, in [stream] with
    any limits and in a session of [stream_forever], however the body is
    cut into chunks. *)
Theorem X18_no_event_without_two_line_feeds
        (lib : library) {T : Type}
        (on_event : TemperatureReading -> T -> T * option exn) (w : world)
        (fuel : nat) (stop_after : option Z) (timeout : option float)
        (st : ApiClient.state T) (code : Z) (cs : list bytes) :
  Run.holds_terminator (text_of cs) = false ->
  get w (ApiClient.gets st) = Response code (body_of cs EOF) ->
  raise_for_status code = false ->
  let r := ApiClient.stream lib on_event w fuel stop_after timeout st in
  let r' := ApiClient.forever_session lib on_event w fuel st in
  loads (events_of r) = [] /\ calls (events_of r) = []
  /\ loads (events_of r') = [] /\ calls (events_of r') = [].
Proof.
  intros Hn Hg Hc. cbv zeta.
  rewrite (LoopFacts.stream_accepted lib T on_event w fuel stop_after timeout
             st code (body_of cs EOF) Hg Hc).
  unfold ApiClient.forever_session. rewrite Hg, Hc.
  rewrite !LoopFacts.after_events.
  rewrite !BodyFacts.loads_app, !BodyFacts.calls_app. cbn [loads calls app].
  destruct (SessionFacts.no_mapping _
              (SessionFacts.stream_chunks_no_terminator lib T on_event w cs
                 fuel stop_after timeout (time w (ApiClient.ticks st))
                 (ApiClient.with_buffer
                    (ApiClient.ticked
                       (ApiClient.with_count (ApiClient.got st) 0)) [])
                 Hn)) as [H1 H2].
  destruct (SessionFacts.no_mapping _
              (SessionFacts.forever_chunks_no_terminator lib T on_event w cs
                 fuel (ApiClient.with_buffer (ApiClient.got st) []) Hn))
    as [H3 H4].
  now rewrite H1, H2, H3, H4.
Qed.

(** The event [data: x] with carriage return and line feed at the end of
    its lines. *)
Lemma X18_witness :
  loads
    (events_of
       (ApiClient.stream Demo.two_payload_lib Monitor.handle_event
          (Demo.serving Demo.crlf_stream) 20 None None
          (ApiClient.entry Demo.monitor0)))
  = [].
Proof.
  refine (proj1 (X18_no_event_without_two_line_feeds
                   Demo.two_payload_lib Monitor.handle_event
                   (Demo.serving Demo.crlf_stream) 20 None None
                   (ApiClient.entry Demo.monitor0) 200 Demo.crlf_stream
                   _ _ _));
    reflexivity.
Defined.

(** X19: the payload of a [data:] line is the text after the prefix
    without the whitespace around it, so the space after the colon is
    optional and whitespace before the end of the line is dropped; a line
    with whitespace in front of [data:] is no payload line. *)
Theorem X19_payload_without_surrounding_whitespace (ws1 p ws2 : str) :
  forallb isspace ws1 = true ->
  forallb isspace ws2 = true ->
  lstrip p = p ->
  rstrip p = p ->
  is_data (ApiClient.data_prefix ++ ws1 ++ p ++ ws2) = true
  /\ ApiClient.payload_of (ApiClient.data_prefix ++ ws1 ++ p ++ ws2) = p
  /\ (forall c rest,
         isspace c = true ->
         is_data (c :: ApiClient.data_prefix ++ rest) = false).
Proof.
  intros H1 H2 Hl Hr. split; [|split].
  - apply StrFacts.startswith_spec. now eexists.
  - unfold ApiClient.payload_of.
    change (skipn 5 (ApiClient.data_prefix ++ ws1 ++ p ++ ws2))
      with (ws1 ++ p ++ ws2).
    now apply StripFacts.strip_between.
  - intros c rest. apply StripFacts.space_opens_no_data_line.
Qed.

(** The line [data:] followed by a tabulator, a space, the text [oops] and
    a space. *)
Lemma X19_witness :
  ApiClient.payload_of
    (ApiClient.data_prefix ++ [9%N; 32%N] ++ of_string "oops" ++ [32%N])
  = of_string "oops".
Proof.
  refine (proj1 (proj2 (X19_payload_without_surrounding_whitespace
                   [9%N; 32%N] (of_string "oops") [32%N] _ _ _ _)));
    reflexivity.
Defined.

(** X20: a [data:] line is cut at every line boundary that
    [str.splitlines] knows, not at line feeds alone.  When a frame holds a
    [data:] line with such a character in it (U+0085, U+2028 or U+2029,
    which JSON allows unescaped inside a string, or a form feed and the
    like), the payload handed on is the text in front of that character
    only; what follows it is a
    line of its own, a payload only if it begins with [data:] itself. *)
Theorem X20_payload_cut_at_every_line_boundary
        (a b : str) (c : N) (chunk : bytes) :
  plain_line a ->
  plain_line b ->
  is_linebreak c = true ->
  let text := ApiClient.data_prefix ++ a ++ c :: b ++ ApiClient.terminator in
  filter is_data (ApiClient.lines_of text)
  = (ApiClient.data_prefix ++ a) :: (if is_data b then [b] else [])
  /\ frame_payloads text
     = ApiClient.payload_of (ApiClient.data_prefix ++ a)
       :: (if is_data b then [ApiClient.payload_of b] else [])
  /\ (chunk <> [] -> utf8_decode chunk = Some text ->
      decode [chunk] [] = frame_payloads text).
Proof.
  intros Ha Hb Hc. cbv zeta.
  assert (Hl : filter is_data
                 (ApiClient.lines_of
                    (ApiClient.data_prefix ++ a ++ c :: b
                     ++ ApiClient.terminator))
               = (ApiClient.data_prefix ++ a)
                 :: (if is_data b then [b] else [])).
  { unfold ApiClient.lines_of. rewrite DecoderFacts.filter_data_lines.
    assert (Hd : is_data (ApiClient.data_prefix ++ a) = true)
      by (apply StrFacts.startswith_spec; now eexists).
    rewrite app_assoc.
    rewrite StripFacts.splitlines_at_break;
      [| now apply StripFacts.data_prefix_plain | assumption].
    cbn [filter]. rewrite Hd. f_equal.
    destruct b as [|x b].
    - cbn [app]. unfold ApiClient.terminator.
      now destruct ((c =? CR)%N && startswith [LF; LF] [LF]).
    - assert (Hs : startswith ((x :: b) ++ ApiClient.terminator) [LF]
                   = false) by apply (StripFacts.plain_not_LF _ Hb).
      rewrite Hs, andb_false_r. unfold ApiClient.terminator.
      rewrite DecoderFacts.splitlines_line by assumption.
      cbn [filter]. now destruct (is_data (x :: b)). }
  split; [exact Hl | split].
  - unfold frame_payloads. rewrite Hl. now destruct (is_data b).
  - intros Hn Hu. rewrite DecoderFacts.decode_cons by assumption.
    rewrite Hu. cbn [app].
    assert (He : endswith
                   (ApiClient.data_prefix ++ a ++ c :: b
                    ++ ApiClient.terminator) ApiClient.terminator = true).
    { apply StrFacts.endswith_spec.
      exists (ApiClient.data_prefix ++ a ++ c :: b).
      now rewrite <- !app_assoc. }
    rewrite He. apply app_nil_r.
Qed.

(** The payload of the first literal frame with U+2028 inside its
    timestamp: what is handed on ends in front of it. *)
Lemma X20_witness :
  frame_payloads
    (ApiClient.data_prefix ++ Demo.cut_front ++ 8232%N :: Demo.cut_back
     ++ ApiClient.terminator)
  = [ApiClient.payload_of (ApiClient.data_prefix ++ Demo.cut_front)].
Proof.
  refine (proj1 (proj2 (X20_payload_cut_at_every_line_boundary
                   Demo.cut_front Demo.cut_back 8232%N [] _ _ _)));
    [| | reflexivity]; repeat constructor.
Defined.

(** ** The supervisor *)

(** X21: [stream_forever] pauses only in its [except] clause.  Every
    [time.sleep] lasts one second and comes directly after an exception was
    caught and the flag found unset; so a run in which no exception is
    caught never sleeps: a connection that ends normally is followed by
    the next request at once. *)
Theorem X21_pause_only_after_an_error
        (lib : library) {T : Type}
        (on_event : TemperatureReading -> T -> T * option exn) (w : world)
        (fuel : nat) (st : ApiClient.state T) :
  let r := ApiClient.stream_forever lib on_event w fuel st in
  (forall pre n post,
      events_of r = pre ++ Sleep n :: post ->
      n = 1%Z /\ exists pre' e, pre = pre' ++ [Caught e; IsSet Handler false])
  /\ ((forall e, ~ In (Caught e) (events_of r)) ->
      forall n, ~ In (Sleep n) (events_of r)).
Proof.
  cbv zeta. split.
  - apply PauseFacts.stream_forever_sleep.
  - intros Hno n Hin. apply in_split in Hin.
    destruct Hin as [pre [post Hin]].
    destruct (PauseFacts.stream_forever_sleep lib T on_event w fuel st
                pre n post Hin) as [_ [pre' [e ->]]].
    apply (Hno e). rewrite Hin, <- !app_assoc.
    apply in_or_app. right. now left.
Qed.

(** The pause of the run against an endpoint that answers 500. *)
Lemma X21_witness :
  exists pre' e,
    [IsSet LoopHead false; Get; Caught HTTPError; IsSet Handler false]
    = pre' ++ [Caught e; IsSet Handler false].
Proof.
  refine (proj2 (proj1 (X21_pause_only_after_an_error
                   Demo.two_payload_lib Monitor.handle_event
                   (Demo.answering 500 3) 9 (ApiClient.entry Demo.monitor0))
                [IsSet LoopHead false; Get; Caught HTTPError;
                 IsSet Handler false]
                1%Z
                [IsSet LoopHead false; Get; Caught HTTPError;
                 IsSet Handler true] _)).
  reflexivity.
Defined.

(** X22: [stream_forever] returns only when it has seen the stop flag set.
    The last thing a run that returns did was to find the flag set, in the
    [while] condition or in the [except] clause; so while the flag is
    never set the run does not return, whatever the connections do: it
    goes on, or it is ended by an exception that is no
    [RequestException]. *)
Theorem X22_supervisor_returns_only_when_stopped
        (lib : library) {T : Type}
        (on_event : TemperatureReading -> T -> T * option exn) (w : world)
        (fuel : nat) (st : ApiClient.state T) :
  let r := ApiClient.stream_forever lib on_event w fuel st in
  (outcome_of r = Normal ->
   last (events_of r) Get = IsSet LoopHead true
   \/ last (events_of r) Get = IsSet Handler true)
  /\ (never_set w ->
      outcome_of r = OutOfFuel
      \/ exists e, outcome_of r = Raise e /\ is_RequestException e = false).
Proof.
  cbv zeta. split.
  - intros H.
    apply (EndFacts.stream_forever_normal lib T on_event w) in H.
    destruct H as [pre [s [-> Hs]]]. rewrite last_last.
    destruct s; [now left | congruence | now right].
  - intros Hn.
    pose proof (EndFacts.stream_forever_goes_on lib T on_event w fuel Hn st)
      as H.
    pose proof (SupervisorFacts.stream_forever_raises lib T on_event w fuel
                  st) as Hr.
    destruct (outcome_of
                (ApiClient.stream_forever lib on_event w fuel st))
      as [|e|]; [congruence | right | now left].
    exists e. split; [reflexivity | now apply Hr].
Qed.

(** The run against an endpoint that answers 500 returns when the [except]
    clause finds the flag set. *)
Lemma X22_witness :
  last
    (events_of
       (ApiClient.stream_forever Demo.two_payload_lib Monitor.handle_event
          (Demo.answering 500 3) 9 (ApiClient.entry Demo.monitor0))) Get
  = IsSet LoopHead true
  \/ last
       (events_of
          (ApiClient.stream_forever Demo.two_payload_lib Monitor.handle_event
             (Demo.answering 500 3) 9 (ApiClient.entry Demo.monitor0))) Get
     = IsSet Handler true.
Proof.
  refine (proj1 (X22_supervisor_returns_only_when_stopped
                   Demo.two_payload_lib Monitor.handle_event
                   (Demo.answering 500 3) 9 (ApiClient.entry Demo.monitor0))
                _).
  reflexivity.
Defined.

(** ** The lists of the menu *)

(** X23: [show_cold_violations] and [show_hot_violations] print a heading
    with the number of readings at or beyond the end of the interval and
    then these readings, numbered from one in the order in which the
    monitor holds them, or the line [None] when there is none. *)
Theorem X23_violations_are_numbered_in_order
        (m : Monitor.TemperatureMonitor) :
  (exists rest,
      Statistics.show_cold_violations m
      = Statistics.ColdHeader (Monitor.safe_min m)
          (List.length (Statistics.low m)) :: rest
      /\ (Statistics.low m = [] -> rest = [Statistics.NoneLine])
      /\ (Statistics.low m <> [] ->
          List.length rest = List.length (Statistics.low m)
          /\ forall i r,
               In (Statistics.ColdLine i r) rest
               <-> 1 <= i /\ nth_error (Statistics.low m) (i - 1) = Some r))
  /\ (exists rest,
         Statistics.show_hot_violations m
         = Statistics.HotHeader (Monitor.safe_max m)
             (List.length (Statistics.high m)) :: rest
         /\ (Statistics.high m = [] -> rest = [Statistics.NoneLine])
         /\ (Statistics.high m <> [] ->
             List.length rest = List.length (Statistics.high m)
             /\ forall i r,
                  In (Statistics.HotLine i r) rest
                  <-> 1 <= i
                      /\ nth_error (Statistics.high m) (i - 1) = Some r)).
Proof.
  unfold Statistics.show_cold_violations, Statistics.show_hot_violations.
  split.
  - eexists. split; [reflexivity|].
    destruct (Statistics.low m) as [|r l]; split; try congruence.
    intros _. split.
    + now rewrite length_map, HistoryFacts.enumerate_length.
    + intros i x. apply HistoryFacts.numbered_lines.
      intros j y H. now injection H.
  - eexists. split; [reflexivity|].
    destruct (Statistics.high m) as [|r l]; split; try congruence.
    intros _. split.
    + now rewrite length_map, HistoryFacts.enumerate_length.
    + intros i x. apply HistoryFacts.numbered_lines.
      intros j y H. now injection H.
Qed.

(** ** Chunks of one byte *)

(** X24: read byte by byte, as [iter_content(chunk_size=1)] delivers it, a
    stream is decoded from its ASCII bytes alone: every byte of a
    character outside ASCII is a chunk that does not decode and is
    skipped, so the payloads handed to [json.loads] are those of the
    stream without these bytes. *)
Theorem X24_single_bytes_lose_non_ascii
        (lib : library) {T : Type}
        (on_event : TemperatureReading -> T -> T * option exn) (w : world)
        (fuel : nat) (st : ApiClient.state T) (code : Z) (bs : bytes) :
  raises_only_Exception on_event ->
  get w (ApiClient.gets st) = Response code (body_of (Demo.singles bs) EOF) ->
  raise_for_status code = false ->
  List.length bs < fuel ->
  let r := ApiClient.stream lib on_event w fuel None None st in
  loads (events_of r) = decode (Demo.singles (filter is_ascii bs)) []
  /\ text_of (Demo.singles bs) = ascii_text (filter is_ascii bs)
  /\ outcome_of r = Normal.
Proof.
  intros Hq Hg Hc Hf. cbv zeta.
  destruct (LoopFacts.stream_decode lib T on_event w (Demo.singles bs) fuel
              st code Hq Hg Hc) as [H1 H2].
  { unfold Demo.singles. now rewrite length_map. }
  rewrite H1. unfold Demo.singles.
  now rewrite SessionFacts.decode_singles, SessionFacts.text_of_singles.
Qed.

(** The stream [data: é\n\n] byte by byte: the payload is empty. *)
Lemma X24_witness :
  loads
    (events_of
       (ApiClient.stream Demo.two_payload_lib Monitor.handle_event
          (Demo.serving (Demo.singles (List.concat Demo.accent_whole)))
          20 None None (ApiClient.entry Demo.monitor0)))
  = decode
      (Demo.singles (filter is_ascii (List.concat Demo.accent_whole))) [].
Proof.
  refine (proj1 (X24_single_bytes_lose_non_ascii
                   Demo.two_payload_lib Monitor.handle_event
                   (Demo.serving (Demo.singles (List.concat Demo.accent_whole)))
                   20 (ApiClient.entry Demo.monitor0) 200
                   (List.concat Demo.accent_whole) _ _ _ _)).
  - intros r [m out] e H. discriminate H.
  - reflexivity.
  - reflexivity.
  - simpl. lia.
Defined.
